(** * chat-service: a shallow embedding of the relay tier

  The development follows the files of the repository:

  - [Js]                      the fragment of JavaScript the service relies on:
                              truthiness, [trim], [toLowerCase], template
                              strings, property access on parsed JSON;
  - [Redis]                   the list and hash commands the client issues;
  - [RedisSingleton]          RedisSingleton.js, the methods of [RedisChatClient];
  - [SocketSingleton]         SocketSingleton.js;
  - [MessageBus]              MessageBus.js: [connectWithRetry],
                              [handleGameEvent], [askGameService];
  - [Common], [ChatSocketHandler], [ChatSocketHandlerCache]
                              socket-handlers/ChatSocketHandler.js in its two
                              variants: the one that asks the game service
                              about every message, and the one that reads
                              the game state from the cache.

  Modelling decisions.

  - Asynchronous functions run in a state-and-exception monad over a
    [World] that holds the cache, the socket objects, the emitted events,
    the console errors, the clock and the state of the broker channel.
    A handler runs atomically, except where it awaits the game service: the
    events that happen meanwhile are an argument of the handler.
  - The cache always answers.  The broker does not: an oracle in the world
    decides which connections and channel operations succeed.
  - Text on the wire or in the cache is the JSON value it denotes, or text
    that is not JSON; [JSON.parse] fails on the latter.  [JSON.stringify]
    writes the text of a value as long as nothing in it is [undefined]
    ([json_value]).
  - The fields of client payloads are strings or missing; strings are
    sequences of UTF-8 bytes.  [trim] removes the white space of
    ECMAScript, [toLowerCase] lowers the letters A to Z; numbers are
    integers, written in decimal digits.
  - A rejected promise that nothing handles ends the process: the world
    records the exit code, and what awaits a promise of the ended process
    is never resumed.
  - [console.log] is not modelled, [console.error] is.
  - Timers and promises are data: a promise of [askGameService] records the
    due time of its timer and the value it was resolved with. *)

From Stdlib Require Import Ascii.
From stdpp Require Import gmap strings list fin_maps pretty.


#[local] Set Warnings "-register-all".

Local Open Scope string_scope.
Local Open Scope Z_scope.
Local Open Scope list_scope.

(* ===================================================================== *)
(** ** JavaScript values                                                  *)
(* ===================================================================== *)

Module Js.

(** Values obtained from [JSON.parse], and object literals built by the
    handlers.  Numbers are integers (timestamps, round numbers); an object
    is the list of its properties. *)
Inductive jsval : Type :=
| VUndefined
| VNull
| VBool (b : bool)
| VNum (n : Z)
| VStr (s : string)
| VArr (items : list jsval)
| VObj (fields : list (string * jsval)).

(** Errors raised by the code or by the run time. *)
Inductive exn : Type :=
| TypeError (what : string)
| SyntaxError (what : string)
| TransportError (what : string)
| Error (what : string).

Inductive result (A : Type) : Type :=
| Ok (a : A)
| Throw (e : exn).
Arguments Ok {A} a.
Arguments Throw {A} e.

(** A piece of text that is sent over a wire or stored in the cache: either
    the serialisation of a value, or text that is not JSON at all. *)
Inductive text : Type :=
| Json (v : jsval)
| NotJson (raw : string).

(** A text [Json v] is read as the text [JSON.parse] turns into [v].  What
    [JSON.stringify] writes for [v] is such a text when [v] is a
    [json_value]; for other values it is not: [JSON.stringify] leaves out
    the properties whose value is [undefined], writes [null] for an
    [undefined] in an array, and has no text for [undefined] itself.
    Statements about what is read back from the cache are made of
    [json_value]s. *)
Definition JSON_stringify (v : jsval) : text := Json v.

Definition JSON_parse (t : text) : result jsval :=
  match t with
  | Json v => Ok v
  | NotJson _ => Throw (SyntaxError "Unexpected token in JSON")
  end.

(** [Number.isSafeInteger]: the integers a number holds exactly. *)
Definition safe_integer (n : Z) : bool := Z.abs n <=? 2 ^ 53 - 1.

(** The values that come back from [JSON.parse (JSON.stringify v)] as they
    went in: nothing [undefined] inside, numbers that are held exactly, and
    objects that name each property once. *)
Fixpoint json_value (v : jsval) : bool :=
  match v with
  | VUndefined => false
  | VNull | VBool _ | VStr _ => true
  | VNum n => safe_integer n
  | VArr items => forallb json_value items
  | VObj fields =>
      bool_decide (NoDup fields.*1)
      && forallb (fun field => match field with (_, value) => json_value value end) fields
  end.

(** [!!v] *)
Definition truthy (v : jsval) : bool :=
  match v with
  | VUndefined | VNull => false
  | VBool b => b
  | VNum n => negb (n =? 0)
  | VStr s => negb (String.eqb s "")
  | VArr _ | VObj _ => true
  end.

(** A string field of a client payload, or a property of the socket object:
    [None] is [undefined]. *)
Definition truthy_str (o : option string) : bool :=
  match o with
  | Some s => negb (String.eqb s "")
  | None => false
  end.

(** [`${o}`] *)
Definition str (o : option string) : string :=
  match o with
  | Some s => s
  | None => "undefined"
  end.

Definition js_str (o : option string) : jsval :=
  match o with
  | Some s => VStr s
  | None => VUndefined
  end.

Fixpoint assoc (k : string) (fields : list (string * jsval)) : jsval :=
  match fields with
  | [] => VUndefined
  | (k', v) :: rest => if String.eqb k k' then v else assoc k rest
  end.

(** [v.k]: reading a property of [undefined] or [null] throws. *)
Definition get (v : jsval) (k : string) : result jsval :=
  match v with
  | VUndefined => Throw (TypeError ("Cannot read properties of undefined (reading '" +:+ k +:+ "')"))
  | VNull => Throw (TypeError ("Cannot read properties of null (reading '" +:+ k +:+ "')"))
  | VObj fields => Ok (assoc k fields)
  | _ => Ok VUndefined
  end.

(** [v === s] for a string [s]. *)
Definition is_str (v : jsval) (s : string) : bool :=
  match v with
  | VStr t => String.eqb t s
  | _ => false
  end.

(** [v === o] where [o] is a string or [undefined]. *)
Definition strict_eq_str (v : jsval) (o : option string) : bool :=
  match o, v with
  | Some s, _ => is_str v s
  | None, VUndefined => true
  | None, _ => false
  end.

(** [String.prototype.toLowerCase] for the letters A to Z; every other
    byte is kept.  This is what JavaScript does to a string of ASCII
    characters ([is_ascii]); letters beyond ASCII, which JavaScript lowers
    by the Unicode tables, are left as they are. *)
Definition lower (c : ascii) : ascii :=
  let n := nat_of_ascii c in
  if (65 <=? n)%nat && (n <=? 90)%nat then ascii_of_nat (n + 32) else c.

Fixpoint toLowerCase (s : string) : string :=
  match s with
  | EmptyString => EmptyString
  | String c rest => String (lower c) (toLowerCase rest)
  end.

Fixpoint is_ascii (s : string) : bool :=
  match s with
  | EmptyString => true
  | String c rest => (nat_of_ascii c <? 128)%nat && is_ascii rest
  end.

(** [String.prototype.trim] removes the white space and the line
    terminators of ECMAScript from both ends: U+0009 to U+000D, U+0020,
    U+00A0, U+1680, U+2000 to U+200A, U+2028, U+2029, U+202F, U+205F, U+3000
    and U+FEFF.  Strings are UTF-8 here, so all but the first six take two
    or three bytes. *)
Definition two_byte_space (a b : ascii) : bool :=
  (nat_of_ascii a =? 194)%nat && (nat_of_ascii b =? 160)%nat.

Definition three_byte_space (a b c : ascii) : bool :=
  let a := nat_of_ascii a in
  let b := nat_of_ascii b in
  let c := nat_of_ascii c in
  ((a =? 225) && (b =? 154) && (c =? 128)
   || (a =? 226) && (b =? 128)
      && ((128 <=? c) && (c <=? 138) || (c =? 168) || (c =? 169) || (c =? 175))
   || (a =? 226) && (b =? 129) && (c =? 159)
   || (a =? 227) && (b =? 128) && (c =? 128)
   || (a =? 239) && (b =? 187) && (c =? 191))%nat.

Fixpoint trimStart (s : string) : string :=
  match s with
  | EmptyString => EmptyString
  | String a r1 =>
      if Ascii.is_space a then trimStart r1
      else
        match r1 with
        | EmptyString => s
        | String b r2 =>
            if two_byte_space a b then trimStart r2
            else
              match r2 with
              | EmptyString => s
              | String c r3 => if three_byte_space a b c then trimStart r3 else s
              end
        end
  end.

(** The same from the end: the string is read last byte first. *)
Fixpoint trimStart_reversed (s : string) : string :=
  match s with
  | EmptyString => EmptyString
  | String c r1 =>
      if Ascii.is_space c then trimStart_reversed r1
      else
        match r1 with
        | EmptyString => s
        | String b r2 =>
            if two_byte_space b c then trimStart_reversed r2
            else
              match r2 with
              | EmptyString => s
              | String a r3 =>
                  if three_byte_space a b c then trimStart_reversed r3 else s
              end
        end
  end.

Definition trimEnd (s : string) : string :=
  String.rev (trimStart_reversed (String.rev s)).

Definition trim (s : string) : string := trimEnd (trimStart s).

(** [v.toLowerCase()] on a parsed value: only strings have the method. *)
Definition call_toLowerCase (v : jsval) : result string :=
  match v with
  | VStr s => Ok (toLowerCase s)
  | VUndefined | VNull => Throw (TypeError "Cannot read properties of undefined (reading 'toLowerCase')")
  | _ => Throw (TypeError "toLowerCase is not a function")
  end.

(** The double quote character, for template strings. *)
Definition dq : string := String (ascii_of_nat 34) EmptyString.

(** [s.includes(sub)] *)
Fixpoint prefix (p s : string) : bool :=
  match p, s with
  | EmptyString, _ => true
  | String a p', String b s' => if Ascii.eqb a b then prefix p' s' else false
  | String _ _, EmptyString => false
  end.

Fixpoint includes (sub s : string) : bool :=
  prefix sub s ||
  match s with
  | EmptyString => false
  | String _ rest => includes sub rest
  end.

(** [`${v}`] for a parsed value.  A number is written in decimal digits,
    as JavaScript writes the integers below 10^21; of these a number holds
    the [safe_integer]s exactly. *)
Fixpoint to_string (v : jsval) : string :=
  match v with
  | VUndefined => "undefined"
  | VNull => "null"
  | VBool true => "true"
  | VBool false => "false"
  | VNum n => pretty n
  | VStr s => s
  | VObj _ => "[object Object]"
  | VArr items =>
      (fix join (l : list jsval) : string :=
         match l with
         | [] => ""
         | x :: rest =>
             let here := match x with
                         | VUndefined | VNull => ""
                         | _ => to_string x
                         end in
             match rest with
             | [] => here
             | _ => here +:+ "," +:+ join rest
             end
         end) items
  end.

(** [o[k] = v] on an object that began as the literal [{}], seen as the map
    of its own properties: the key [__proto__] names the prototype of the
    object, and assigning to it makes no property. *)
Definition set_property (k : string) (v : jsval) (o : gmap string jsval)
  : gmap string jsval :=
  if String.eqb k "__proto__" then o else <[k := v]> o.

(** The values [to_string] writes as JavaScript does: all but the numbers
    that are too large to be held exactly, alone or in an array. *)
Fixpoint plain (v : jsval) : bool :=
  match v with
  | VNum n => safe_integer n
  | VArr items => forallb plain items
  | _ => true
  end.

End Js.
Export Js.

(* ===================================================================== *)
(** ** The Redis commands used by the service                             *)
(* ===================================================================== *)

Module Redis.

(** The two families of keys the service writes ([...:messages] lists and
    [...:users] hashes) never share a key, so each family has its own map. *)
Record db : Type := {
  lists : gmap string (list text);
  hashes : gmap string (gmap string text)
}.

Definition empty : db := {| lists := ∅; hashes := ∅ |}.

Definition llen (d : db) (key : string) : nat :=
  length (default [] (lists d !! key)).

(** The index arithmetic shared by LRANGE and LTRIM: negative indices count
    from the tail, the range is inclusive and clamped to the list. *)
Definition slice {A} (l : list A) (start stop : Z) : list A :=
  let len := Z.of_nat (length l) in
  let s := if start <? 0 then Z.max 0 (len + start) else start in
  let e := if stop <? 0 then len + stop else stop in
  let e := Z.min e (len - 1) in
  if (s >? e) || (s >=? len) then []
  else take (Z.to_nat (e - s + 1)) (drop (Z.to_nat s) l).

(** LPUSH key value *)
Definition lPush (key : string) (v : text) (d : db) : db :=
  {| lists := <[key := v :: default [] (lists d !! key)]> (lists d);
     hashes := hashes d |}.

(** LTRIM key start stop: a list trimmed to nothing is removed. *)
Definition lTrim (key : string) (start stop : Z) (d : db) : db :=
  match lists d !! key with
  | None => d
  | Some l =>
      match slice l start stop with
      | [] => {| lists := delete key (lists d); hashes := hashes d |}
      | l' => {| lists := <[key := l']> (lists d); hashes := hashes d |}
      end
  end.

(** LRANGE key start stop *)
Definition lRange (key : string) (start stop : Z) (d : db) : list text :=
  slice (default [] (lists d !! key)) start stop.

(** HSET key field value *)
Definition hSet (key field : string) (v : text) (d : db) : db :=
  {| lists := lists d;
     hashes := <[key := <[field := v]> (default ∅ (hashes d !! key))]> (hashes d) |}.

(** HDEL key field: a hash that loses its last field is removed. *)
Definition hDel (key field : string) (d : db) : db :=
  match hashes d !! key with
  | None => d
  | Some h =>
      let h' := delete field h in
      {| lists := lists d;
         hashes := if decide (h' = ∅) then delete key (hashes d)
                   else <[key := h']> (hashes d) |}
  end.

(** HGETALL key *)
Definition hGetAll (key : string) (d : db) : gmap string text :=
  default ∅ (hashes d !! key).

End Redis.

(* ===================================================================== *)
(** ** The world the service runs in                                      *)
(* ===================================================================== *)

(** A connection as the handlers see it: the properties they set on the
    socket object and the rooms it is subscribed to. *)
Record Socket : Type := {
  roomCode : option string;
  userId : option string;
  username : option string;
  rooms : gset string
}.

Definition fresh_socket : Socket :=
  {| roomCode := None; userId := None; username := None; rooms := ∅ |}.

(** Where an event is emitted to: [socket.emit], [socket.to(room).emit] and
    [io.to(room).emit]. *)
Inductive Target : Type :=
| ToSocket (id : string)
| ToOthers (room : jsval) (sender : string)
| ToRoom (room : jsval).

Record Emit : Type := {
  target : Target;
  event : string;
  payload : jsval
}.

(** A message delivered by the broker to a consumer. *)
Record Delivery : Type := {
  deliveryTag : nat;
  content : text
}.

(** Operations on the AMQP channel. *)
Inductive ChanOp : Type :=
| AssertExchange (name kind : string) (durable : bool)
| AssertQueue (name : string) (durable exclusive autoDelete : bool)
| BindQueue (queue exchange pattern : string)
| Consume (queue : string) (noAck : bool)
| Publish (exchange routingKey : string) (body : text) (persistent : bool)
| Ack (tag : nat)
| Nack (tag : nat) (allUpTo requeue : bool).

Inductive ChannelState : Type :=
| ChNull
| ChOpen
| ChClosed.

(** What the broker does is not decided by the service: whether the n-th
    [amqp.connect] and [createChannel] succeed, and which channel operations
    it refuses on the n-th connection. *)
Record Broker : Type := {
  connect_ok : nat -> bool;
  createChannel_ok : nat -> bool;
  refuses : nat -> ChanOp -> bool
}.

(** A call of [askGameService] that reached [new Promise]: the timer it
    armed (its due time, until it fires or is cleared) and the value the
    promise was resolved with, if any. *)
Record Rpc : Type := {
  requestId : string;
  replyQueue : string;
  timeout : option Z;
  settled : option jsval
}.

Record World : Type := {
  redis : Redis.db;
  sockets : gmap string Socket;
  io_ready : bool;                (* socketSingleton.io is set *)
  outbox : list Emit;             (* oldest first *)
  console_error : list string;    (* oldest first *)
  now : Z;                        (* Date.now() *)
  random : list string;           (* renderings of future Math.random() *)
  broker : Broker;
  connects : nat;                 (* calls to amqp.connect so far *)
  connection : option nat;        (* this.connection *)
  channel : ChannelState;         (* this.channel *)
  chan_log : list ChanOp;         (* accepted channel operations, oldest first *)
  slept : list Z;                 (* completed sleeps, oldest first *)
  rpcs : list Rpc;                (* promises of askGameService, by handle *)
  exit_code : option Z            (* the code the process has ended with *)
}.

Definition set_redis (f : Redis.db -> Redis.db) (w : World) : World :=
  {| redis := f (redis w); sockets := sockets w; io_ready := io_ready w;
     outbox := outbox w; console_error := console_error w; now := now w;
     random := random w; broker := broker w; connects := connects w;
     connection := connection w; channel := channel w; chan_log := chan_log w;
     slept := slept w; rpcs := rpcs w; exit_code := exit_code w |}.

Definition set_sockets (f : gmap string Socket -> gmap string Socket) (w : World) : World :=
  {| redis := redis w; sockets := f (sockets w); io_ready := io_ready w;
     outbox := outbox w; console_error := console_error w; now := now w;
     random := random w; broker := broker w; connects := connects w;
     connection := connection w; channel := channel w; chan_log := chan_log w;
     slept := slept w; rpcs := rpcs w; exit_code := exit_code w |}.

Definition set_outbox (f : list Emit -> list Emit) (w : World) : World :=
  {| redis := redis w; sockets := sockets w; io_ready := io_ready w;
     outbox := f (outbox w); console_error := console_error w; now := now w;
     random := random w; broker := broker w; connects := connects w;
     connection := connection w; channel := channel w; chan_log := chan_log w;
     slept := slept w; rpcs := rpcs w; exit_code := exit_code w |}.

Definition set_console_error (f : list string -> list string) (w : World) : World :=
  {| redis := redis w; sockets := sockets w; io_ready := io_ready w;
     outbox := outbox w; console_error := f (console_error w); now := now w;
     random := random w; broker := broker w; connects := connects w;
     connection := connection w; channel := channel w; chan_log := chan_log w;
     slept := slept w; rpcs := rpcs w; exit_code := exit_code w |}.

Definition set_now (f : Z -> Z) (w : World) : World :=
  {| redis := redis w; sockets := sockets w; io_ready := io_ready w;
     outbox := outbox w; console_error := console_error w; now := f (now w);
     random := random w; broker := broker w; connects := connects w;
     connection := connection w; channel := channel w; chan_log := chan_log w;
     slept := slept w; rpcs := rpcs w; exit_code := exit_code w |}.

Definition set_random (f : list string -> list string) (w : World) : World :=
  {| redis := redis w; sockets := sockets w; io_ready := io_ready w;
     outbox := outbox w; console_error := console_error w; now := now w;
     random := f (random w); broker := broker w; connects := connects w;
     connection := connection w; channel := channel w; chan_log := chan_log w;
     slept := slept w; rpcs := rpcs w; exit_code := exit_code w |}.

Definition set_connects (f : nat -> nat) (w : World) : World :=
  {| redis := redis w; sockets := sockets w; io_ready := io_ready w;
     outbox := outbox w; console_error := console_error w; now := now w;
     random := random w; broker := broker w; connects := f (connects w);
     connection := connection w; channel := channel w; chan_log := chan_log w;
     slept := slept w; rpcs := rpcs w; exit_code := exit_code w |}.

Definition set_connection (c : option nat) (w : World) : World :=
  {| redis := redis w; sockets := sockets w; io_ready := io_ready w;
     outbox := outbox w; console_error := console_error w; now := now w;
     random := random w; broker := broker w; connects := connects w;
     connection := c; channel := channel w; chan_log := chan_log w;
     slept := slept w; rpcs := rpcs w; exit_code := exit_code w |}.

Definition set_channel (c : ChannelState) (w : World) : World :=
  {| redis := redis w; sockets := sockets w; io_ready := io_ready w;
     outbox := outbox w; console_error := console_error w; now := now w;
     random := random w; broker := broker w; connects := connects w;
     connection := connection w; channel := c; chan_log := chan_log w;
     slept := slept w; rpcs := rpcs w; exit_code := exit_code w |}.

Definition set_chan_log (f : list ChanOp -> list ChanOp) (w : World) : World :=
  {| redis := redis w; sockets := sockets w; io_ready := io_ready w;
     outbox := outbox w; console_error := console_error w; now := now w;
     random := random w; broker := broker w; connects := connects w;
     connection := connection w; channel := channel w; chan_log := f (chan_log w);
     slept := slept w; rpcs := rpcs w; exit_code := exit_code w |}.

Definition set_slept (f : list Z -> list Z) (w : World) : World :=
  {| redis := redis w; sockets := sockets w; io_ready := io_ready w;
     outbox := outbox w; console_error := console_error w; now := now w;
     random := random w; broker := broker w; connects := connects w;
     connection := connection w; channel := channel w; chan_log := chan_log w;
     slept := f (slept w); rpcs := rpcs w; exit_code := exit_code w |}.

Definition set_rpcs (f : list Rpc -> list Rpc) (w : World) : World :=
  {| redis := redis w; sockets := sockets w; io_ready := io_ready w;
     outbox := outbox w; console_error := console_error w; now := now w;
     random := random w; broker := broker w; connects := connects w;
     connection := connection w; channel := channel w; chan_log := chan_log w;
     slept := slept w; rpcs := f (rpcs w); exit_code := exit_code w |}.

Definition set_exit_code (f : option Z -> option Z) (w : World) : World :=
  {| redis := redis w; sockets := sockets w; io_ready := io_ready w;
     outbox := outbox w; console_error := console_error w; now := now w;
     random := random w; broker := broker w; connects := connects w;
     connection := connection w; channel := channel w; chan_log := chan_log w;
     slept := slept w; rpcs := rpcs w; exit_code := f (exit_code w) |}.

(* ===================================================================== *)
(** ** Computations: state and exceptions                                 *)
(* ===================================================================== *)

(** A computation over a state [S] that may throw. *)
Definition ST (S A : Type) : Type := S -> S * result A.

(** Handlers and client methods run over the [World]. *)
Definition M (A : Type) : Type := ST World A.

Definition ret {S A} (a : A) : ST S A := fun w => (w, Ok a).

Definition throw {S A} (e : exn) : ST S A := fun w => (w, Throw e).

Definition bind {S A B} (c : ST S A) (k : A -> ST S B) : ST S B :=
  fun w =>
    match c w with
    | (w', Ok a) => k a w'
    | (w', Throw e) => (w', Throw e)
    end.

(** [try { body } catch (error) { handler }]: what the body did before it
    threw stays done. *)
Definition try_catch {S A} (body : ST S A) (handler : exn -> ST S A) : ST S A :=
  fun w =>
    match body w with
    | (w', Ok a) => (w', Ok a)
    | (w', Throw e) => handler e w'
    end.

Definition lift {S A} (r : result A) : ST S A := fun w => (w, r).

Definition modify {S} (f : S -> S) : ST S unit := fun w => (f w, Ok tt).

Definition gets {S A} (f : S -> A) : ST S A := fun w => (w, Ok (f w)).

Declare Scope js_scope.
Delimit Scope js_scope with js.
Notation "x <- c ;; k" := (bind c (fun x => k))
  (at level 100, c at next level, right associativity) : js_scope.
Notation "c ;;; k" := (bind c (fun _ => k))
  (at level 100, right associativity) : js_scope.
Local Open Scope js_scope.

Definition exec {S A} (c : ST S A) (w : S) : S := fst (c w).
Definition eval {S A} (c : ST S A) (w : S) : result A := snd (c w).

(** [xs.map(f)] where [f] may throw: the first failure aborts the map. *)
Fixpoint map_result {A B} (f : A -> result B) (xs : list A) : result (list B) :=
  match xs with
  | [] => Ok []
  | x :: rest =>
      match f x with
      | Throw e => Throw e
      | Ok y =>
          match map_result f rest with
          | Throw e => Throw e
          | Ok ys => Ok (y :: ys)
          end
      end
  end.

Definition console_error_ (line : string) : M unit :=
  modify (set_console_error (fun l => l ++ [line])).

(** The process ends with [code]; a process ends once. *)
Definition process_exit (code : Z) : M unit :=
  modify (set_exit_code (fun ended =>
    match ended with
    | Some _ => ended
    | None => Some code
    end)).

(** A promise is rejected and nothing awaits it or catches the rejection.
    Node (from version 15; the image of the service runs 18) raises the
    rejection as an uncaught exception, and the process ends with code 1. *)
Definition unhandledRejection (error : exn) : M unit :=
  process_exit 1.

Definition Date_now : M Z := gets now.

Definition Math_random : M string :=
  fun w =>
    match random w with
    | [] => (w, Ok "0.5")
    | r :: rest => (set_random (fun _ => rest) w, Ok r)
    end.

(* ===================================================================== *)
(** ** RedisSingleton.js: RedisChatClient                                 *)
(* ===================================================================== *)

Module RedisSingleton.

Definition messages_key (roomCode : string) : string :=
  "chat:room:" +:+ roomCode +:+ ":messages".

Definition users_key (roomCode : string) : string :=
  "chat:room:" +:+ roomCode +:+ ":users".

Definition storeChatMessage (roomCode : string) (message : jsval) : M unit :=
  let key := messages_key roomCode in
  modify (set_redis (Redis.lPush key (JSON_stringify message))) ;;;
  modify (set_redis (Redis.lTrim key 0 99)).

Definition getChatHistory (roomCode : string) : M (list jsval) :=
  let key := messages_key roomCode in
  chatHistory <- gets (fun w => Redis.lRange key 0 (-1) (redis w)) ;;
  parsed <- lift (map_result JSON_parse chatHistory) ;;
  ret (reverse parsed).

Definition addUserToRoom (roomCode userId : string) (userData : jsval) : M unit :=
  let key := users_key roomCode in
  modify (set_redis (Redis.hSet key userId (JSON_stringify userData))).

Definition removeUserFromRoom (roomCode userId : string) : M unit :=
  let key := users_key roomCode in
  modify (set_redis (Redis.hDel key userId)).

(** The result is the object [parsedUsers], as the map of its own
    properties. *)
Definition getRoomUsers (roomCode : string) : M (gmap string jsval) :=
  let key := users_key roomCode in
  users <- gets (fun w => Redis.hGetAll key (redis w)) ;;
  lift (map_fold (fun userId userData acc =>
                    match acc, JSON_parse userData with
                    | Ok parsedUsers, Ok u => Ok (set_property userId u parsedUsers)
                    | Throw e, _ => Throw e
                    | _, Throw e => Throw e
                    end) (Ok ∅) users).

(** The client object as the handlers see it.  The class defines the methods
    above and the generic [get], [set], [del] and [exists]; it defines no
    [getRoomData], so that property of the object is [undefined]. *)
Record Client : Type := {
  getRoomData : option (string -> M (option text))
}.

Definition redisClient : Client := {| getRoomData := None |}.

End RedisSingleton.

(* ===================================================================== *)
(** ** SocketSingleton.js                                                 *)
(* ===================================================================== *)

Module SocketSingleton.

Definition getIO : M unit :=
  fun w =>
    if io_ready w then (w, Ok tt)
    else (w, Throw (Error "Chat Socket.io not initialized. Call setup() first.")).

(** [io.to(roomCode).emit(event, payload)] *)
Definition io_to_emit (roomCode : jsval) (ev : string) (p : jsval) : M unit :=
  modify (set_outbox (fun l => l ++ [{| target := ToRoom roomCode; event := ev; payload := p |}])).

End SocketSingleton.

(** The socket object of a connection; one that no handler has touched yet
    has none of the properties. *)
Definition socket_of (id : string) (w : World) : Socket :=
  default fresh_socket (sockets w !! id).

Definition update_socket (id : string) (f : Socket -> Socket) : M unit :=
  modify (fun w => set_sockets (fun m => <[id := f (socket_of id w)]> m) w).

(** [socket.emit(event, payload)] *)
Definition socket_emit (id : string) (ev : string) (p : jsval) : M unit :=
  modify (set_outbox (fun l => l ++ [{| target := ToSocket id; event := ev; payload := p |}])).

(** [socket.to(roomCode).emit(event, payload)] *)
Definition socket_to_emit (id : string) (roomCode : jsval) (ev : string) (p : jsval) : M unit :=
  modify (set_outbox (fun l => l ++ [{| target := ToOthers roomCode id; event := ev; payload := p |}])).

(** [socket.join(room)] and [socket.leave(room)] *)
Definition socket_join (id : string) (room : string) : M unit :=
  update_socket id (fun s =>
    {| roomCode := roomCode s; userId := userId s; username := username s;
       rooms := {[ room ]} ∪ rooms s |}).

Definition socket_leave (id : string) (room : string) : M unit :=
  update_socket id (fun s =>
    {| roomCode := roomCode s; userId := userId s; username := username s;
       rooms := rooms s ∖ {[ room ]} |}).

(* ===================================================================== *)
(** ** MessageBus.js: ChatMessageBus                                      *)
(* ===================================================================== *)

Module MessageBus.

Definition exchanges_gameEvents : string := "game.events".
Definition exchanges_gameRequests : string := "game.requests".
Definition exchanges_gameResponses : string := "game.responses".
Definition queues_chatGameEvents : string := "chat.game.events".

(** *** Channel primitives *)

(** A request on the channel: it needs an open channel, and the broker may
    refuse it. *)
Definition chan (op : ChanOp) : M unit :=
  fun w =>
    match channel w with
    | ChNull => (w, Throw (TypeError "Cannot read properties of null"))
    | ChClosed => (w, Throw (TransportError "Channel closed"))
    | ChOpen =>
        if refuses (broker w) (connects w) op
        then (w, Throw (TransportError "Operation failed"))
        else (set_chan_log (fun l => l ++ [op]) w, Ok tt)
    end.

(** [ack] and [nack] only write to the channel: they fail when it is not
    open, never because of the broker. *)
Definition chan_send (op : ChanOp) : M unit :=
  fun w =>
    match channel w with
    | ChNull => (w, Throw (TypeError "Cannot read properties of null"))
    | ChClosed => (w, Throw (TransportError "Channel closed"))
    | ChOpen => (set_chan_log (fun l => l ++ [op]) w, Ok tt)
    end.

(** [this.connection = await amqp.connect(url)] *)
Definition amqp_connect : M unit :=
  fun w =>
    let n := S (connects w) in
    let w := set_connects (fun _ => n) w in
    if connect_ok (broker w) n
    then (set_connection (Some n) w, Ok tt)
    else (w, Throw (TransportError "connect ECONNREFUSED")).

(** [this.channel = await this.connection.createChannel()] *)
Definition createChannel : M unit :=
  fun w =>
    if createChannel_ok (broker w) (connects w)
    then (set_channel ChOpen w, Ok tt)
    else (w, Throw (TransportError "createChannel failed")).

(** [await new Promise(resolve => setTimeout(resolve, ms))] *)
Definition sleep (ms : Z) : M unit :=
  modify (fun w => set_slept (fun l => l ++ [ms]) (set_now (fun t => t + Z.max 0 ms) w)).

(** *** connectWithRetry *)

(** The body of the [try] block of one attempt. *)
Definition connect_once : M unit :=
  amqp_connect ;;;
  createChannel ;;;
  chan (AssertExchange exchanges_gameEvents "topic" true) ;;;
  chan (AssertExchange exchanges_gameRequests "direct" true) ;;;
  chan (AssertExchange exchanges_gameResponses "direct" true) ;;;
  chan (AssertQueue queues_chatGameEvents true false false) ;;;
  let gameEventsQueue := queues_chatGameEvents in
  chan (BindQueue gameEventsQueue exchanges_gameEvents "game.event.*") ;;;
  chan (Consume gameEventsQueue false) ;;;
  ret tt.

(** The [for] loop.  [fuel] bounds the number of iterations; [Z.to_nat
    maxRetries] is always enough, see [connect_loop_fuel]. *)
Fixpoint connect_loop (fuel : nat) (attempt maxRetries retryDelay : Z) : M unit :=
  if attempt <=? maxRetries then
    match fuel with
    | O => throw (Error "out of fuel")
    | S fuel' =>
        returned <- try_catch
          (connect_once ;;; ret true)
          (fun error =>
             console_error_ "Chat RabbitMQ connection attempt failed:" ;;;
             if attempt =? maxRetries then
               console_error_ "Failed to initialize Chat RabbitMQ message bus after all retries" ;;;
               throw error
             else
               sleep retryDelay ;;; ret false) ;;
        if returned : bool then ret tt
        else connect_loop fuel' (attempt + 1) maxRetries retryDelay
    end
  else ret tt.

Definition connectWithRetry (maxRetries retryDelay : Z) : M unit :=
  connect_loop (Z.to_nat maxRetries) 1 maxRetries retryDelay.

Definition initialize : M unit := connectWithRetry 5 5000.

(** *** handleGameEvent *)

Definition handleGameEvent (msg : Delivery) : M unit :=
  try_catch
    (event <- lift (JSON_parse (content msg)) ;;
     type <- lift (get event "type") ;;
     roomCode <- lift (get event "roomCode") ;;
     data <- lift (get event "data") ;;
     SocketSingleton.getIO ;;;
     if is_str type "game-started" then
       SocketSingleton.io_to_emit roomCode "game-mode-changed"
         (VObj [("isGameStarted", VBool true);
                ("message", VStr "Game started! Your messages will be treated as guesses.")])
     else if is_str type "game-ended" then
       SocketSingleton.io_to_emit roomCode "game-mode-changed"
         (VObj [("isGameStarted", VBool false);
                ("message", VStr "Game ended! Back to chat mode.")])
     else if is_str type "correct-guess" then
       data_message <- lift (get data "message") ;;
       if truthy data_message then
         t1 <- Date_now ;;
         data_userId <- lift (get data "userId") ;;
         t2 <- Date_now ;;
         let pointsMessage :=
           VObj [("id", VStr ("points-" +:+ pretty t1 +:+ "-" +:+ to_string data_userId));
                 ("userId", VStr "system");
                 ("username", VStr "System");
                 ("message", data_message);
                 ("timestamp", VNum t2);
                 ("type", VStr "system")] in
         SocketSingleton.io_to_emit roomCode "chat-message" pointsMessage
       else ret tt
     else if is_str type "new-round" then
       data_round <- lift (get data "round") ;;
       SocketSingleton.io_to_emit roomCode "new-round"
         (VObj [("round", data_round);
                ("message", VStr "New round started! Chat cleared.")])
     else if is_str type "game-restarted" then
       SocketSingleton.io_to_emit roomCode "game-restarted"
         (VObj [("message", VStr "Game restarted! Chat cleared.")])
     else ret tt)
    (fun error => console_error_ "Error parsing game event:").

(** The consumer installed by [connectWithRetry]. *)
Definition on_game_event (msg : option Delivery) : M unit :=
  match msg with
  | Some msg => handleGameEvent msg ;;; chan_send (Ack (deliveryTag msg))
  | None => ret tt
  end.

(** *** askGameService *)

(** What the timeout resolves the promise with. *)
Definition default_response : jsval :=
  VObj [("isGameActive", VBool false); ("isCorrect", VBool false)].

Definition timeout_ms : Z := 1000.

(** [resolve(v)]: only the first call settles the promise. *)
Definition resolve (h : nat) (v : jsval) : M unit :=
  modify (set_rpcs (fun l =>
    match l !! h with
    | Some r =>
        match settled r with
        | Some _ => l
        | None => <[h := {| requestId := requestId r; replyQueue := replyQueue r;
                            timeout := timeout r; settled := Some v |}]> l
        end
    | None => l
    end)).

(** [clearTimeout(timeout)] *)
Definition clearTimeout (h : nat) : M unit :=
  modify (set_rpcs (fun l =>
    match l !! h with
    | Some r => <[h := {| requestId := requestId r; replyQueue := replyQueue r;
                          timeout := None; settled := settled r |}]> l
    | None => l
    end)).

(** What [askGameService] hands to its caller: a value when the [catch]
    block returned, otherwise the promise it created. *)
Inductive Asked : Type :=
| Returned (v : jsval)
| Promised (h : nat).

Definition askGameService (action : string) (data : jsval) : M Asked :=
  t <- Date_now ;;
  r <- Math_random ;;
  let requestId := pretty t +:+ "-" +:+ r in
  let replyQueue := "chat.response." +:+ requestId in
  try_catch
    (* { exclusive: true, autoDelete: true }; [durable] is not given, and
       amqplib declares a queue durable unless it is told otherwise *)
    (chan (AssertQueue replyQueue true true true) ;;;
     t' <- Date_now ;;
     let request :=
       VObj [("id", VStr requestId);
             ("action", VStr action);
             ("data", data);
             ("replyTo", VStr replyQueue);
             ("timestamp", VNum t')] in
     chan (Publish exchanges_gameRequests "game.request" (JSON_stringify request) true) ;;;
     (* new Promise((resolve) => { ... }) *)
     h <- gets (fun w => length (rpcs w)) ;;
     due <- gets (fun w => now w + timeout_ms) ;;
     modify (set_rpcs (fun l => l ++ [{| requestId := requestId; replyQueue := replyQueue;
                                         timeout := Some due; settled := None |}])) ;;;
     (* nothing awaits the promise of [consume] or catches its rejection *)
     try_catch (chan (Consume replyQueue false)) unhandledRejection ;;;
     ret (Promised h))
    (fun error =>
       console_error_ "Error communicating with game service:" ;;;
       ret (Returned default_response)).

(** The consumer callback of the reply queue of promise [h]. *)
Definition on_reply (h : nat) (msg : option Delivery) : M unit :=
  match msg with
  | None => ret tt
  | Some msg =>
      requestId <- gets (fun w => default "" (requestId <$> rpcs w !! h)) ;;
      try_catch
        (response <- lift (JSON_parse (content msg)) ;;
         response_requestId <- lift (get response "requestId") ;;
         if is_str response_requestId requestId then
           clearTimeout h ;;;
           chan_send (Ack (deliveryTag msg)) ;;;
           response_data <- lift (get response "data") ;;
           resolve h response_data
         else ret tt)
        (fun error =>
           console_error_ "Error parsing game response:" ;;;
           chan_send (Nack (deliveryTag msg) false false))
  end.

(** The timer callback of promise [h]. *)
Definition on_timeout (h : nat) : M unit :=
  clearTimeout h ;;;
  resolve h default_response.

(** What happens while a caller awaits: the broker delivers to a reply
    consumer, or time passes and the timers that are due fire. *)
Inductive BusEvent : Type :=
| Deliver (h : nat) (msg : option Delivery)
| Elapse (ms : Z).

Fixpoint fire_due (handles : list nat) : M unit :=
  match handles with
  | [] => ret tt
  | h :: rest =>
      due <- gets (fun w =>
               match rpcs w !! h with
               | Some r => match timeout r with
                           | Some t => t <=? now w
                           | None => false
                           end
               | None => false
               end) ;;
      (if due : bool then on_timeout h else ret tt) ;;;
      fire_due rest
  end.

Definition bus_step (e : BusEvent) : M unit :=
  match e with
  | Deliver h msg => on_reply h msg
  | Elapse ms =>
      modify (set_now (fun t => t + Z.max 0 ms)) ;;;
      handles <- gets (fun w => seq 0 (length (rpcs w))) ;;
      fire_due handles
  end.

Fixpoint bus_run (es : list BusEvent) : M unit :=
  match es with
  | [] => ret tt
  | e :: rest => bus_step e ;;; bus_run rest
  end.

(** [await p]: the events of [during] happen while the caller is suspended;
    it resumes at the first moment the promise is settled.  [None] when the
    promise is still pending after all of [during]. *)
Fixpoint await_promise (h : nat) (during : list BusEvent) : M (option jsval) :=
  now_settled <- gets (fun w => rpcs w !! h ≫= settled) ;;
  match now_settled, during with
  | Some v, _ => ret (Some v)
  | None, [] => ret None
  | None, e :: rest => bus_step e ;;; await_promise h rest
  end.

(** A caller suspended on a promise resumes when the promise is settled,
    if the process still runs: once the process has ended nothing resumes. *)
Definition await (p : Asked) (during : list BusEvent) : M (option jsval) :=
  match p with
  | Returned v => ret (Some v)
  | Promised h =>
      ended <- gets exit_code ;;
      match ended with
      | Some _ => ret None
      | None => await_promise h during
      end
  end.

End MessageBus.

(* ===================================================================== *)
(** ** socket-handlers/ChatSocketHandler.js                               *)
(* ===================================================================== *)

(** Payloads of the client events.  The fields are strings, or missing. *)
Record JoinData : Type := {
  join_roomCode : option string;
  join_userId : option string;
  join_username : option string
}.

Record MessageData : Type := {
  data_message : option string
}.

(** [const { ... } = data]: destructuring [undefined] or [null] throws. *)
Definition destructure {S A} (data : option A) : ST S A :=
  match data with
  | Some d => ret d
  | None => throw (TypeError "Cannot destructure property of undefined")
  end.

(** A chat line as the handlers build it. *)
Definition ChatMessage (id : string) (userId username : jsval) (message : string)
    (timestamp : Z) (type : string) : jsval :=
  VObj [("id", VStr id);
        ("userId", userId);
        ("username", username);
        ("message", VStr message);
        ("timestamp", VNum timestamp);
        ("type", VStr type)].

(** [`🎉 ${username} got it! The word was "${word}" (+points incoming)`] *)
Definition celebration (username word : string) : string :=
  "🎉 " +:+ username +:+ " got it! The word was " +:+ dq +:+ word +:+ dq
  +:+ " (+points incoming)".

(** The handlers that are the same in both variants of the file. *)
Module Common.

Definition handleJoinChatRoom (socket : string) (data : option JoinData) : M unit :=
  try_catch
    (d <- destructure data ;;
     let roomCode' := join_roomCode d in
     let userId' := join_userId d in
     let username' := join_username d in
     if negb (truthy_str roomCode') || negb (truthy_str userId') then
       socket_emit socket "error" (VObj [("message", VStr "Room code and user ID required")])
     else
       (* Store socket information *)
       update_socket socket (fun s =>
         {| roomCode := roomCode'; userId := userId'; username := username';
            rooms := rooms s |}) ;;;
       socket_join socket (str roomCode') ;;;
       (* Store user in Redis *)
       t <- Date_now ;;
       RedisSingleton.addUserToRoom (str roomCode') (str userId')
         (VObj [("username", js_str username');
                ("socketId", VStr socket);
                ("joinedAt", VNum t)]) ;;;
       (* Get and send chat history *)
       messages <- RedisSingleton.getChatHistory (str roomCode') ;;
       socket_emit socket "chat-history" (VObj [("messages", VArr messages)]) ;;;
       (* Notify other users *)
       socket_to_emit socket (js_str roomCode') "user-joined-chat"
         (VObj [("userId", js_str userId'); ("username", js_str username')]))
    (fun error =>
       console_error_ "Error handling join chat room:" ;;;
       socket_emit socket "error" (VObj [("message", VStr "Failed to join chat room")])).

Definition handleLeaveChatRoom (socket : string) : M unit :=
  try_catch
    (s <- gets (socket_of socket) ;;
     if negb (truthy_str (roomCode s)) then ret tt
     else
       RedisSingleton.removeUserFromRoom (str (roomCode s)) (str (userId s)) ;;;
       socket_to_emit socket (js_str (roomCode s)) "user-left-chat"
         (VObj [("userId", js_str (userId s)); ("username", js_str (username s))]) ;;;
       socket_leave socket (str (roomCode s)))
    (fun error => console_error_ "Error handling leave chat room:").

Definition handleDisconnect (socket : string) : M unit :=
  try_catch
    (s <- gets (socket_of socket) ;;
     if truthy_str (roomCode s) && truthy_str (userId s) then
       RedisSingleton.removeUserFromRoom (str (roomCode s)) (str (userId s)) ;;;
       socket_to_emit socket (js_str (roomCode s)) "user-left-chat"
         (VObj [("userId", js_str (userId s)); ("username", js_str (username s))])
     else ret tt)
    (fun error => console_error_ "Error handling disconnect:").

End Common.

(** The file as it is under [socket-handlers/]: every message is checked
    with the game service. *)
Module ChatSocketHandler.

Definition handleJoinChatRoom := Common.handleJoinChatRoom.
Definition handleLeaveChatRoom := Common.handleLeaveChatRoom.
Definition handleDisconnect := Common.handleDisconnect.

(** [during]: what the broker and the clock do while the handler awaits the
    game service. *)
Definition handleChatMessage (socket : string) (data : option MessageData)
    (during : list MessageBus.BusEvent) : M unit :=
  try_catch
    (d <- destructure data ;;
     let message := data_message d in
     s <- gets (socket_of socket) ;;
     let roomCode := roomCode s in
     let userId := userId s in
     let username := username s in
     if negb (truthy_str roomCode) || negb (truthy_str message) then ret tt
     else
       (* Check if this is during a game (ask game service) *)
       asked <- MessageBus.askGameService "check-guess"
                  (VObj [("roomCode", js_str roomCode);
                         ("userId", js_str userId);
                         ("guess", VStr (trim (str message)))]) ;;
       awaited <- MessageBus.await asked during ;;
       match awaited with
       | None => ret tt
       | Some gameCheckResponse =>
           isCorrect <- lift (get gameCheckResponse "isCorrect") ;;
           if truthy isCorrect then
             t1 <- Date_now ;;
             t2 <- Date_now ;;
             let celebrationMessage :=
               ChatMessage ("correct-" +:+ pretty t1 +:+ "-" +:+ str userId)
                 (VStr "system") (VStr "System")
                 (celebration (str username) (trim (str message)))
                 t2 "correct-guess" in
             RedisSingleton.storeChatMessage (str roomCode) celebrationMessage ;;;
             SocketSingleton.io_to_emit (js_str roomCode) "chat-message" celebrationMessage
           else
             t1 <- Date_now ;;
             t2 <- Date_now ;;
             isGameActive <- lift (get gameCheckResponse "isGameActive") ;;
             let chatMessage :=
               ChatMessage (pretty t1 +:+ "-" +:+ str userId)
                 (js_str userId) (js_str username) (str message) t2
                 (if truthy isGameActive then "guess" else "message") in
             RedisSingleton.storeChatMessage (str roomCode) chatMessage ;;;
             SocketSingleton.io_to_emit (js_str roomCode) "chat-message" chatMessage
       end)
    (fun error => console_error_ "Error handling chat message:").

End ChatSocketHandler.

(** The other variant of the file: the game state is read from the cache. *)
Module ChatSocketHandlerCache.

Definition handleJoinChatRoom := Common.handleJoinChatRoom.
Definition handleLeaveChatRoom := Common.handleLeaveChatRoom.
Definition handleDisconnect := Common.handleDisconnect.

(** The [let] variables of [handleChatMessage]. *)
Record Locals : Type := {
  isGameActive : bool;
  isCorrect : bool;
  currentWord : jsval
}.

Definition initial : Locals :=
  {| isGameActive := false; isCorrect := false; currentWord := VNull |}.

(** [redisClient.getRoomData(roomCode)] *)
Definition call_getRoomData (client : RedisSingleton.Client) (roomCode : string)
    : M (option text) :=
  match RedisSingleton.getRoomData client with
  | Some method => method roomCode
  | None => throw (TypeError "redisClient.getRoomData is not a function")
  end.

(** [if (roomData)]: [null] and the empty string are falsy. *)
Definition present (roomData : option text) : bool :=
  match roomData with
  | None => false
  | Some (NotJson raw) => negb (String.eqb raw "")
  | Some (Json _) => true
  end.

(** The rest of the inner [try] block, after the room data was fetched:
    it assigns the locals as it goes, so what was assigned before a throw
    stays assigned. *)
Definition inspect (roomData : option text) (userId : option string)
    (message : string) : ST Locals unit :=
  if present roomData then
    room <- lift (JSON_parse (default (NotJson "") roomData)) ;;
    gameStarted <- lift (get room "gameStarted") ;;
    gamePhase <- lift (get room "gamePhase") ;;
    let active := truthy gameStarted && is_str gamePhase "drawing" in
    modify (fun l => {| isGameActive := active; isCorrect := isCorrect l;
                        currentWord := currentWord l |}) ;;;
    currentDrawer <- lift (get room "currentDrawer") ;;
    room_currentWord <- lift (get room "currentWord") ;;
    if active && negb (strict_eq_str currentDrawer userId) && truthy room_currentWord then
      (* Check if guess is correct *)
      lowered <- lift (call_toLowerCase room_currentWord) ;;
      modify (fun l => {| isGameActive := isGameActive l;
                          isCorrect := String.eqb (trim (toLowerCase message)) lowered;
                          currentWord := currentWord l |}) ;;;
      modify (fun l => {| isGameActive := isGameActive l; isCorrect := isCorrect l;
                          currentWord := room_currentWord |})
    else ret tt
  else ret tt.

(** The inner [try ... catch]: a failed lookup leaves the locals as they
    were initialised, and the message is treated as a regular one. *)
Definition check_game_state (client : RedisSingleton.Client) (roomCode : string)
    (userId : option string) (message : string) : M Locals :=
  try_catch
    (roomData <- call_getRoomData client roomCode ;;
     ret (exec (inspect roomData userId message) initial))
    (fun error => ret initial).

Definition handleChatMessage (client : RedisSingleton.Client) (socket : string)
    (data : option MessageData) : M unit :=
  try_catch
    (d <- destructure data ;;
     let message := data_message d in
     s <- gets (socket_of socket) ;;
     let roomCode := roomCode s in
     let userId := userId s in
     let username := username s in
     if negb (truthy_str roomCode) || negb (truthy_str message) then ret tt
     else
       (* Fast check: Get game state directly from Redis *)
       locals <- check_game_state client (str roomCode) userId (str message) ;;
       if isCorrect locals && truthy (currentWord locals) then
         t1 <- Date_now ;;
         t2 <- Date_now ;;
         let celebrationMessage :=
           ChatMessage ("correct-" +:+ pretty t1 +:+ "-" +:+ str userId)
             (VStr "system") (VStr "System")
             (celebration (str username) (to_string (currentWord locals)))
             t2 "correct-guess" in
         RedisSingleton.storeChatMessage (str roomCode) celebrationMessage ;;;
         SocketSingleton.io_to_emit (js_str roomCode) "chat-message" celebrationMessage ;;;
         (* Notify game service about the correct guess (async, don't wait) *)
         _ <- MessageBus.askGameService "check-guess"
                (VObj [("roomCode", js_str roomCode);
                       ("userId", js_str userId);
                       ("guess", VStr (trim (str message)))]) ;;
         ret tt
       else
         t1 <- Date_now ;;
         t2 <- Date_now ;;
         let chatMessage :=
           ChatMessage (pretty t1 +:+ "-" +:+ str userId)
             (js_str userId) (js_str username) (str message) t2
             (if isGameActive locals then "guess" else "message") in
         RedisSingleton.storeChatMessage (str roomCode) chatMessage ;;;
         SocketSingleton.io_to_emit (js_str roomCode) "chat-message" chatMessage)
    (fun error => console_error_ "Error handling chat message:").

End ChatSocketHandlerCache.

(* ===================================================================== *)
(** ** Vocabulary of the properties                                       *)
(* ===================================================================== *)

(** A broker that accepts everything. *)
Definition willing : Broker :=
  {| connect_ok := fun _ => true;
     createChannel_ok := fun _ => true;
     refuses := fun _ _ => false |}.

(** The service after start-up: connected, nothing stored, nobody joined. *)
Definition started : World :=
  {| redis := Redis.empty; sockets := ∅; io_ready := true; outbox := [];
     console_error := []; now := 1700000000000; random := ["0.25"; "0.75"];
     broker := willing; connects := 1; connection := Some 1%nat;
     channel := ChOpen; chan_log := []; slept := []; rpcs := []; exit_code := None |}.

(** *** Chat history *)

(** The raw list of a room, newest first. *)
Definition stored (room : string) (w : World) : list text :=
  default [] (Redis.lists (redis w) !! RedisSingleton.messages_key room).

(** A sequence of [storeChatMessage] calls, possibly to several rooms. *)
Fixpoint store_all (calls : list (string * jsval)) : M unit :=
  match calls with
  | [] => ret tt
  | (room, message) :: rest =>
      RedisSingleton.storeChatMessage room message ;;; store_all rest
  end.

(** The messages of [calls] that went to [room], oldest first. *)
Fixpoint appended (room : string) (calls : list (string * jsval)) : list jsval :=
  match calls with
  | [] => []
  | (r, message) :: rest =>
      if String.eqb r room then message :: appended room rest else appended room rest
  end.

(** 101 numbered lines for room ABCD, with lines for another room between
    them. *)
Definition numbered (n : nat) : list (string * jsval) :=
  flat_map (fun i => [("ABCD", VNum (Z.of_nat i)); ("WXYZ", VStr "hello")]) (seq 0 n).

(** *** Connections *)

(** The connection has the properties that [join-chat-room] sets. *)
Definition in_room (socket : string) (w : World) : Prop :=
  truthy_str (roomCode (socket_of socket w)) = true
  /\ truthy_str (userId (socket_of socket w)) = true.

(** The departure notice of a connection, as the cleanup handlers emit it. *)
Definition departure (socket : string) (w : World) : Emit :=
  let s := socket_of socket w in
  {| target := ToOthers (js_str (roomCode s)) socket;
     event := "user-left-chat";
     payload := VObj [("userId", js_str (userId s)); ("username", js_str (username s))] |}.

Definition emitted (ev : string) (w : World) : list Emit :=
  filter (fun e => event e = ev) (outbox w).

(** What a connection gets back when its join request is incomplete. *)
Definition join_rejection (socket : string) : Emit :=
  {| target := ToSocket socket;
     event := "error";
     payload := VObj [("message", VStr "Room code and user ID required")] |}.

(** What it gets back when handling its join request threw. *)
Definition join_failure (socket : string) : Emit :=
  {| target := ToSocket socket;
     event := "error";
     payload := VObj [("message", VStr "Failed to join chat room")] |}.

(** The scenario of the guessing game: in room ABCD the word is apple and
    u1 draws; u2 (bob) is connected as s2 and has joined. *)
Definition bob_joins : JoinData :=
  {| join_roomCode := Some "ABCD"; join_userId := Some "u2"; join_username := Some "bob" |}.

Definition bob_joined : World :=
  exec (Common.handleJoinChatRoom "s2" (Some bob_joins)) started.

Definition guess : MessageData := {| data_message := Some "  ApPle " |}.

Definition room_ABCD : jsval :=
  VObj [("gameStarted", VBool true);
        ("gamePhase", VStr "drawing");
        ("currentDrawer", VStr "u1");
        ("currentWord", VStr "apple")].

(** The chat line of a message that was not recognised as a correct guess. *)
Definition plain_line (socket : string) (message : string) (type : string) (w : World) : jsval :=
  let s := socket_of socket w in
  ChatMessage (pretty (now w) +:+ "-" +:+ str (userId s))
    (js_str (userId s)) (js_str (username s)) message (now w) type.

(** Store a line and broadcast it to the room of the connection. *)
Definition relay (socket : string) (line : jsval) : M unit :=
  s <- gets (socket_of socket) ;;
  RedisSingleton.storeChatMessage (str (roomCode s)) line ;;;
  SocketSingleton.io_to_emit (js_str (roomCode s)) "chat-message" line.

(** The game service answers request 1700000000000-0.25: the guess is right. *)
Definition says_correct : Delivery :=
  {| deliveryTag := 1;
     content := Json (VObj [("requestId", VStr "1700000000000-0.25");
                            ("data", VObj [("isGameActive", VBool true);
                                           ("isCorrect", VBool true)])]) |}.

(** *** Frames and totality *)

(** A computation that leaves the chat side of the world alone: it emits
    nothing, stores nothing, and changes no connection. *)
Definition silent {A} (c : M A) : Prop :=
  forall w, outbox (exec c w) = outbox w /\ redis (exec c w) = redis w
            /\ sockets (exec c w) = sockets w.

(** A computation that always returns. *)
Definition total {A} (c : M A) : Prop :=
  forall w, exists a, eval c w = Ok a.

(** *** The broker connection *)

(** What a successful attempt declares, in order: the topic exchange, the
    two direct exchanges, the queue, its binding, and the consumer. *)
Definition topology : list ChanOp :=
  [AssertExchange "game.events" "topic" true;
   AssertExchange "game.requests" "direct" true;
   AssertExchange "game.responses" "direct" true;
   AssertQueue "chat.game.events" true false false;
   BindQueue "chat.game.events" "game.events" "game.event.*";
   Consume "chat.game.events" false].

(** Whether the attempt on the n-th connection goes through. *)
Definition attempt_succeeds (b : Broker) (n : nat) : bool :=
  connect_ok b n && createChannel_ok b n
  && forallb (fun op => negb (refuses b n op)) topology.

(** The error a failing attempt on the n-th connection throws. *)
Definition attempt_error (b : Broker) (n : nat) : exn :=
  if negb (connect_ok b n) then TransportError "connect ECONNREFUSED"
  else if negb (createChannel_ok b n) then TransportError "createChannel failed"
  else TransportError "Operation failed".

(** How many of the next [n] attempts fail before the first that succeeds,
    when [c] connections were made before. *)
Fixpoint failures (b : Broker) (c n : nat) : nat :=
  match n with
  | O => O
  | S n' => if attempt_succeeds b (S c) then O else S (failures b (S c) n')
  end.

(** A broker that is down for the first two connections. *)
Definition down_twice : Broker :=
  {| connect_ok := fun n => (2 <? n)%nat;
     createChannel_ok := fun _ => true;
     refuses := fun _ _ => false |}.

(** A broker that stays down. *)
Definition down : Broker :=
  {| connect_ok := fun _ => false;
     createChannel_ok := fun _ => true;
     refuses := fun _ _ => false |}.

(** The world before the message bus is initialised. *)
Definition booting (b : Broker) : World :=
  {| redis := Redis.empty; sockets := ∅; io_ready := false; outbox := [];
     console_error := []; now := 1700000000000; random := [];
     broker := b; connects := 0; connection := None;
     channel := ChNull; chan_log := []; slept := []; rpcs := []; exit_code := None |}.

(** The world after an attempt that goes through. *)
Definition connected (w : World) : World :=
  set_chan_log (fun l => l ++ topology)
    (set_channel ChOpen
       (set_connection (Some (S (connects w)))
          (set_connects (fun _ => S (connects w)) w))).


(** *** Request and reply *)

(** The correlation id the next call of [askGameService] will use, its
    reply queue and its request. *)
Definition next_requestId (w : World) : string :=
  pretty (now w) +:+ "-" +:+ hd "0.5" (random w).

Definition next_replyQueue (w : World) : string :=
  "chat.response." +:+ next_requestId w.

Definition next_request (action : string) (data : jsval) (w : World) : jsval :=
  VObj [("id", VStr (next_requestId w));
        ("action", VStr action);
        ("data", data);
        ("replyTo", VStr (next_replyQueue w));
        ("timestamp", VNum (now w))].

(** The consumer the next call of [askGameService] asks the broker for. *)
Definition next_consume (w : World) : ChanOp :=
  Consume (next_replyQueue w) false.

(** The process runs, and the broker will accept that consumer. *)
Definition listening (w : World) : bool :=
  match exit_code w with
  | None => negb (refuses (broker w) (connects w) (next_consume w))
  | Some _ => false
  end.

(** A broker that refuses the consumers of the reply queues, and the
    service connected to it. *)
Definition deaf : Broker :=
  {| connect_ok := fun _ => true;
     createChannel_ok := fun _ => true;
     refuses := fun _ op =>
       match op with
       | Consume queue _ => prefix "chat.response." queue
       | _ => false
       end |}.

Definition unheard : World :=
  {| redis := Redis.empty; sockets := ∅; io_ready := true; outbox := [];
     console_error := []; now := 1700000000000; random := ["0.25"; "0.75"];
     broker := deaf; connects := 1; connection := Some 1%nat;
     channel := ChOpen; chan_log := []; slept := []; rpcs := []; exit_code := None |}.

(** The value promise [h] was resolved with, if it was. *)
Definition outcome (h : nat) (w : World) : option jsval :=
  rpcs w !! h ≫= settled.

(** The correlation id of promise [h]. *)
Definition rid_of (h : nat) (w : World) : string :=
  default "" (requestId <$> rpcs w !! h).

(** The reply parses and carries the correlation id [rid]. *)
Definition matches (rid : string) (msg : Delivery) : bool :=
  match JSON_parse (content msg) with
  | Ok response =>
      match get response "requestId" with
      | Ok v => is_str v rid
      | Throw _ => false
      end
  | Throw _ => false
  end.

(** The [data] of a reply. *)
Definition reply_data (msg : Delivery) : jsval :=
  match JSON_parse (content msg) with
  | Ok response =>
      match get response "data" with
      | Ok v => v
      | Throw _ => VUndefined
      end
  | Throw _ => VUndefined
  end.

(** The event is a reply to promise [h] with the correlation id [rid]. *)
Definition answers (h : nat) (rid : string) (e : MessageBus.BusEvent) : bool :=
  match e with
  | MessageBus.Deliver h' (Some msg) => Nat.eqb h' h && matches rid msg
  | _ => false
  end.

(** The time that passes during a list of events. *)
Fixpoint elapsed (es : list MessageBus.BusEvent) : Z :=
  match es with
  | [] => 0
  | MessageBus.Elapse ms :: rest => Z.max 0 ms + elapsed rest
  | _ :: rest => elapsed rest
  end.

(** What [resolve] and [clearTimeout] do to one promise. *)
Definition settle (v : jsval) (r : Rpc) : Rpc :=
  match settled r with
  | Some _ => r
  | None => {| requestId := requestId r; replyQueue := replyQueue r;
               timeout := timeout r; settled := Some v |}
  end.

Definition disarm (r : Rpc) : Rpc :=
  {| requestId := requestId r; replyQueue := replyQueue r;
     timeout := None; settled := settled r |}.

(** What a clock reading of [t] does to one promise. *)
Definition fired (t : Z) (r : Rpc) : Rpc :=
  match timeout r with
  | Some due => if due <=? t then settle MessageBus.default_response (disarm r) else r
  | None => r
  end.

(** A reply with another correlation id, and one that is not JSON. *)
Definition stray : Delivery :=
  {| deliveryTag := 7;
     content := Json (VObj [("requestId", VStr "1699999999999-0.99");
                            ("data", VObj [("isGameActive", VBool true);
                                           ("isCorrect", VBool true)])]) |}.

Definition garbled : Delivery :=
  {| deliveryTag := 8; content := NotJson "{oops" |}.

(** The world while one [check-guess] request is pending. *)
Definition asking : World :=
  exec (MessageBus.askGameService "check-guess" (VObj [("guess", VStr "apple")])) started.


(** What one event does to promise [h], when the clock shows [t] before it. *)
Definition after_event (e : MessageBus.BusEvent) (h : nat) (t : Z) (r : Rpc) : Rpc :=
  match e with
  | MessageBus.Deliver h' (Some msg) =>
      if Nat.eqb h' h && matches (requestId r) msg
      then settle (reply_data msg) (disarm r)
      else r
  | MessageBus.Deliver _ None => r
  | MessageBus.Elapse ms => fired (t + Z.max 0 ms) r
  end.

Definition duration (e : MessageBus.BusEvent) : Z :=
  match e with
  | MessageBus.Elapse ms => Z.max 0 ms
  | _ => 0
  end.

Fixpoint after_events (es : list MessageBus.BusEvent) (h : nat) (t : Z) (r : Rpc) : Rpc :=
  match es with
  | [] => r
  | e :: rest => after_events rest h (t + duration e) (after_event e h t r)
  end.

(** *** Game events *)

(** The notice that a new round has started. *)
Definition new_round_notice (room round : jsval) : Emit :=
  {| target := ToRoom room;
     event := "new-round";
     payload := VObj [("round", round);
                      ("message", VStr "New round started! Chat cleared.")] |}.

(** The envelope of the third round in room ABCD, as the broker delivers it. *)
Definition round_three : Delivery :=
  {| deliveryTag := 3;
     content := Json (VObj [("type", VStr "new-round");
                            ("roomCode", VStr "ABCD");
                            ("data", VObj [("round", VNum 3)])]) |}.

(* ===================================================================== *)
(** ** Vocabulary of the further properties                               *)
(* ===================================================================== *)

(** *** Membership *)

(** The raw membership hash of a room. *)
Definition members (room : string) (w : World) : gmap string text :=
  Redis.hGetAll (RedisSingleton.users_key room) (redis w).

(** The record [join-chat-room] writes for a member. *)
Definition member_record (username : option string) (socket : string) (joinedAt : Z) : jsval :=
  VObj [("username", js_str username); ("socketId", VStr socket); ("joinedAt", VNum joinedAt)].

(** What [getRoomUsers] makes of a raw hash. *)
Definition parse_members (h : gmap string text) : result (gmap string jsval) :=
  map_fold (fun userId userData acc =>
              match acc, JSON_parse userData with
              | Ok parsedUsers, Ok u => Ok (set_property userId u parsedUsers)
              | Throw e, _ => Throw e
              | _, Throw e => Throw e
              end) (Ok ∅) h.

(** *** Joining *)

(** The first half of a successful [join-chat-room]: the properties are set
    on the socket, the socket is subscribed to the room and the member is
    written to the cache.  Nothing has been emitted yet. *)
Definition admitted (socket : string) (d : JoinData) (w : World) : World :=
  exec (update_socket socket (fun s =>
          {| roomCode := join_roomCode d; userId := join_userId d;
             username := join_username d; rooms := rooms s |}) ;;;
        socket_join socket (str (join_roomCode d)) ;;;
        RedisSingleton.addUserToRoom (str (join_roomCode d)) (str (join_userId d))
          (member_record (join_username d) socket (now w))) w.

Definition history_event (socket : string) (messages : list jsval) : Emit :=
  {| target := ToSocket socket;
     event := "chat-history";
     payload := VObj [("messages", VArr messages)] |}.

Definition arrival (socket : string) (d : JoinData) : Emit :=
  {| target := ToOthers (js_str (join_roomCode d)) socket;
     event := "user-joined-chat";
     payload := VObj [("userId", js_str (join_userId d));
                      ("username", js_str (join_username d))] |}.

(** Alice connects as s1 and joins room ABCD as u2 as well. *)
Definition alice_joins : JoinData :=
  {| join_roomCode := Some "ABCD"; join_userId := Some "u2"; join_username := Some "alice" |}.

(** A world where the history of room ABCD holds an entry that is not JSON. *)
Definition corrupted : World :=
  set_redis (Redis.lPush (RedisSingleton.messages_key "ABCD") (NotJson "{oops")) started.

(** *** Client events *)

(** What a connected client can make happen: the events
    [setupSocketEvents] registers a listener for.  A chat message comes
    with what the broker and the clock do while its handler waits. *)
Inductive ClientEvent : Type :=
| OnJoinChatRoom (data : option JoinData)
| OnChatMessage (data : option MessageData) (during : list MessageBus.BusEvent)
| OnLeaveChatRoom
| OnDisconnect
| OnError.

(** The listeners of one connection.  The two variants of the file differ
    in [handleChatMessage] only. *)
Definition setupSocketEvents
    (handleChatMessage : string -> option MessageData -> list MessageBus.BusEvent -> M unit)
    (socket : string) (e : ClientEvent) : M unit :=
  match e with
  | OnJoinChatRoom data => Common.handleJoinChatRoom socket data
  | OnChatMessage data during => handleChatMessage socket data during
  | OnLeaveChatRoom => Common.handleLeaveChatRoom socket
  | OnDisconnect => Common.handleDisconnect socket
  | OnError => console_error_ ("💥 Chat socket error for " +:+ socket +:+ ":")
  end.

Definition asking_variant : string -> ClientEvent -> M unit :=
  setupSocketEvents ChatSocketHandler.handleChatMessage.

Definition caching_variant : string -> ClientEvent -> M unit :=
  setupSocketEvents (fun socket data _ =>
    ChatSocketHandlerCache.handleChatMessage RedisSingleton.redisClient socket data).

(** The service handling the events of its clients one after the other,
    for as long as the process runs. *)
Fixpoint serve (listeners : string -> ClientEvent -> M unit)
    (events : list (string * ClientEvent)) : M unit :=
  match events with
  | [] => ret tt
  | (socket, e) :: rest =>
      ended <- gets exit_code ;;
      match ended with
      | Some _ => ret tt
      | None => listeners socket e ;;; serve listeners rest
      end
  end.

(** What the handlers keep true of the world: a socket has a room code
    exactly when it has a user id, and no list in the cache has more than
    100 entries. *)
Definition sound (w : World) : Prop :=
  (forall id s, sockets w !! id = Some s ->
     truthy_str (roomCode s) = truthy_str (userId s))
  /\ (forall key l, Redis.lists (redis w) !! key = Some l -> (length l <= 100)%nat).

(** A computation that keeps a property of the world. *)
Definition preserves {A} (P : World -> Prop) (c : M A) : Prop :=
  forall w, P w -> P (exec c w).

(** A visit: join, talk, leave, close the tab. *)
Definition visit : list (string * ClientEvent) :=
  [("s2", OnJoinChatRoom (Some bob_joins));
   ("s2", OnChatMessage (Some guess) [MessageBus.Elapse 1000]);
   ("s2", OnLeaveChatRoom);
   ("s2", OnChatMessage (Some {| data_message := Some "bye" |}) [MessageBus.Elapse 1000]);
   ("s2", OnDisconnect)].

(** *** Chat lines *)

(** The line of a message as typed, posted at time [t]. *)
Definition posted (socket : string) (message type : string) (t : Z) (w : World) : jsval :=
  let s := socket_of socket w in
  ChatMessage (pretty t +:+ "-" +:+ str (userId s))
    (js_str (userId s)) (js_str (username s)) message t type.

(** The celebration of a guess [message], posted at time [t] by the handler
    that asks the game service. *)
Definition praised (socket : string) (message : string) (t : Z) (w : World) : jsval :=
  let s := socket_of socket w in
  ChatMessage ("correct-" +:+ pretty t +:+ "-" +:+ str (userId s))
    (VStr "system") (VStr "System")
    (celebration (str (username s)) (trim message)) t "correct-guess".

(** The chat message event that carries a line to the room of a connection. *)
Definition chat_event (socket : string) (line : jsval) (w : World) : Emit :=
  {| target := ToRoom (js_str (roomCode (socket_of socket w)));
     event := "chat-message";
     payload := line |}.

(** Between [w] and [w'] exactly one line was relayed for the connection:
    it was put in front of the stored history of its room and emitted to
    the room; no connection and no membership changed. *)
Definition relayed (socket : string) (line : jsval) (w w' : World) : Prop :=
  outbox w' = outbox w ++ [chat_event socket line w]
  /\ (let room := str (roomCode (socket_of socket w)) in
      stored room w' = take 100 (Json line :: stored room w))
  /\ sockets w' = sockets w
  /\ Redis.hashes (redis w') = Redis.hashes (redis w).

(** How the handler reads the answer of the game service. *)
Inductive Verdict : Type :=
| Unusable
| Correct
| Wrong (isGameActive : bool).

Definition verdict (gameCheckResponse : jsval) : Verdict :=
  match get gameCheckResponse "isCorrect" with
  | Throw _ => Unusable
  | Ok isCorrect =>
      if truthy isCorrect then Correct
      else match get gameCheckResponse "isGameActive" with
           | Ok isGameActive => Wrong (truthy isGameActive)
           | Throw _ => Unusable
           end
  end.

(** The set-up of the next [askGameService] goes through: the channel is
    open and the broker accepts the reply queue and the request. *)
Definition goes_through (action : string) (data : jsval) (w : World) : bool :=
  match channel w with ChOpen => true | _ => false end
  && negb (refuses (broker w) (connects w) (AssertQueue (next_replyQueue w) true true true))
  && negb (refuses (broker w) (connects w)
             (Publish "game.requests" "game.request" (Json (next_request action data w)) true)).

(** The question the handler asks about a message of a connection. *)
Definition check_guess (socket : string) (message : string) (w : World) : jsval :=
  let s := socket_of socket w in
  VObj [("roomCode", js_str (roomCode s));
        ("userId", js_str (userId s));
        ("guess", VStr (trim message))].

(** No event of the list is a reply to promise [h] under the id [rid]. *)
Definition unanswered (h : nat) (rid : string) (es : list MessageBus.BusEvent) : Prop :=
  forall e, e ∈ es -> answers h rid e = false.

(** A reply to request 1700000000000-0.25 with the given data, or none. *)
Definition reply_with (fields : list (string * jsval)) : Delivery :=
  {| deliveryTag := 5;
     content := Json (VObj (("requestId", VStr "1700000000000-0.25") :: fields)) |}.

(** Bob's connection when the channel to the broker has been closed. *)
Definition cut_off : World := set_channel ChClosed bob_joined.

(** Half a second passes, a reply to another request and an unreadable one
    arrive, and another second passes. *)
Definition no_answer : list MessageBus.BusEvent :=
  [MessageBus.Elapse 500; MessageBus.Deliver 0 (Some stray);
   MessageBus.Deliver 0 (Some garbled); MessageBus.Elapse 1000].

(** Bob's payload. *)
Definition says (message : string) : option MessageData :=
  Some {| data_message := Some message |}.

(** The game service answers after 300 ms, behind a reply to another
    request; more replies and time follow. *)
Definition answered_with (fields : list (string * jsval)) : list MessageBus.BusEvent :=
  [MessageBus.Elapse 300; MessageBus.Deliver 0 (Some stray)]
  ++ MessageBus.Deliver 0 (Some (reply_with fields))
     :: [MessageBus.Deliver 0 (Some says_correct); MessageBus.Elapse 2000].

(** *** Who a connection is *)

(** What a join writes on the socket object. *)
Definition identity (id : string) (w : World) : option string * option string * option string :=
  let s := socket_of id w in (roomCode s, userId s, username s).

Definition is_join (e : ClientEvent) : bool :=
  match e with
  | OnJoinChatRoom _ => true
  | _ => false
  end.

(** No event of the list is a join request of connection [id]. *)
Definition no_join_of (id : string) (events : list (string * ClientEvent)) : Prop :=
  forall socket e, (socket, e) ∈ events -> socket <> id \/ is_join e = false.

(** What happens on Bob's connection after he joined, and Alice joining. *)
Definition after_joining : list (string * ClientEvent) :=
  [("s2", OnChatMessage (Some guess) [MessageBus.Elapse 1000]);
   ("s2", OnLeaveChatRoom);
   ("s1", OnJoinChatRoom (Some alice_joins));
   ("s2", OnChatMessage (says "bye") [MessageBus.Elapse 1000]);
   ("s2", OnDisconnect)].

(** *** Game events *)

(** The room an envelope is addressed to. *)
Definition envelope_room (msg : Delivery) : jsval :=
  match JSON_parse (content msg) with
  | Ok event =>
      match get event "roomCode" with
      | Ok roomCode => roomCode
      | Throw _ => VUndefined
      end
  | Throw _ => VUndefined
  end.

(** An envelope as the game service publishes it. *)
Definition envelope (tag : nat) (fields : list (string * jsval)) : Delivery :=
  {| deliveryTag := tag; content := Json (VObj fields) |}.

(** The notices of the game mode. *)
Definition mode_notice (room : jsval) (isGameStarted : bool) : Emit :=
  {| target := ToRoom room;
     event := "game-mode-changed";
     payload :=
       VObj [("isGameStarted", VBool isGameStarted);
             ("message",
              VStr (if isGameStarted
                    then "Game started! Your messages will be treated as guesses."
                    else "Game ended! Back to chat mode."))] |}.

Definition restart_notice (room : jsval) : Emit :=
  {| target := ToRoom room;
     event := "game-restarted";
     payload := VObj [("message", VStr "Game restarted! Chat cleared.")] |}.

(** The line that tells the room about the points of a correct guess. *)
Definition points_notice (room message userId : jsval) (t : Z) : Emit :=
  {| target := ToRoom room;
     event := "chat-message";
     payload :=
       VObj [("id", VStr ("points-" +:+ pretty t +:+ "-" +:+ to_string userId));
             ("userId", VStr "system");
             ("username", VStr "System");
             ("message", message);
             ("timestamp", VNum t);
             ("type", VStr "system")] |}.

(** The error [handleGameEvent] logs. *)
Definition game_event_error (w : World) : World :=
  set_console_error (fun l => l ++ ["Error parsing game event:"]) w.

(** The service before [setup] gave it a Socket.IO server. *)
Definition before_setup : World :=
  {| redis := Redis.empty; sockets := ∅; io_ready := false; outbox := [];
     console_error := []; now := 1700000000000; random := ["0.25"; "0.75"];
     broker := willing; connects := 1; connection := Some 1%nat;
     channel := ChOpen; chan_log := []; slept := []; rpcs := []; exit_code := None |}.

(** Envelopes without data, and the points of a guess in room ABCD. *)
Definition bare (type : string) : Delivery :=
  envelope 4 [("type", VStr type); ("roomCode", VStr "ABCD")].

Definition points_of_bob : Delivery :=
  envelope 6 [("type", VStr "correct-guess"); ("roomCode", VStr "ABCD");
              ("data", VObj [("userId", VStr "u2");
                             ("message", VStr "bob guessed the word! +80 points")])].

(** *** Start-up *)

(** The time the service has spent sleeping. *)
Definition time_slept (w : World) : Z :=
  foldr (fun ms total => Z.max 0 ms + total) 0 (slept w).

(* ===================================================================== *)
(** ** SocketSingleton.js: setup                                          *)
(* ===================================================================== *)

Definition set_io_ready (b : bool) (w : World) : World :=
  {| redis := redis w; sockets := sockets w; io_ready := b; outbox := outbox w;
     console_error := console_error w; now := now w; random := random w;
     broker := broker w; connects := connects w; connection := connection w;
     channel := channel w; chan_log := chan_log w; slept := slept w; rpcs := rpcs w;
     exit_code := exit_code w |}.

Module SocketServer.

(** [setup(server)]: a second call keeps the server of the first. *)
Definition setup : M unit :=
  io <- gets io_ready ;;
  if io : bool then ret tt
  else modify (set_io_ready true).

End SocketServer.

(* ===================================================================== *)
(** ** index.js                                                           *)
(* ===================================================================== *)

Module Index.

(** How a call of [redisClient.connect()] stands.  The ioredis client
    connects by itself, and the call only returns it.  The node-redis client
    connects in the call: the promise is fulfilled, or rejected, or -- while
    Redis is away and the client keeps trying -- neither. *)
Inductive Connecting : Type :=
| Connected
| Rejected (error : exn)
| StillConnecting.

(** [await redisClient.connect()]: [None] when the promise is not settled;
    what awaits it has not been resumed. *)
Definition redisClient_connect (attempt : Connecting) : M (option unit) :=
  match attempt with
  | Connected => ret (Some tt)
  | Rejected error => throw error
  | StillConnecting => ret None
  end.

(** [chatSocketHandler.initialize()]: it takes the server from the
    singleton and registers its listeners. *)
Definition chatSocketHandler_initialize : M unit :=
  SocketSingleton.getIO.

(** How a call of [initializeServices()] stands: it has returned, it has
    ended the process, or it awaits the connection to Redis. *)
Inductive Startup : Type :=
| Ready
| Exited
| Waiting.

Definition initializeServices (attempt : Connecting) : M Startup :=
  try_catch
    ((* 1. Connect to Redis *)
     connected <- redisClient_connect attempt ;;
     match connected with
     | None => ret Waiting
     | Some _ =>
         (* 2. Initialize RabbitMQ Message Bus *)
         MessageBus.initialize ;;;
         (* 3. Setup Socket.IO *)
         SocketServer.setup ;;;
         (* 4. Initialize Chat Socket Handler *)
         chatSocketHandler_initialize ;;;
         ret Ready
     end)
    (fun error =>
       console_error_ "❌ Failed to initialize Chat Service:" ;;;
       process_exit 1 ;;;
       ret Exited).

End Index.

(** The catch block of [initializeServices]. *)
Definition failed_to_initialize (w : World) : World :=
  exec (console_error_ "❌ Failed to initialize Chat Service:" ;;; process_exit 1) w.


(** *** Replies *)

(** The reply cannot be read: it is not JSON, or it is [null]. *)
Definition unreadable (msg : Delivery) : Prop :=
  match JSON_parse (content msg) with
  | Ok response => exists e, get response "requestId" = Throw e
  | Throw _ => True
  end.

(** What the next [askGameService] sends over the channel when its set-up
    goes through: the declaration of the reply queue, the request, and the
    consumer of the reply queue unless the broker refuses it. *)
Definition request_trace (action : string) (data : jsval) (w : World) : list ChanOp :=
  [AssertQueue (next_replyQueue w) true true true;
   Publish "game.requests" "game.request" (Json (next_request action data w)) true]
  ++ (if refuses (broker w) (connects w) (next_consume w) then [] else [next_consume w]).

(** The reply "null". *)
Definition null_reply : Delivery := {| deliveryTag := 9; content := Json VNull |}.

(** The word of the round, as the data of a room names it. *)
Definition room_word (roomData : option text) : string :=
  match roomData with
  | Some (Json (VObj fields)) =>
      match assoc "currentWord" fields with
      | VStr word => word
      | _ => ""
      end
  | _ => ""
  end.

(** *** Two connections of one user *)

(** Bob has joined room ABCD on s2, and again, as the same user, on s1. *)
Definition two_tabs : World :=
  exec (Common.handleJoinChatRoom "s1" (Some bob_joins)) bob_joined.

(* ===================================================================== *)
(** * Properties                                                          *)
(* ===================================================================== *)

(** ** The model on small inputs *)

Example trim_guess : trim "  ApPle " = "ApPle".
Proof. reflexivity. Qed.

Example lower_guess : toLowerCase (trim "  ApPle ") = "apple".
Proof. reflexivity. Qed.

Example trim_inner_space : trim (String (ascii_of_nat 9) " a b ") = "a b".
Proof. reflexivity. Qed.

(** A no-break space (U+00A0) and an ideographic space (U+3000) are
    trimmed at the ends and kept inside; the euro sign (U+20AC), which
    shares its first byte with the spaces U+2000 to U+200A, is kept. *)
Example trim_unicode_space :
  let nbsp := String (ascii_of_nat 194) (String (ascii_of_nat 160) "") in
  let wide := String (ascii_of_nat 227) (String (ascii_of_nat 128)
                (String (ascii_of_nat 128) "")) in
  let euro := String (ascii_of_nat 226) (String (ascii_of_nat 130)
                (String (ascii_of_nat 172) "")) in
  trim (nbsp +:+ " a" +:+ nbsp +:+ "b" +:+ wide +:+ " ") = "a" +:+ nbsp +:+ "b"
  /\ trim (wide +:+ euro +:+ nbsp) = euro.
Proof. split; reflexivity. Qed.

Example to_string_list : to_string (VArr [VNum 1; VNull; VStr "x"]) = "1,,x".
Proof. reflexivity. Qed.

Example slice_from_tail : Redis.slice [1; 2; 3; 4; 5] (-3) (-2) = [3; 4].
Proof. reflexivity. Qed.

Example slice_past_end : Redis.slice [1; 2; 3] 1 99 = [2; 3].
Proof. reflexivity. Qed.

Example slice_empty_range : Redis.slice [1; 2; 3] 2 1 = [].
Proof. reflexivity. Qed.

Example join_events :
  outbox bob_joined
  = [{| target := ToSocket "s2"; event := "chat-history";
        payload := VObj [("messages", VArr [])] |};
     {| target := ToOthers (VStr "ABCD") "s2"; event := "user-joined-chat";
        payload := VObj [("userId", VStr "u2"); ("username", VStr "bob")] |}].
Proof. vm_compute. reflexivity. Qed.

Example join_membership :
  RedisSingleton.getRoomUsers "ABCD" bob_joined
  = (bob_joined,
     Ok {[ "u2" := VObj [("username", VStr "bob"); ("socketId", VStr "s2");
                         ("joinedAt", VNum 1700000000000)] ]}).
Proof. vm_compute. reflexivity. Qed.

Example unknown_event_is_ignored :
  MessageBus.handleGameEvent
    {| deliveryTag := 1; content := Json (VObj [("type", VStr "player-joined")]) |} started
  = (started, Ok tt).
Proof. reflexivity. Qed.

Example malformed_event_is_logged :
  console_error (exec (MessageBus.on_game_event (Some {| deliveryTag := 2; content := NotJson "{" |}))
                   started) = ["Error parsing game event:"]
  /\ chan_log (exec (MessageBus.on_game_event (Some {| deliveryTag := 2; content := NotJson "{" |}))
                 started) = [Ack 2].
Proof. split; reflexivity. Qed.

(** ** Chat history is bounded and ordered *)

Lemma slice_0_99 {A} (l : list A) : Redis.slice l 0 99 = take 100 l.
Proof.
  unfold Redis.slice. cbn [Z.ltb Z.compare].
  destruct l as [|x l]; [reflexivity|].
  set (len := Z.of_nat (length (x :: l))).
  assert (Hlen : 1 <= len) by (subst len; cbn [length]; lia).
  assert (H1 : (0 >? Z.min 99 (len - 1)) = false) by lia.
  assert (H2 : (0 >=? len) = false) by lia.
  rewrite H1, H2. cbn [orb]. change (Z.to_nat 0) with 0%nat. rewrite drop_0.
  destruct (Z.le_ge_cases 99 (len - 1)).
  - rewrite Z.min_l by lia. reflexivity.
  - rewrite Z.min_r by lia.
    replace (Z.to_nat (len - 1 - 0 + 1)) with (length (x :: l)) by (subst len; lia).
    rewrite firstn_all. symmetry. apply take_ge. subst len. lia.
Qed.

Lemma slice_all {A} (l : list A) : Redis.slice l 0 (-1) = l.
Proof.
  unfold Redis.slice. cbn [Z.ltb Z.compare].
  destruct l as [|x l]; [reflexivity|].
  set (len := Z.of_nat (length (x :: l))).
  assert (Hlen : 1 <= len) by (subst len; cbn [length]; lia).
  rewrite Z.min_r by lia.
  assert (H1 : (0 >? len - 1) = false) by lia.
  assert (H2 : (0 >=? len) = false) by lia.
  rewrite H1, H2. cbn [orb]. change (Z.to_nat 0) with 0%nat. rewrite drop_0.
  replace (Z.to_nat (len - 1 - 0 + 1)) with (length (x :: l)) by (subst len; lia).
  apply firstn_all.
Qed.

Lemma string_length_app (s t : string) :
  String.length (s +:+ t) = (String.length s + String.length t)%nat.
Proof. induction s as [|a s IH]; [reflexivity|]. cbn. by rewrite <- IH. Qed.

Lemma string_app_inj_r (s t1 t2 : string) : t1 +:+ s = t2 +:+ s -> t1 = t2.
Proof.
  revert t2. induction t1 as [|a t1 IH]; intros [|b t2] H.
  - reflexivity.
  - exfalso. apply (f_equal String.length) in H.
    rewrite !string_length_app in H. cbn in H. lia.
  - exfalso. apply (f_equal String.length) in H.
    rewrite !string_length_app in H. cbn in H. lia.
  - change (String a (t1 +:+ s) = String b (t2 +:+ s)) in H.
    injection H as -> H. f_equal. by apply IH.
Qed.

Lemma messages_key_inj (r1 r2 : string) :
  RedisSingleton.messages_key r1 = RedisSingleton.messages_key r2 -> r1 = r2.
Proof.
  unfold RedisSingleton.messages_key. intros H.
  apply (inj (String.app _)) in H. by apply string_app_inj_r in H.
Qed.

Lemma take_app_take {A} (n : nat) (a b : list A) :
  take n (a ++ take n b) = take n (a ++ b).
Proof.
  rewrite !take_app, take_take. do 2 f_equal. lia.
Qed.

Lemma stored_store_same (room : string) (message : jsval) (w : World) :
  stored room (exec (RedisSingleton.storeChatMessage room message) w)
  = take 100 (Json message :: stored room w).
Proof.
  unfold stored, exec, RedisSingleton.storeChatMessage, bind, modify. cbn.
  unfold Redis.lTrim, Redis.lPush. cbn.
  rewrite lookup_insert_eq, slice_0_99. cbn.
  rewrite lookup_insert_eq. reflexivity.
Qed.

Lemma stored_store_other (room room' : string) (message : jsval) (w : World) :
  room <> room' ->
  stored room' (exec (RedisSingleton.storeChatMessage room message) w)
  = stored room' w.
Proof.
  intros Hne.
  assert (Hk : RedisSingleton.messages_key room <> RedisSingleton.messages_key room')
    by (intros H; by apply messages_key_inj in H).
  unfold stored, exec, RedisSingleton.storeChatMessage, bind, modify. cbn.
  unfold Redis.lTrim, Redis.lPush. cbn.
  rewrite lookup_insert_eq, slice_0_99. cbn.
  rewrite !lookup_insert_ne by done. reflexivity.
Qed.

Lemma exec_store_all_cons room message rest w :
  exec (store_all ((room, message) :: rest)) w
  = exec (store_all rest) (exec (RedisSingleton.storeChatMessage room message) w).
Proof. reflexivity. Qed.

Lemma stored_store_all (room : string) (calls : list (string * jsval)) (w : World) :
  stored room (exec (store_all calls) w)
  = match appended room calls with
    | [] => stored room w
    | ms => take 100 (reverse (Json <$> ms) ++ stored room w)
    end.
Proof.
  revert w. induction calls as [|[r m] rest IH]; intros w; [reflexivity|].
  rewrite exec_store_all_cons, IH. cbn [appended].
  destruct (String.eqb_spec r room) as [->|Hne].
  - rewrite stored_store_same.
    destruct (appended room rest) as [|m' ms].
    + reflexivity.
    + rewrite take_app_take. f_equal.
      rewrite (fmap_cons _ m (m' :: ms)), (reverse_cons _ (Json m)).
      by rewrite <- app_assoc.
  - by rewrite stored_store_other.
Qed.

Lemma map_result_parse_json (l : list jsval) :
  map_result JSON_parse (Json <$> l) = Ok l.
Proof. induction l as [|v l IH]; [reflexivity|]. cbn. by rewrite IH. Qed.

Lemma getChatHistory_eq (room : string) (w : World) :
  RedisSingleton.getChatHistory room w
  = (w, match map_result JSON_parse (stored room w) with
        | Ok parsed => Ok (reverse parsed)
        | Throw e => Throw e
        end).
Proof.
  unfold RedisSingleton.getChatHistory, bind, gets, lift, ret, Redis.lRange.
  rewrite slice_all. fold (stored room w).
  by destruct (map_result JSON_parse (stored room w)).
Qed.

Lemma stored_length_bound (room : string) (calls : list (string * jsval)) (w : World) :
  (length (stored room (exec (store_all calls) w))
   <= 100 `max` length (stored room w))%nat.
Proof.
  rewrite stored_store_all. destruct (appended room calls); [lia|].
  rewrite length_take. lia.
Qed.

(** C2. After any sequence of [storeChatMessage] calls of which more than
    100 went to a room (calls to other rooms may come between them, and the
    room may have held anything before), [getChatHistory] of that room
    returns exactly the last 100 messages appended to it, oldest first, and
    the stored list has 100 entries.  At every point of the sequence the
    stored list has at most 100 entries, as soon as the room was appended
    to, and from the start if it had at most 100 then. *)
Theorem C2_history_is_latest_100 (room : string) (calls : list (string * jsval)) (w : World) :
  let ms := appended room calls in
  let w' := exec (store_all calls) w in
  (100 < length ms)%nat ->
  RedisSingleton.getChatHistory room w' = (w', Ok (drop (length ms - 100) ms))
  /\ length (stored room w') = 100%nat
  /\ (forall k,
      appended room (take k calls) <> [] \/ (length (stored room w) <= 100)%nat ->
      (length (stored room (exec (store_all (take k calls)) w)) <= 100)%nat).
Proof.
  intros ms w' Hlen.
  assert (Hst : stored room w' = Json <$> take 100 (reverse ms)).
  { subst w'. rewrite stored_store_all. fold ms.
    destruct ms as [|m ms'] eqn:E; [cbn in Hlen; lia|]. rewrite <- E in *.
    rewrite take_app_le by (rewrite length_reverse, length_fmap; lia).
    by rewrite <- fmap_reverse, fmap_take. }
  split; [|split].
  - rewrite getChatHistory_eq, Hst, map_result_parse_json.
    by rewrite reverse_take, length_reverse, reverse_involutive.
  - rewrite Hst, length_fmap, length_take, length_reverse. lia.
  - intros k [Hk|Hk].
    + rewrite stored_store_all. destruct (appended room (take k calls)); [done|].
      rewrite length_take. lia.
    + pose proof (stored_length_bound room (take k calls) w). lia.
Qed.

Lemma C2_history_is_latest_100_witness :
  (100 < length (appended "ABCD" (numbered 101)))%nat
  /\ eval (RedisSingleton.getChatHistory "ABCD") (exec (store_all (numbered 101)) started)
     = Ok (VNum <$> (Z.of_nat <$> seq 1 100)).
Proof.
  assert (H : (100 < length (appended "ABCD" (numbered 101)))%nat) by (vm_compute; lia).
  split; [exact H|].
  destruct (C2_history_is_latest_100 "ABCD" (numbered 101) started H) as [E _].
  unfold eval. rewrite E. vm_compute. reflexivity.
Defined.

(** ** Socket handlers *)

Lemma join_incomplete (socket : string) (d : JoinData) (w : World) :
  truthy_str (join_roomCode d) = false \/ truthy_str (join_userId d) = false ->
  Common.handleJoinChatRoom socket (Some d) w
  = (set_outbox (fun l => l ++ [join_rejection socket]) w, Ok tt).
Proof.
  intros H. unfold Common.handleJoinChatRoom, try_catch, bind, destructure, ret.
  destruct (truthy_str (join_roomCode d)), (truthy_str (join_userId d));
    try reflexivity.
  destruct H; discriminate.
Qed.

Lemma rpc_message_empty (socket : string) (d : MessageData) during (w : World) :
  truthy_str (data_message d) = false ->
  ChatSocketHandler.handleChatMessage socket (Some d) during w = (w, Ok tt).
Proof.
  intros H. unfold ChatSocketHandler.handleChatMessage, try_catch, bind, destructure, ret, gets.
  rewrite H. by rewrite orb_true_r.
Qed.

Lemma cache_message_empty client (socket : string) (d : MessageData) (w : World) :
  truthy_str (data_message d) = false ->
  ChatSocketHandlerCache.handleChatMessage client socket (Some d) w = (w, Ok tt).
Proof.
  intros H. unfold ChatSocketHandlerCache.handleChatMessage, try_catch, bind, destructure, ret, gets.
  rewrite H. by rewrite orb_true_r.
Qed.

Lemma disconnect_in_room (socket : string) (w : World) :
  in_room socket w ->
  Common.handleDisconnect socket w
  = (set_outbox (fun l => l ++ [departure socket w])
       (set_redis (Redis.hDel (RedisSingleton.users_key (str (roomCode (socket_of socket w))))
                              (str (userId (socket_of socket w)))) w),
     Ok tt).
Proof.
  intros [Hr Hu].
  unfold Common.handleDisconnect, try_catch, bind, gets. cbn. rewrite Hr, Hu. 
  reflexivity.
Qed.

Lemma leave_in_room (socket : string) (w : World) :
  in_room socket w ->
  exists w',
  Common.handleLeaveChatRoom socket w = (w', Ok tt)
  /\ outbox w' = outbox w ++ [departure socket w]
  /\ console_error w' = console_error w
  /\ roomCode (socket_of socket w') = roomCode (socket_of socket w)
  /\ userId (socket_of socket w') = userId (socket_of socket w)
  /\ username (socket_of socket w') = username (socket_of socket w).
Proof.
  intros [Hr Hu].
  unfold Common.handleLeaveChatRoom, try_catch, bind, gets. cbn. rewrite Hr. cbn.
  eexists. split; [reflexivity|]. cbn.
  unfold socket_of. cbn. rewrite lookup_insert_eq. cbn. done.
Qed.

Lemma join_sets_socket (socket : string) (d : JoinData) (w : World) :
  truthy_str (join_roomCode d) = true ->
  truthy_str (join_userId d) = true ->
  let s := socket_of socket (exec (Common.handleJoinChatRoom socket (Some d)) w) in
  roomCode s = join_roomCode d /\ userId s = join_userId d
  /\ username s = join_username d.
Proof.
  intros Hr Hu. unfold exec, Common.handleJoinChatRoom, try_catch, bind, destructure, ret.
  rewrite Hr, Hu. cbn [negb orb].
  unfold update_socket, socket_join, update_socket, modify, Date_now, gets,
    RedisSingleton.addUserToRoom, modify.
  rewrite getChatHistory_eq. unfold lift.
  match goal with |- context [map_result JSON_parse ?l] =>
    destruct (map_result JSON_parse l) end; cbn;
    unfold socket_of; cbn; rewrite lookup_insert_eq; cbn;
    unfold socket_of; cbn; rewrite lookup_insert_eq; cbn; done.
Qed.

Lemma join_in_room (socket : string) (d : JoinData) (w : World) :
  truthy_str (join_roomCode d) = true ->
  truthy_str (join_userId d) = true ->
  in_room socket (exec (Common.handleJoinChatRoom socket (Some d)) w).
Proof.
  intros Hr Hu. destruct (join_sets_socket socket d w Hr Hu) as (E1 & E2 & _).
  unfold in_room. by rewrite E1, E2.
Qed.

Lemma disconnect_keeps_socket (socket : string) (w : World) :
  sockets (exec (Common.handleDisconnect socket) w) = sockets w.
Proof.
  unfold exec, Common.handleDisconnect, try_catch, bind, gets. cbn.
  by destruct (truthy_str (roomCode (socket_of socket w)) && truthy_str (userId (socket_of socket w))).
Qed.

Lemma cleanup_twice (socket : string) (w1 : World) :
  in_room socket w1 ->
  let w2 := exec (Common.handleDisconnect socket) w1 in
  let w3 := exec (Common.handleDisconnect socket) w2 in
  let v2 := exec (Common.handleLeaveChatRoom socket) w1 in
  let v3 := exec (Common.handleDisconnect socket) v2 in
  outbox w3 = outbox w1 ++ [departure socket w1; departure socket w1]
  /\ console_error w3 = console_error w1
  /\ outbox v3 = outbox w1 ++ [departure socket w1; departure socket w1]
  /\ console_error v3 = console_error w1.
Proof.
  intros Hin w2 w3 v2 v3.
  assert (Hin2 : in_room socket w2).
  { unfold in_room, socket_of, w2. by rewrite disconnect_keeps_socket. }
  assert (Hd2 : departure socket w2 = departure socket w1).
  { unfold departure, socket_of, w2. by rewrite disconnect_keeps_socket. }
  destruct (leave_in_room socket w1 Hin) as (v & Ev & Eo & Ec & Er & Eu & En).
  assert (Hv : v2 = v) by (unfold v2, exec; by rewrite Ev).
  assert (Hinv : in_room socket v2).
  { rewrite Hv. unfold in_room. rewrite Er, Eu. exact Hin. }
  assert (Hdv : departure socket v2 = departure socket w1).
  { rewrite Hv. unfold departure. by rewrite Er, Eu, En. }
  assert (Eo2 : outbox w2 = outbox w1 ++ [departure socket w1]
                /\ console_error w2 = console_error w1).
  { unfold w2, exec. by rewrite (disconnect_in_room socket w1 Hin). }
  assert (Eo3 : outbox w3 = outbox w2 ++ [departure socket w2]
                /\ console_error w3 = console_error w2).
  { unfold w3, exec. by rewrite (disconnect_in_room socket w2 Hin2). }
  assert (Ev3 : outbox v3 = outbox v2 ++ [departure socket v2]
                /\ console_error v3 = console_error v2).
  { unfold v3, exec. by rewrite (disconnect_in_room socket v2 Hinv). }
  destruct Eo2 as [Eo2 Ec2], Eo3 as [Eo3 Ec3], Ev3 as [Ev3 Ecv].
  repeat split.
  - rewrite Eo3, Eo2, Hd2. by rewrite <- app_assoc.
  - by rewrite Ec3.
  - rewrite Ev3, Hdv, Hv, Eo. by rewrite <- app_assoc.
  - by rewrite Ecv, Hv.
Qed.

(** ** Frames and totality of the bus operations *)

Lemma silent_ret {A} (a : A) : silent (ret a).
Proof. by intros w. Qed.

Lemma silent_throw {A} (e : exn) : silent (@throw World A e).
Proof. by intros w. Qed.

Lemma silent_lift {A} (r : result A) : silent (lift r).
Proof. by intros w. Qed.

Lemma silent_gets {A} (f : World -> A) : silent (gets f).
Proof. by intros w. Qed.

Lemma silent_bind {A B} (c : M A) (k : A -> M B) :
  silent c -> (forall a, silent (k a)) -> silent (bind c k).
Proof.
  intros Hc Hk w. specialize (Hc w). unfold exec, bind in *.
  destruct (c w) as [w1 [a|e]]; cbn in *; [|done].
  specialize (Hk a w1). unfold exec in Hk.
  destruct Hk as (-> & -> & ->). done.
Qed.

Lemma silent_try_catch {A} (c : M A) (h : exn -> M A) :
  silent c -> (forall e, silent (h e)) -> silent (try_catch c h).
Proof.
  intros Hc Hh w. specialize (Hc w). unfold exec, try_catch in *.
  destruct (c w) as [w1 [a|e]]; cbn in *; [done|].
  specialize (Hh e w1). unfold exec in Hh.
  destruct Hh as (-> & -> & ->). done.
Qed.

Lemma silent_chan (op : ChanOp) : silent (MessageBus.chan op).
Proof.
  intros w. unfold exec, MessageBus.chan.
  destruct (channel w); cbn; try done.
  by destruct (refuses (broker w) (connects w) op).
Qed.

Lemma silent_chan_send (op : ChanOp) : silent (MessageBus.chan_send op).
Proof. intros w. unfold exec, MessageBus.chan_send. by destruct (channel w). Qed.

Lemma silent_console_error (line : string) : silent (console_error_ line).
Proof. by intros w. Qed.

Lemma silent_Math_random : silent Math_random.
Proof. intros w. unfold exec, Math_random. by destruct (random w). Qed.

Lemma silent_set_rpcs (f : list Rpc -> list Rpc) : silent (modify (set_rpcs f)).
Proof. by intros w. Qed.

Lemma silent_set_now (f : Z -> Z) : silent (modify (set_now f)).
Proof. by intros w. Qed.

Lemma silent_process_exit (code : Z) : silent (process_exit code).
Proof. by intros w. Qed.

Lemma silent_unhandledRejection (error : exn) : silent (unhandledRejection error).
Proof. by intros w. Qed.

Create HintDb silent.
#[local] Hint Resolve silent_ret silent_throw silent_lift silent_gets silent_chan
  silent_chan_send silent_console_error silent_Math_random silent_set_rpcs
  silent_set_now silent_process_exit silent_unhandledRejection : silent.

Ltac silence :=
  repeat first
    [ apply silent_bind; [|intros ?]
    | apply silent_try_catch; [|intros ?]
    | solve [auto with silent]
    | match goal with |- silent (if ?b then _ else _) => destruct b end
    | match goal with |- silent (match ?x with _ => _ end) => destruct x end ].

Lemma silent_askGameService (action : string) (data : jsval) :
  silent (MessageBus.askGameService action data).
Proof. unfold MessageBus.askGameService, Date_now. silence. Qed.

Lemma silent_on_reply h msg : silent (MessageBus.on_reply h msg).
Proof.
  unfold MessageBus.on_reply, MessageBus.clearTimeout, MessageBus.resolve.
  destruct msg; silence.
Qed.

Lemma silent_fire_due hs : silent (MessageBus.fire_due hs).
Proof.
  induction hs as [|h hs IH]; cbn [MessageBus.fire_due]; [silence|].
  unfold MessageBus.on_timeout, MessageBus.clearTimeout, MessageBus.resolve. silence.
Qed.

Lemma silent_bus_step e : silent (MessageBus.bus_step e).
Proof.
  destruct e; cbn [MessageBus.bus_step]; [apply silent_on_reply|].
  silence. apply silent_fire_due.
Qed.

Lemma total_ret {A} (a : A) : total (ret a).
Proof. intros w. by exists a. Qed.

Lemma total_gets {A} (f : World -> A) : total (gets f).
Proof. intros w. by eexists. Qed.

Lemma total_modify (f : World -> World) : total (modify f).
Proof. intros w. by eexists. Qed.

Lemma total_Math_random : total Math_random.
Proof. intros w. unfold eval, Math_random. destruct (random w); by eexists. Qed.

Lemma total_bind {A B} (c : M A) (k : A -> M B) :
  total c -> (forall a, total (k a)) -> total (bind c k).
Proof.
  intros Hc Hk w. destruct (Hc w) as [a Ha]. unfold eval, bind in *.
  destruct (c w) as [w1 r]. cbn in Ha. subst r. apply Hk.
Qed.

Lemma total_try_catch {A} (c : M A) (h : exn -> M A) :
  (forall e, total (h e)) -> total (try_catch c h).
Proof.
  intros Hh w. unfold eval, try_catch. destruct (c w) as [w1 [a|e]].
  - by exists a.
  - apply Hh.
Qed.

Lemma askGameService_total (action : string) (data : jsval) :
  total (MessageBus.askGameService action data).
Proof.
  unfold MessageBus.askGameService.
  apply total_bind; [apply total_gets|]. intros t.
  apply total_bind; [apply total_Math_random|]. intros r.
  apply total_try_catch. intros e.
  apply total_bind; [apply total_modify|]. intros _. apply total_ret.
Qed.


(** ** The handler that reads the game state from the cache *)

Import ChatSocketHandlerCache.

Lemma getRoomData_throws (room : string) (w : World) :
  call_getRoomData RedisSingleton.redisClient room w
  = (w, Throw (TypeError "redisClient.getRoomData is not a function")).
Proof. reflexivity. Qed.

Lemma check_game_state_redisClient room userId message (w : World) :
  check_game_state RedisSingleton.redisClient room userId message w = (w, Ok initial).
Proof. reflexivity. Qed.

Lemma cache_handler_relays (socket : string) (d : MessageData) (w : World) :
  truthy_str (roomCode (socket_of socket w)) = true ->
  truthy_str (data_message d) = true ->
  handleChatMessage RedisSingleton.redisClient socket (Some d) w
  = relay socket (plain_line socket (str (data_message d)) "message" w) w.
Proof.
  intros Hr Hm.
  unfold handleChatMessage, try_catch, bind, destructure, ret, gets.
  rewrite Hr, Hm. cbn [negb orb]. rewrite check_game_state_redisClient.
  reflexivity.
Qed.

Lemma relay_outbox socket line w :
  outbox (exec (relay socket line) w)
  = outbox w ++ [{| target := ToRoom (js_str (roomCode (socket_of socket w)));
                    event := "chat-message"; payload := line |}].
Proof. reflexivity. Qed.

Lemma relay_stored socket line room w t :
  t ∈ stored room (exec (relay socket line) w) ->
  t ∈ stored room w \/ t = Json line.
Proof.
  change (exec (relay socket line) w)
    with (set_outbox (fun l => l ++ [{| target := ToRoom (js_str (roomCode (socket_of socket w)));
                                        event := "chat-message"; payload := line |}])
            (exec (RedisSingleton.storeChatMessage (str (roomCode (socket_of socket w))) line) w)).
  change (stored room (set_outbox ?f ?v)) with (stored room v).
  destruct (decide (str (roomCode (socket_of socket w)) = room)) as [<-|Hne].
  - rewrite stored_store_same. intros Ht%elem_of_take.
    destruct Ht as (i & Hi & _). apply list_elem_of_lookup_2 in Hi.
    apply elem_of_cons in Hi. tauto.
  - rewrite stored_store_other by done. tauto.
Qed.

Lemma cache_handler_cases (socket : string) (data : option MessageData) (w : World) :
  let w' := exec (ChatSocketHandlerCache.handleChatMessage RedisSingleton.redisClient socket data) w in
  w' = w
  \/ w' = set_console_error (fun l => l ++ ["Error handling chat message:"]) w
  \/ exists m, w' = exec (relay socket (plain_line socket m "message" w)) w.
Proof.
  destruct data as [d|]; [|right; left; reflexivity].
  destruct (truthy_str (roomCode (socket_of socket w))) eqn:Hr,
           (truthy_str (data_message d)) eqn:Hm.
  - right; right. eexists. cbv zeta. unfold exec at 1.
    by rewrite (cache_handler_relays socket d w Hr Hm).
  - left. cbv zeta. unfold exec. by rewrite cache_message_empty.
  - left. cbv zeta. unfold exec, handleChatMessage, try_catch, bind, destructure, ret, gets.
    by rewrite Hr.
  - left. cbv zeta. unfold exec. by rewrite cache_message_empty.
Qed.

(** C5. In the handler that reads the game state from the cache, the lookup
    calls [getRoomData], which the Redis client does not define: the call
    throws, the error is caught and [isGameActive] and [isCorrect] stay
    false.  A message that passes the guard (the connection has joined and
    the text is not empty) is therefore put in front of the stored history
    of the room and emitted to the room as it was typed, with type
    'message' and nothing logged; and nothing this handler broadcasts or
    stores is ever of another type: no guess is recognised on this path. *)
Theorem C5_cache_read_never_classifies (socket : string) (data : option MessageData) (w : World) :
  let w' := exec (ChatSocketHandlerCache.handleChatMessage RedisSingleton.redisClient socket data) w in
  (forall room v,
      eval (ChatSocketHandlerCache.call_getRoomData RedisSingleton.redisClient room) v
      = Throw (TypeError "redisClient.getRoomData is not a function"))
  /\ (forall room user message v,
      ChatSocketHandlerCache.check_game_state RedisSingleton.redisClient room user message v
      = (v, Ok {| isGameActive := false; isCorrect := false; currentWord := VNull |}))
  /\ (forall d,
      data = Some d ->
      truthy_str (roomCode (socket_of socket w)) = true ->
      truthy_str (data_message d) = true ->
      let s := socket_of socket w in
      let line := VObj [("id", VStr (pretty (now w) +:+ "-" +:+ str (userId s)));
                        ("userId", js_str (userId s));
                        ("username", js_str (username s));
                        ("message", VStr (str (data_message d)));
                        ("timestamp", VNum (now w));
                        ("type", VStr "message")] in
      outbox w' = outbox w ++ [{| target := ToRoom (js_str (roomCode s));
                                  event := "chat-message"; payload := line |}]
      /\ Redis.lists (redis w') !! RedisSingleton.messages_key (str (roomCode s))
         = Some (take 100 (JSON_stringify line :: stored (str (roomCode s)) w))
      /\ (forall other, other <> str (roomCode s) -> stored other w' = stored other w)
      /\ Redis.hashes (redis w') = Redis.hashes (redis w)
      /\ sockets w' = sockets w
      /\ console_error w' = console_error w)
  /\ (forall e, e ∈ outbox w' ->
      e ∈ outbox w
      \/ (event e = "chat-message" /\ get (payload e) "type" = Ok (VStr "message")))
  /\ (forall room t, t ∈ stored room w' ->
      t ∈ stored room w
      \/ exists line, t = Json line /\ get line "type" = Ok (VStr "message")).
Proof.
  intros w'. split; [reflexivity|]. split; [reflexivity|]. split; [|split].
  - intros d -> Hr Hm s line.
    assert (E : w' = exec (relay socket line) w).
    { unfold w', exec at 1. by rewrite (cache_handler_relays socket d w Hr Hm). }
    assert (E' : w' = set_outbox (fun l => l ++ [{| target := ToRoom (js_str (roomCode s));
                                                    event := "chat-message";
                                                    payload := line |}])
                        (exec (RedisSingleton.storeChatMessage (str (roomCode s)) line) w))
      by (rewrite E; reflexivity).
    split; [by rewrite E'|]. split; [|split; [|split; [|split]]].
    + rewrite E'. cbn [redis set_outbox].
      unfold exec, RedisSingleton.storeChatMessage, bind, modify. cbn.
      unfold Redis.lTrim, Redis.lPush. cbn.
      rewrite lookup_insert_eq, slice_0_99. cbn.
      rewrite lookup_insert_eq. reflexivity.
    + intros other Hne. rewrite E'.
      change (stored other (set_outbox ?f ?v)) with (stored other v).
      by apply stored_store_other.
    + rewrite E'. cbn [redis set_outbox].
      unfold exec, RedisSingleton.storeChatMessage, bind, modify. cbn.
      unfold Redis.lTrim. destruct (Redis.lists _ !! _); [|done].
      by destruct (Redis.slice _ _ _).
    + by rewrite E'.
    + by rewrite E'.
  - intros e He. destruct (cache_handler_cases socket data w) as [E|[E|[m E]]];
      fold w' in E; rewrite E in He.
    + by left.
    + by left.
    + rewrite relay_outbox in He. apply elem_of_app in He as [He|He]; [by left|].
      apply list_elem_of_singleton in He as ->. right. by split.
  - intros room t Ht. destruct (cache_handler_cases socket data w) as [E|[E|[m E]]];
      fold w' in E; rewrite E in Ht.
    + by left.
    + by left.
    + apply relay_stored in Ht as [Ht| ->]; [by left|]. right. eexists. by split.
Qed.

Lemma inspect_recognises (fields : list (string * jsval)) (user : option string)
    (message word : string) :
  truthy (assoc "gameStarted" fields) = true ->
  assoc "gamePhase" fields = VStr "drawing" ->
  strict_eq_str (assoc "currentDrawer" fields) user = false ->
  assoc "currentWord" fields = VStr word ->
  word <> "" ->
  trim (toLowerCase message) = toLowerCase word ->
  exec (inspect (Some (Json (VObj fields))) user message) initial
  = {| isGameActive := true; isCorrect := true; currentWord := VStr word |}.
Proof.
  intros Hgs Hph Hdr Hcw Hne Heq.
  unfold exec, inspect, bind, lift, modify, ret.
  cbn [present from_option id JSON_parse get].
  rewrite Hgs, Hph, Hdr, Hcw. cbn [is_str]. rewrite String.eqb_refl. cbn [andb negb truthy].
  assert (Hw : (word =? "")%string = false) by (by apply String.eqb_neq).
  rewrite Hw. cbn [negb call_toLowerCase]. rewrite Heq, String.eqb_refl. reflexivity.
Qed.

(** Had the client a working [getRoomData], the handler would do what the
    specification describes: one celebration, stored and broadcast, and the
    guess itself neither stored nor broadcast. *)
Lemma guess_recognised_if_lookup_worked (lookup : string -> M (option text))
    (socket : string) (d : MessageData) (w : World)
    (fields : list (string * jsval)) (word : string) :
  let s := socket_of socket w in
  let line := ChatMessage ("correct-" +:+ pretty (now w) +:+ "-" +:+ str (userId s))
                (VStr "system") (VStr "System")
                (celebration (str (username s)) word) (now w) "correct-guess" in
  let w' := exec (handleChatMessage {| RedisSingleton.getRoomData := Some lookup |}
                    socket (Some d)) w in
  truthy_str (roomCode s) = true ->
  truthy_str (data_message d) = true ->
  lookup (str (roomCode s)) w = (w, Ok (Some (Json (VObj fields)))) ->
  truthy (assoc "gameStarted" fields) = true ->
  assoc "gamePhase" fields = VStr "drawing" ->
  strict_eq_str (assoc "currentDrawer" fields) (userId s) = false ->
  assoc "currentWord" fields = VStr word ->
  word <> "" ->
  trim (toLowerCase (str (data_message d))) = toLowerCase word ->
  outbox w' = outbox w ++ [{| target := ToRoom (js_str (roomCode s));
                              event := "chat-message"; payload := line |}]
  /\ stored (str (roomCode s)) w' = take 100 (Json line :: stored (str (roomCode s)) w).
Proof.
  intros s line w' Hr Hm Hl Hgs Hph Hdr Hcw Hne Heq.
  assert (Hw : (word =? "")%string = false) by (by apply String.eqb_neq).
  set (notify := MessageBus.askGameService "check-guess"
                   (VObj [("roomCode", js_str (roomCode s)); ("userId", js_str (userId s));
                          ("guess", VStr (trim (str (data_message d))))])).
  set (w1 := exec (RedisSingleton.storeChatMessage (str (roomCode s)) line) w).
  set (w2 := set_outbox (fun l => l ++ [{| target := ToRoom (js_str (roomCode s));
                                           event := "chat-message"; payload := line |}]) w1).
  assert (E : w' = exec notify w2).
  { unfold w', exec at 1, handleChatMessage, try_catch at 1, bind at 1, destructure, ret at 1.
    unfold bind at 1, gets at 1. fold s. rewrite Hr, Hm. cbn [negb orb].
    unfold bind at 1, check_game_state, try_catch at 1, bind at 1, call_getRoomData.
    cbn [RedisSingleton.getRoomData]. rewrite Hl.
    unfold ret at 1.
    rewrite (inspect_recognises fields (userId s) _ word Hgs Hph Hdr Hcw Hne Heq).
    cbn [isCorrect currentWord truthy andb to_string]. rewrite Hw. cbn [negb].
    unfold exec, bind, Date_now, gets, SocketSingleton.io_to_emit, modify,
      RedisSingleton.storeChatMessage, bind, modify. cbn [fst snd].
    fold notify.
    destruct (askGameService_total "check-guess"
                (VObj [("roomCode", js_str (roomCode s)); ("userId", js_str (userId s));
                       ("guess", VStr (trim (str (data_message d))))]) w2) as [a Ha].
    fold notify in Ha. unfold eval in Ha.
    assert (Hn : notify w2 = ((notify w2).1, Ok a)).
    { destruct (notify w2) as [w3 r]. cbn in Ha. by subst r. }
    match goal with |- context [notify ?v] => change v with w2 end.
    rewrite Hn. reflexivity. }
  destruct (silent_askGameService "check-guess"
              (VObj [("roomCode", js_str (roomCode s)); ("userId", js_str (userId s));
                     ("guess", VStr (trim (str (data_message d))))]) w2) as (Ho & Hd & _).
  fold notify in Ho, Hd. rewrite E. split.
  - rewrite Ho. reflexivity.
  - unfold stored. rewrite Hd. change (redis w2) with (redis w1).
    apply stored_store_same.
Qed.

Lemma C5_cache_read_never_classifies_witness :
  let typed := VObj [("id", VStr "1700000000000-u2"); ("userId", VStr "u2");
                     ("username", VStr "bob"); ("message", VStr "  ApPle ");
                     ("timestamp", VNum 1700000000000); ("type", VStr "message")] in
  let w' := exec (ChatSocketHandlerCache.handleChatMessage RedisSingleton.redisClient
                    "s2" (Some guess)) bob_joined in
  truthy_str (roomCode (socket_of "s2" bob_joined)) = true
  /\ truthy_str (data_message guess) = true
  /\ outbox w' = outbox bob_joined ++ [{| target := ToRoom (VStr "ABCD");
                                          event := "chat-message"; payload := typed |}]
  /\ Redis.lists (redis w') !! "chat:room:ABCD:messages" = Some [JSON_stringify typed].
Proof.
  intros typed w'.
  assert (Hr : truthy_str (roomCode (socket_of "s2" bob_joined)) = true)
    by (vm_compute; reflexivity).
  assert (Hm : truthy_str (data_message guess) = true) by reflexivity.
  split; [exact Hr|]. split; [exact Hm|].
  destruct (C5_cache_read_never_classifies "s2" (Some guess) bob_joined)
    as (_ & _ & H & _).
  destruct (H guess eq_refl Hr Hm) as (E1 & E2 & _).
  split; [exact E1|exact E2].
Defined.

(** ** A correct guess, in the scenario of the specification *)

(** C1. Room ABCD, word apple, drawer u1; u2 (bob) sends "  ApPle ".
    In the handler that reads the cache the lookup throws, so the guess is
    stored and broadcast as it was typed, with type 'message', and there is
    no celebration.  In the handler that asks the game service, and is told
    that the guess is correct, there is one celebration, but it quotes the
    trimmed guess "ApPle", not the word "apple". *)
Theorem C1_scenario_guess_is_not_celebrated_with_the_word :
  let typed := ChatMessage "1700000000000-u2" (VStr "u2") (VStr "bob") "  ApPle "
                 1700000000000 "message" in
  let cached := exec (ChatSocketHandlerCache.handleChatMessage RedisSingleton.redisClient
                        "s2" (Some guess)) bob_joined in
  let asked := exec (ChatSocketHandler.handleChatMessage "s2" (Some guess)
                       [MessageBus.Deliver 0 (Some says_correct)]) bob_joined in
  let praise := ChatMessage "correct-1700000000000-u2" (VStr "system") (VStr "System")
                  (celebration "bob" "ApPle") 1700000000000 "correct-guess" in
  emitted "chat-message" cached
    = [{| target := ToRoom (VStr "ABCD"); event := "chat-message"; payload := typed |}]
  /\ stored "ABCD" cached = [Json typed]
  /\ emitted "chat-message" asked
    = [{| target := ToRoom (VStr "ABCD"); event := "chat-message"; payload := praise |}]
  /\ stored "ABCD" asked = [Json praise]
  /\ includes "apple" (celebration "bob" "ApPle") = false
  /\ includes "ApPle" (celebration "bob" "ApPle") = true.
Proof. vm_compute. repeat split; reflexivity. Qed.

(** With a lookup that works, the scenario ends as the specification says. *)
Lemma scenario_with_working_lookup :
  let client := {| RedisSingleton.getRoomData :=
                     Some (fun _ => ret (Some (Json room_ABCD))) |} in
  let w' := exec (ChatSocketHandlerCache.handleChatMessage client "s2" (Some guess))
              bob_joined in
  let praise := ChatMessage "correct-1700000000000-u2" (VStr "system") (VStr "System")
                  (celebration "bob" "apple") 1700000000000 "correct-guess" in
  emitted "chat-message" w'
    = [{| target := ToRoom (VStr "ABCD"); event := "chat-message"; payload := praise |}]
  /\ stored "ABCD" w' = [Json praise]
  /\ includes "bob" (celebration "bob" "apple") = true
  /\ includes "apple" (celebration "bob" "apple") = true.
Proof. vm_compute. repeat split; reflexivity. Qed.

(** ** Validation *)

(** C7, as the code has it.  A join request without a room code or a user
    id is answered on the same connection with the 'error' event "Room code
    and user ID required".  A join request without any payload throws on
    reading the payload: the error is logged and the connection is sent the
    'error' event "Failed to join chat room".  A chat message without text
    is dropped silently by both variants of the handler: the world is
    unchanged, so in particular no 'error' event is sent.  A chat message
    without any payload throws on reading the payload: the error is logged
    and nothing is sent.  In none of these cases is a membership written, a
    socket changed, a message stored or anything broadcast. *)
Theorem C7_validation_failures_change_nothing (socket : string) (w : World) :
  (forall d,
      truthy_str (join_roomCode d) = false \/ truthy_str (join_userId d) = false ->
      let w' := exec (Common.handleJoinChatRoom socket (Some d)) w in
      outbox w' = outbox w ++ [join_rejection socket]
      /\ redis w' = redis w /\ sockets w' = sockets w
      /\ console_error w' = console_error w)
  /\ (let w' := exec (Common.handleJoinChatRoom socket None) w in
      outbox w' = outbox w ++ [join_failure socket]
      /\ redis w' = redis w /\ sockets w' = sockets w
      /\ console_error w' = console_error w ++ ["Error handling join chat room:"])
  /\ (forall d during,
      truthy_str (data_message d) = false ->
      ChatSocketHandler.handleChatMessage socket (Some d) during w = (w, Ok tt))
  /\ (forall client d,
      truthy_str (data_message d) = false ->
      ChatSocketHandlerCache.handleChatMessage client socket (Some d) w = (w, Ok tt))
  /\ (forall during,
      ChatSocketHandler.handleChatMessage socket None during w
      = (set_console_error (fun l => l ++ ["Error handling chat message:"]) w, Ok tt))
  /\ (forall client,
      ChatSocketHandlerCache.handleChatMessage client socket None w
      = (set_console_error (fun l => l ++ ["Error handling chat message:"]) w, Ok tt)).
Proof.
  split; [|split; [|split; [|split; [|split]]]].
  - intros d H w'. unfold w', exec. by rewrite (join_incomplete socket d w H).
  - done.
  - intros d during H. by apply rpc_message_empty.
  - intros client d H. by apply cache_message_empty.
  - done.
  - done.
Qed.

Lemma C7_validation_failures_change_nothing_witness :
  truthy_str (join_userId {| join_roomCode := Some "ABCD"; join_userId := None;
                             join_username := Some "bob" |}) = false
  /\ outbox (exec (Common.handleJoinChatRoom "s2"
                     (Some {| join_roomCode := Some "ABCD"; join_userId := None;
                              join_username := Some "bob" |})) started)
     = [join_rejection "s2"]
  /\ outbox (exec (Common.handleJoinChatRoom "s2" None) started) = [join_failure "s2"]
  /\ truthy_str (data_message {| data_message := Some "" |}) = false
  /\ ChatSocketHandler.handleChatMessage "s2" (Some {| data_message := Some "" |}) [] bob_joined
     = (bob_joined, Ok tt).
Proof.
  destruct (C7_validation_failures_change_nothing "s2" started) as (Hj & Hn & _).
  destruct (C7_validation_failures_change_nothing "s2" bob_joined) as (_ & _ & Hm & _).
  split; [reflexivity|]. split.
  - exact (proj1 (Hj {| join_roomCode := Some "ABCD"; join_userId := None;
                        join_username := Some "bob" |} (or_intror eq_refl))).
  - split; [exact (proj1 Hn)|].
    split; [reflexivity|]. exact (Hm {| data_message := Some "" |} [] eq_refl).
Defined.

(** The claim as written fails for chat messages: an empty text is a
    validation failure, and the connection gets no 'error' event. *)
Lemma C7_empty_message_gets_no_error_event :
  truthy_str (data_message {| data_message := Some "" |}) = false
  /\ emitted "error"
       (exec (ChatSocketHandler.handleChatMessage "s2" (Some {| data_message := Some "" |}) [])
          bob_joined) = []
  /\ emitted "error"
       (exec (ChatSocketHandlerCache.handleChatMessage RedisSingleton.redisClient "s2"
                (Some {| data_message := Some "" |})) bob_joined) = [].
Proof. vm_compute. repeat split; reflexivity. Qed.

(** ** Leaving twice *)

(** C4, as the code has it.  After a join, every cleanup call broadcasts a
    departure: [disconnect] twice, or [leave] and then [disconnect], put two
    'user-left-chat' events in the outbox of the room.  The handlers never
    clear the room code on the socket, so the second call does not find
    "no membership".  Neither call logs an error. *)
Theorem C4_second_cleanup_broadcasts_again (socket : string) (d : JoinData) (w : World) :
  truthy_str (join_roomCode d) = true ->
  truthy_str (join_userId d) = true ->
  let w1 := exec (Common.handleJoinChatRoom socket (Some d)) w in
  let w3 := exec (Common.handleDisconnect socket) (exec (Common.handleDisconnect socket) w1) in
  let v3 := exec (Common.handleDisconnect socket) (exec (Common.handleLeaveChatRoom socket) w1) in
  outbox w3 = outbox w1 ++ [departure socket w1; departure socket w1]
  /\ console_error w3 = console_error w1
  /\ outbox v3 = outbox w1 ++ [departure socket w1; departure socket w1]
  /\ console_error v3 = console_error w1.
Proof.
  intros Hr Hu w1. apply cleanup_twice. by apply join_in_room.
Qed.

Lemma C4_second_cleanup_broadcasts_again_witness :
  truthy_str (join_roomCode bob_joins) = true
  /\ truthy_str (join_userId bob_joins) = true
  /\ length (emitted "user-left-chat"
               (exec (Common.handleDisconnect "s2")
                  (exec (Common.handleDisconnect "s2") bob_joined))) = 2%nat
  /\ length (emitted "user-left-chat"
               (exec (Common.handleDisconnect "s2")
                  (exec (Common.handleLeaveChatRoom "s2") bob_joined))) = 2%nat.
Proof.
  destruct (C4_second_cleanup_broadcasts_again "s2" bob_joins started eq_refl eq_refl)
    as (E1 & _ & E2 & _).
  fold bob_joined in E1, E2.
  split; [reflexivity|]. split; [reflexivity|].
  unfold emitted. rewrite E1, E2. vm_compute. split; reflexivity.
Defined.

(** ** The broker connection *)

Ltac step_attempt :=
  match goal with
  | |- context [if ?b then _ else _] =>
      let E := fresh "E" in destruct b eqn:E; cbn
  end.

Lemma set_chan_log_twice (f g : list ChanOp -> list ChanOp) (w : World) :
  set_chan_log f (set_chan_log g w) = set_chan_log (fun l => f (g l)) w.
Proof. reflexivity. Qed.

Lemma set_chan_log_ext (f g : list ChanOp -> list ChanOp) (w : World) :
  (forall l, f l = g l) -> set_chan_log f w = set_chan_log g w.
Proof. intros H. unfold set_chan_log. by rewrite H. Qed.

Lemma connect_once_succeeds (w : World) :
  attempt_succeeds (broker w) (S (connects w)) = true ->
  MessageBus.connect_once w = (connected w, Ok tt).
Proof.
  unfold attempt_succeeds, topology. cbn [forallb].
  intros H. apply andb_prop in H as [H Hops]. apply andb_prop in H as [Hc Hch].
  repeat (apply andb_prop in Hops as [?H Hops]).
  repeat match goal with
         | H : negb _ = true |- _ => apply negb_true_iff in H
         end.
  unfold MessageBus.connect_once, bind, MessageBus.amqp_connect, MessageBus.createChannel,
    MessageBus.chan, ret,
    MessageBus.exchanges_gameEvents, MessageBus.exchanges_gameRequests,
    MessageBus.exchanges_gameResponses, MessageBus.queues_chatGameEvents.
  cbn. rewrite Hc. cbn. rewrite Hch. cbn.
  repeat match goal with
         | H : refuses _ _ _ = false |- _ => rewrite H; clear H; cbn
         end.
  unfold connected. rewrite !set_chan_log_twice. f_equal.
  apply set_chan_log_ext. intros l. unfold topology. by rewrite <- !app_assoc.
Qed.

Lemma connect_once_fails (w : World) :
  attempt_succeeds (broker w) (S (connects w)) = false ->
  exists w',
    MessageBus.connect_once w = (w', Throw (attempt_error (broker w) (S (connects w))))
    /\ connects w' = S (connects w)
    /\ broker w' = broker w
    /\ slept w' = slept w
    /\ now w' = now w
    /\ console_error w' = console_error w.
Proof.
  unfold attempt_succeeds, attempt_error, topology. cbn [forallb].
  intros H.
  unfold MessageBus.connect_once, bind, MessageBus.amqp_connect, MessageBus.createChannel,
    MessageBus.chan, ret,
    MessageBus.exchanges_gameEvents, MessageBus.exchanges_gameRequests,
    MessageBus.exchanges_gameResponses, MessageBus.queues_chatGameEvents.
  cbn.
  destruct (connect_ok (broker w) (S (connects w))) eqn:E1; cbn;
    [|eexists; split; [reflexivity|done]].
  destruct (createChannel_ok (broker w) (S (connects w))) eqn:E2; cbn;
    [|eexists; split; [reflexivity|done]].
  cbn in H.
  repeat (step_attempt; [eexists; split; [reflexivity|done]|]).
  repeat match goal with
         | E : refuses _ _ _ = false |- _ => rewrite E in H; clear E
         end.
  discriminate H.
Qed.

Lemma connect_loop_unfold (fuel : nat) (attempt maxRetries retryDelay : Z) :
  MessageBus.connect_loop (S fuel) attempt maxRetries retryDelay
  = if attempt <=? maxRetries then
      returned <- try_catch
        (MessageBus.connect_once ;;; ret true)
        (fun error =>
           console_error_ "Chat RabbitMQ connection attempt failed:" ;;;
           if attempt =? maxRetries then
             console_error_ "Failed to initialize Chat RabbitMQ message bus after all retries" ;;;
             throw error
           else
             MessageBus.sleep retryDelay ;;; ret false) ;;
      if returned : bool then ret tt
      else MessageBus.connect_loop fuel (attempt + 1) maxRetries retryDelay
    else ret tt.
Proof. reflexivity. Qed.

Lemma connect_loop_spec (maxRetries retryDelay : Z) (fuel : nat) :
  forall (attempt : Z) (w w' : World) (r : result unit),
  let j := Z.to_nat (maxRetries - attempt + 1) in
  let f := failures (broker w) (connects w) j in
  (j <= fuel)%nat ->
  MessageBus.connect_loop fuel attempt maxRetries retryDelay w = (w', r) ->
  broker w' = broker w
  /\ if (f <? j)%nat then
       r = Ok tt
       /\ connects w' = (connects w + S f)%nat
       /\ slept w' = slept w ++ replicate f retryDelay
       /\ (exists before, chan_log w' = before ++ topology)
       /\ channel w' = ChOpen
       /\ connection w' = Some (connects w + S f)%nat
     else
       connects w' = (connects w + j)%nat
       /\ slept w' = slept w ++ replicate (j - 1) retryDelay
       /\ r = match j with
              | O => Ok tt
              | S _ => Throw (attempt_error (broker w) (connects w + j))
              end.
Proof.
  induction fuel as [|fuel IH]; intros attempt w w' r j f Hfuel Hrun.
  - assert (Hj : j = 0%nat) by lia. subst f. rewrite Hj in *. cbn [failures Nat.ltb Nat.leb].
    assert (Hgt : (attempt <=? maxRetries) = false) by lia.
    cbn in Hrun. rewrite Hgt in Hrun. injection Hrun as <- <-.
    rewrite Nat.add_0_r, app_nil_r. done.
  - rewrite connect_loop_unfold in Hrun.
    destruct (attempt <=? maxRetries) eqn:Hle.
    2:{ assert (Hj : j = 0%nat) by lia. subst f. rewrite Hj in *.
        cbn [failures Nat.ltb Nat.leb]. injection Hrun as <- <-.
        rewrite Nat.add_0_r, app_nil_r. done. }
    assert (Hj : exists j', j = S j') by (exists (Nat.pred j); lia).
    destruct Hj as [j' Hj]. subst f. rewrite Hj in *. cbn [failures].
    unfold bind at 1, try_catch, bind at 1 in Hrun.
    destruct (attempt_succeeds (broker w) (S (connects w))) eqn:Hatt.
    + rewrite (connect_once_succeeds w Hatt) in Hrun. cbn in Hrun.
      injection Hrun as <- <-. cbn. rewrite app_nil_r, Nat.add_1_r.
      repeat split; eauto.
    + destruct (connect_once_fails w Hatt) as (w1 & E1 & Hc1 & Hb1 & Hs1 & Hn1 & He1).
      rewrite E1 in Hrun. unfold bind at 1, console_error_, modify at 1 in Hrun.
      destruct (attempt =? maxRetries) eqn:Hlast.
      * assert (j' = 0%nat) by lia. subst j'. cbn in Hrun. injection Hrun as <- <-.
        cbn. rewrite app_nil_r, Nat.add_1_r. done.
      * assert (Hj' : j' = Z.to_nat (maxRetries - (attempt + 1) + 1)) by lia.
        cbn in Hrun.
        match type of Hrun with
        | MessageBus.connect_loop _ _ _ _ ?w2 = _ => set (w2' := w2) in Hrun
        end.
        assert (Hfuel' : (Z.to_nat (maxRetries - (attempt + 1) + 1) <= fuel)%nat) by lia.
        specialize (IH (attempt + 1) w2' w' r Hfuel' Hrun).
        rewrite <- Hj' in IH.
        change (broker w2') with (broker w1) in IH.
        change (connects w2') with (connects w1) in IH.
        change (slept w2') with (slept w1 ++ [retryDelay]) in IH.
        rewrite Hb1, Hc1, Hs1 in IH. destruct IH as [IHb IH].
        split; [exact IHb|].
        change (S (failures (broker w) (S (connects w)) j') <? S j')%nat
          with (failures (broker w) (S (connects w)) j' <? j')%nat.
        destruct (failures (broker w) (S (connects w)) j' <? j')%nat.
        -- destruct IH as (-> & -> & -> & Hlog & -> & ->).
           rewrite <- app_assoc. cbn [replicate app].
           replace (S (connects w) + S (failures (broker w) (S (connects w)) j'))%nat
             with (connects w + S (S (failures (broker w) (S (connects w)) j')))%nat by lia.
           done.
        -- destruct IH as (-> & -> & ->).
           assert (Hpos : exists j'', j' = S j'') by (exists (Nat.pred j'); lia).
           destruct Hpos as [j'' ->].
           rewrite <- app_assoc. cbn [replicate app Nat.sub].
           rewrite Nat.sub_0_r.
           replace (S (connects w) + S j'')%nat with (connects w + S (S j''))%nat by lia.
           done.
Qed.

(** The fuel of [connectWithRetry] never runs out. *)
Lemma connect_loop_fuel (maxRetries retryDelay : Z) (w : World) :
  eval (MessageBus.connectWithRetry maxRetries retryDelay) w <> Throw (Error "out of fuel").
Proof.
  unfold eval, MessageBus.connectWithRetry.
  destruct (MessageBus.connect_loop (Z.to_nat maxRetries) 1 maxRetries retryDelay w)
    as [w' r] eqn:Hrun.
  assert (Hfuel : (Z.to_nat (maxRetries - 1 + 1) <= Z.to_nat maxRetries)%nat) by lia.
  destruct (connect_loop_spec maxRetries retryDelay _ 1 w w' r Hfuel Hrun) as [_ H].
  cbn [snd]. destruct (_ <? _)%nat.
  - destruct H as [-> _]. discriminate.
  - destruct H as (_ & _ & ->). destruct (Z.to_nat (maxRetries - 1 + 1)); [discriminate|].
    unfold attempt_error. by repeat destruct (negb _).
Qed.

Lemma failures_le (b : Broker) (n : nat) : forall c, (failures b c n <= n)%nat.
Proof.
  induction n as [|n IH]; intros c; cbn; [lia|].
  destruct (attempt_succeeds b (S c)); [lia|]. specialize (IH (S c)). lia.
Qed.

Lemma failures_all (b : Broker) (n : nat) :
  forall c,
  (forall k, (1 <= k <= n)%nat -> attempt_succeeds b (c + k) = false) ->
  failures b c n = n.
Proof.
  induction n as [|n IH]; intros c H; cbn; [reflexivity|].
  rewrite <- (Nat.add_1_r c), (H 1%nat) by lia. f_equal.
  rewrite Nat.add_1_r. apply IH. intros k Hk.
  replace (S c + k)%nat with (c + S k)%nat by lia. apply H. lia.
Qed.

Lemma failures_first (b : Broker) (n : nat) :
  forall c k,
  (1 <= k <= n)%nat ->
  (forall i, (1 <= i < k)%nat -> attempt_succeeds b (c + i) = false) ->
  attempt_succeeds b (c + k) = true ->
  failures b c n = (k - 1)%nat.
Proof.
  induction n as [|n IH]; intros c k Hk Hbefore Hat; [lia|]. cbn.
  destruct (decide (k = 1%nat)) as [->|Hne].
  - rewrite Nat.add_1_r in Hat. by rewrite Hat.
  - rewrite <- (Nat.add_1_r c), (Hbefore 1%nat) by lia.
    rewrite Nat.add_1_r, (IH (S c) (k - 1)%nat); [lia|lia| |].
    + intros i Hi. replace (S c + i)%nat with (c + S i)%nat by lia. apply Hbefore. lia.
    + replace (S c + (k - 1))%nat with (c + k)%nat by lia. exact Hat.
Qed.

(** C10. [connectWithRetry(maxRetries, retryDelay)] makes at most
    [maxRetries] attempts.  When all of them fail, the error of the last
    attempt is thrown to the caller, after a sleep of [retryDelay] between
    each two attempts.  When the k-th attempt is the first to succeed, the
    function returns, having slept k-1 times and ending with the declared
    topology (durable topic exchange, two durable direct exchanges, durable
    queue bound with 'game.event.*', consumer), and makes no further
    attempt. *)
Theorem C10_connectWithRetry_attempts_and_outcome (maxRetries retryDelay : Z) (w : World) :
  let n := Z.to_nat maxRetries in
  let b := broker w in
  let c := connects w in
  let w' := exec (MessageBus.connectWithRetry maxRetries retryDelay) w in
  let r := eval (MessageBus.connectWithRetry maxRetries retryDelay) w in
  (connects w' <= c + n)%nat
  /\ ((0 < n)%nat ->
      (forall k, (1 <= k <= n)%nat -> attempt_succeeds b (c + k) = false) ->
      r = Throw (attempt_error b (c + n))
      /\ connects w' = (c + n)%nat
      /\ slept w' = slept w ++ replicate (n - 1) retryDelay)
  /\ (forall k,
      (1 <= k <= n)%nat ->
      (forall i, (1 <= i < k)%nat -> attempt_succeeds b (c + i) = false) ->
      attempt_succeeds b (c + k) = true ->
      r = Ok tt
      /\ connects w' = (c + k)%nat
      /\ slept w' = slept w ++ replicate (k - 1) retryDelay
      /\ (exists before, chan_log w' = before ++ topology)
      /\ channel w' = ChOpen
      /\ connection w' = Some (c + k)%nat).
Proof.
  intros n b c w' r.
  assert (Hrun : MessageBus.connect_loop n 1 maxRetries retryDelay w = (w', r)).
  { unfold w', r, exec, eval, MessageBus.connectWithRetry. fold n.
    by destruct (MessageBus.connect_loop n 1 maxRetries retryDelay w). }
  assert (Hj : Z.to_nat (maxRetries - 1 + 1) = n) by (unfold n; f_equal; lia).
  assert (Hfuel : (Z.to_nat (maxRetries - 1 + 1) <= n)%nat) by lia.
  pose proof (connect_loop_spec maxRetries retryDelay n 1 w w' r Hfuel Hrun) as [_ H].
  rewrite Hj in H. fold b c in H.
  pose proof (failures_le b n c) as Hle.
  split; [|split].
  - destruct (failures b c n <? n)%nat eqn:E.
    + destruct H as (_ & -> & _). apply Nat.ltb_lt in E. lia.
    + destruct H as (-> & _). lia.
  - intros Hpos Hall. rewrite (failures_all b n c Hall), Nat.ltb_irrefl in H.
    destruct H as (-> & -> & ->). by destruct n; [lia|].
  - intros k Hk Hbefore Hat.
    rewrite (failures_first b n c k Hk Hbefore Hat) in H.
    assert (E : (k - 1 <? n)%nat = true) by (apply Nat.ltb_lt; lia).
    rewrite E in H. replace (S (k - 1)) with k in H by lia. exact H.
Qed.

Lemma C10_connectWithRetry_attempts_and_outcome_witness :
  (eval (MessageBus.connectWithRetry 3 5000) (booting down)
   = Throw (TransportError "connect ECONNREFUSED")
   /\ connects (exec (MessageBus.connectWithRetry 3 5000) (booting down)) = 3%nat
   /\ slept (exec (MessageBus.connectWithRetry 3 5000) (booting down)) = [5000; 5000])
  /\ (eval (MessageBus.connectWithRetry 5 5000) (booting down_twice) = Ok tt
      /\ connects (exec (MessageBus.connectWithRetry 5 5000) (booting down_twice)) = 3%nat
      /\ slept (exec (MessageBus.connectWithRetry 5 5000) (booting down_twice)) = [5000; 5000]).
Proof.
  split.
  - destruct (C10_connectWithRetry_attempts_and_outcome 3 5000 (booting down)) as (_ & H & _).
    apply H; [vm_compute; lia|]. intros k Hk. reflexivity.
  - destruct (C10_connectWithRetry_attempts_and_outcome 5 5000 (booting down_twice))
      as (_ & _ & H).
    destruct (H 3%nat) as (E1 & E2 & E3 & _).
    + vm_compute. lia.
    + intros i Hi. destruct i as [|[|[|i]]]; [lia|reflexivity|reflexivity|lia].
    + reflexivity.
    + done.
Defined.

(** ** Request and reply *)

Lemma alter_found {A} (f : A -> A) (h : nat) (l : list A) (r : A) :
  l !! h = Some r -> alter f h l = <[h := f r]> l.
Proof.
  intros E. apply list_eq. intros i. destruct (decide (h = i)) as [<-|Hne].
  - rewrite list_lookup_alter, decide_True by done.
    rewrite list_lookup_insert_eq by (by apply lookup_lt_Some in E). by rewrite E.
  - by rewrite list_lookup_alter_ne, list_lookup_insert_ne.
Qed.

Lemma alter_missing {A} (f : A -> A) (h : nat) (l : list A) :
  l !! h = None -> alter f h l = l.
Proof.
  intros E. apply list_eq. intros i. destruct (decide (h = i)) as [<-|Hne].
  - rewrite list_lookup_alter, decide_True by done. by rewrite E.
  - by rewrite list_lookup_alter_ne.
Qed.

Lemma alter_same {A} (f : A -> A) (h : nat) (l : list A) (r : A) :
  l !! h = Some r -> f r = r -> alter f h l = l.
Proof.
  intros E Hf. rewrite (alter_found f h l r E), Hf. by apply list_insert_id.
Qed.

Lemma alter_twice {A} (f g : A -> A) (h : nat) (l : list A) :
  alter f h (alter g h l) = alter (fun r => f (g r)) h l.
Proof.
  apply list_eq. intros i. destruct (decide (h = i)) as [<-|Hne].
  - rewrite !list_lookup_alter, !decide_True by done. by destruct (l !! h).
  - by rewrite !list_lookup_alter_ne.
Qed.

Lemma resolve_rpcs (h : nat) (v : jsval) (w : World) :
  MessageBus.resolve h v w = (set_rpcs (alter (settle v) h) w, Ok tt).
Proof.
  unfold MessageBus.resolve, modify, set_rpcs. do 2 f_equal.
  destruct (rpcs w !! h) as [r|] eqn:E.
  - destruct (settled r) eqn:Es.
    + symmetry. apply (alter_same _ _ _ r E). unfold settle. by rewrite Es.
    + rewrite (alter_found _ _ _ r E). unfold settle. by rewrite Es.
  - symmetry. by apply alter_missing.
Qed.

Lemma clearTimeout_rpcs (h : nat) (w : World) :
  MessageBus.clearTimeout h w = (set_rpcs (alter disarm h) w, Ok tt).
Proof.
  unfold MessageBus.clearTimeout, modify, set_rpcs. do 2 f_equal.
  destruct (rpcs w !! h) as [r|] eqn:E.
  - by rewrite (alter_found _ _ _ r E).
  - symmetry. by apply alter_missing.
Qed.

Lemma on_timeout_rpcs (h : nat) (w : World) :
  MessageBus.on_timeout h w
  = (set_rpcs (alter (fun r => settle MessageBus.default_response (disarm r)) h) w, Ok tt).
Proof.
  unfold MessageBus.on_timeout, bind. rewrite clearTimeout_rpcs, resolve_rpcs.
  unfold set_rpcs. cbn. do 2 f_equal. apply alter_twice.
Qed.

Lemma on_reply_matched (h : nat) (msg : Delivery) (w : World) :
  channel w = ChOpen ->
  matches (rid_of h w) msg = true ->
  MessageBus.on_reply h (Some msg) w
  = (set_rpcs (alter (fun r => settle (reply_data msg) (disarm r)) h)
       (set_chan_log (fun l => l ++ [Ack (deliveryTag msg)]) w), Ok tt).
Proof.
  intros Hopen Hm. unfold matches, reply_data in *.
  unfold MessageBus.on_reply, bind at 1, gets at 1. fold (rid_of h w).
  unfold try_catch, bind at 1, lift at 1.
  destruct (JSON_parse (content msg)) as [response|]; [|discriminate].
  unfold bind at 1, lift at 1.
  destruct (get response "requestId") as [rid|] eqn:Eg; [|discriminate].
  rewrite Hm. unfold bind at 1. rewrite clearTimeout_rpcs.
  unfold bind at 1, MessageBus.chan_send. cbn [channel set_rpcs]. rewrite Hopen.
  unfold bind at 1, lift at 1.
  assert (Hd : exists v, get response "data" = Ok v).
  { destruct response; cbn in Eg |- *; try discriminate; eauto. }
  destruct Hd as [v Hd]. rewrite Hd, resolve_rpcs.
  unfold set_rpcs, set_chan_log. cbn. do 2 f_equal. apply alter_twice.
Qed.

Lemma on_reply_mismatched (h : nat) (msg : Delivery) (w : World)
    (response answered : jsval) :
  content msg = Json response ->
  get response "requestId" = Ok answered ->
  is_str answered (rid_of h w) = false ->
  MessageBus.on_reply h (Some msg) w = (w, Ok tt).
Proof.
  intros Hc Hg Hne.
  unfold MessageBus.on_reply, bind at 1, gets at 1. fold (rid_of h w).
  unfold try_catch, bind at 1, lift at 1. rewrite Hc. cbn [JSON_parse].
  unfold bind at 1, lift at 1. rewrite Hg, Hne. reflexivity.
Qed.

Lemma on_reply_unmatched (h : nat) (msg : Delivery) (w : World) :
  channel w = ChOpen ->
  matches (rid_of h w) msg = false ->
  exists w',
    MessageBus.on_reply h (Some msg) w = (w', Ok tt)
    /\ rpcs w' = rpcs w /\ channel w' = ChOpen /\ now w' = now w.
Proof.
  intros Hopen Hm. unfold matches in Hm.
  unfold MessageBus.on_reply, bind at 1, gets at 1. fold (rid_of h w).
  unfold try_catch, bind at 1, lift at 1.
  destruct (JSON_parse (content msg)) as [response|] eqn:Ep.
  - unfold bind at 1, lift at 1.
    destruct (get response "requestId") as [rid|] eqn:Eg.
    + rewrite Hm. by eexists.
    + unfold bind, console_error_, modify, MessageBus.chan_send. cbn. rewrite Hopen.
      by eexists.
  - unfold bind, console_error_, modify, MessageBus.chan_send. cbn. rewrite Hopen.
    by eexists.
Qed.

Lemma settle_timeout (v : jsval) (r : Rpc) : timeout (settle v r) = timeout r.
Proof. unfold settle. by destruct (settled r). Qed.

Lemma settle_requestId (v : jsval) (r : Rpc) : requestId (settle v r) = requestId r.
Proof. unfold settle. by destruct (settled r). Qed.

Lemma fired_requestId (t : Z) (r : Rpc) : requestId (fired t r) = requestId r.
Proof.
  unfold fired. destruct (timeout r); [|done].
  destruct (_ <=? _); [|done]. by rewrite settle_requestId.
Qed.

Lemma fired_fired (t : Z) (r : Rpc) : fired t (fired t r) = fired t r.
Proof.
  unfold fired. destruct (timeout r) as [due|] eqn:E; [destruct (due <=? t) eqn:Hd|].
  - rewrite settle_timeout. reflexivity.
  - by rewrite E, Hd.
  - by rewrite E.
Qed.

Lemma fire_due_spec (hs : list nat) :
  forall (w : World) (h : nat) (r : Rpc),
  rpcs w !! h = Some r ->
  exists w',
    MessageBus.fire_due hs w = (w', Ok tt)
    /\ channel w' = channel w
    /\ now w' = now w
    /\ length (rpcs w') = length (rpcs w)
    /\ rpcs w' !! h = Some (if decide (h ∈ hs) then fired (now w) r else r).
Proof.
  induction hs as [|h' hs IH]; intros w h r Hr.
  - eexists. split; [reflexivity|]. rewrite decide_False by apply not_elem_of_nil. done.
  - set (due := match rpcs w !! h' with
                | Some r' => match timeout r' with
                             | Some t => t <=? now w
                             | None => false
                             end
                | None => false
                end).
    set (w1 := if due then set_rpcs (alter (fun r => settle MessageBus.default_response
                                                       (disarm r)) h') w
               else w).
    assert (E1 : MessageBus.fire_due (h' :: hs) w = MessageBus.fire_due hs w1).
    { cbn [MessageBus.fire_due]. unfold bind at 1, gets at 1. fold due.
      unfold w1. destruct due.
      - unfold bind. by rewrite on_timeout_rpcs.
      - reflexivity. }
    assert (Hc1 : channel w1 = channel w) by (unfold w1; by destruct due).
    assert (Hn1 : now w1 = now w) by (unfold w1; by destruct due).
    assert (Hl1 : length (rpcs w1) = length (rpcs w)).
    { unfold w1. destruct due; [|done]. cbn. apply length_alter. }
    assert (Hr1 : rpcs w1 !! h = Some (if decide (h' = h) then fired (now w) r else r)).
    { unfold w1. destruct (decide (h' = h)) as [->|Hne].
      - subst due. rewrite Hr. unfold fired. destruct (timeout r) as [t|]; [|done].
        destruct (t <=? now w); [|done].
        cbn. rewrite list_lookup_alter, decide_True by done. by rewrite Hr.
      - destruct due; [|done]. cbn. by rewrite list_lookup_alter_ne. }
    destruct (IH w1 h _ Hr1) as (w' & E & Hc & Hn & Hl & Hr').
    exists w'. rewrite E1, E, Hc, Hn, Hl, Hr', Hc1, Hn1, Hl1.
    repeat split. f_equal.
    destruct (decide (h' = h)) as [->|Hne].
    + rewrite (decide_True (P := h ∈ h :: hs)) by (apply elem_of_cons; by left).
      rewrite fired_fired. by destruct (decide (h ∈ hs)).
    + destruct (decide (h ∈ hs)) as [Hin|Hnin].
      * by rewrite decide_True by (apply elem_of_cons; by right).
      * rewrite decide_False; [done|]. intros Hin. apply elem_of_cons in Hin as [->|]; done.
Qed.

Lemma bus_step_spec (e : MessageBus.BusEvent) (w : World) (h : nat) (r : Rpc) :
  channel w = ChOpen ->
  rpcs w !! h = Some r ->
  exists w',
    MessageBus.bus_step e w = (w', Ok tt)
    /\ channel w' = ChOpen
    /\ now w' = now w + duration e
    /\ rpcs w' !! h = Some (after_event e h (now w) r).
Proof.
  intros Hopen Hr. destruct e as [h' [msg|]|ms]; cbn [MessageBus.bus_step after_event duration].
  - destruct (matches (rid_of h' w) msg) eqn:Hm.
    + rewrite (on_reply_matched h' msg w Hopen Hm). eexists. split; [reflexivity|].
      cbn. rewrite Z.add_0_r. repeat split; [done|].
      destruct (Nat.eqb_spec h' h) as [->|Hne].
      * unfold rid_of in Hm. rewrite Hr in Hm. cbn in Hm. rewrite Hm. cbn.
        rewrite list_lookup_alter, decide_True by done. by rewrite Hr.
      * cbn. by rewrite list_lookup_alter_ne.
    + destruct (on_reply_unmatched h' msg w Hopen Hm) as (w' & E & Hrp & Hc & Hn).
      exists w'. rewrite E, Hrp, Hn, Z.add_0_r. repeat split; [done|].
      destruct (Nat.eqb_spec h' h) as [->|Hne]; [|done].
      unfold rid_of in Hm. rewrite Hr in Hm. cbn in Hm. by rewrite Hm.
  - eexists. split; [reflexivity|]. by rewrite Z.add_0_r.
  - unfold bind at 1, modify at 1, bind at 1, gets at 1.
    set (w1 := set_now (fun t => t + Z.max 0 ms) w).
    destruct (fire_due_spec (seq 0 (length (rpcs w1))) w1 h r Hr)
      as (w' & E & Hc & Hn & _ & Hr').
    exists w'. rewrite E, Hc, Hn, Hr'. repeat split; [done|]. f_equal.
    rewrite decide_True; [done|]. apply elem_of_seq. apply lookup_lt_Some in Hr.
    change (rpcs w1) with (rpcs w). lia.
Qed.

Lemma bus_run_spec (es : list MessageBus.BusEvent) :
  forall (w : World) (h : nat) (r : Rpc),
  channel w = ChOpen ->
  rpcs w !! h = Some r ->
  exists w',
    MessageBus.bus_run es w = (w', Ok tt)
    /\ channel w' = ChOpen
    /\ now w' = now w + elapsed es
    /\ rpcs w' !! h = Some (after_events es h (now w) r).
Proof.
  induction es as [|e es IH]; intros w h r Hopen Hr.
  - exists w. by rewrite Z.add_0_r.
  - destruct (bus_step_spec e w h r Hopen Hr) as (w1 & E1 & Hc1 & Hn1 & Hr1).
    destruct (IH w1 h _ Hc1 Hr1) as (w' & E & Hc & Hn & Hr').
    exists w'. cbn [MessageBus.bus_run after_events]. unfold bind. rewrite E1, E.
    rewrite Hn, Hn1, Hr', Hn1. repeat split; [done|].
    destruct e as [? [?|]|?]; cbn [elapsed duration]; lia.
Qed.

Lemma after_event_settled (e : MessageBus.BusEvent) (h : nat) (t : Z) (r : Rpc) (v : jsval) :
  settled r = Some v -> settled (after_event e h t r) = Some v.
Proof.
  intros Hs.
  assert (Hst : forall u, settled (settle u (disarm r)) = Some v).
  { intros u. unfold settle. cbn. by rewrite Hs. }
  destruct e as [h' [msg|]|ms]; cbn [after_event]; [|done|].
  - by destruct (_ && _).
  - unfold fired. destruct (timeout r); [|done]. by destruct (_ <=? _).
Qed.

Lemma after_events_settled (es : list MessageBus.BusEvent) (h : nat) :
  forall (t : Z) (r : Rpc) (v : jsval),
  settled r = Some v -> settled (after_events es h t r) = Some v.
Proof.
  induction es as [|e es IH]; intros t r v Hs; [done|].
  cbn [after_events]. apply IH. by apply after_event_settled.
Qed.

Lemma after_events_app (es more : list MessageBus.BusEvent) (h : nat) :
  forall (t : Z) (r : Rpc),
  after_events (es ++ more) h t r
  = after_events more h (t + elapsed es) (after_events es h t r).
Proof.
  induction es as [|e es IH]; intros t r.
  - cbn. by rewrite Z.add_0_r.
  - cbn [app after_events]. rewrite IH. f_equal.
    destruct e as [? [?|]|?]; cbn [elapsed duration]; lia.
Qed.

(** The life of a pending promise: it stays pending while its timer is not
    due, and it is settled either by the timer, with the default, or by a
    reply that carries its correlation id, with the data of that reply. *)
Lemma after_events_pending (es : list MessageBus.BusEvent) (h : nat) (rid : string) (due : Z) :
  forall (t : Z) (r : Rpc),
  requestId r = rid ->
  timeout r = Some due ->
  settled r = None ->
  t < due ->
  let r' := after_events es h t r in
  (settled r' = None /\ t + elapsed es < due)
  \/ (exists v, settled r' = Some v
      /\ (v = MessageBus.default_response /\ due <= t + elapsed es
          \/ exists msg, MessageBus.Deliver h (Some msg) ∈ es
                         /\ matches rid msg = true /\ v = reply_data msg)).
Proof.
  induction es as [|e es IH]; intros t r Hid Hto Hs Ht r'.
  - left. cbn. split; [done|lia].
  - subst r'. cbn [after_events].
    assert (Hel : elapsed (e :: es) = duration e + elapsed es)
      by (destruct e as [? [?|]|?]; cbn [elapsed duration]; lia).
    rewrite Hel.
    assert (Hsame : t + duration e < due ->
              (settled (after_events es h (t + duration e) r) = None
               /\ t + (duration e + elapsed es) < due)
              \/ (exists v, settled (after_events es h (t + duration e) r) = Some v
                  /\ (v = MessageBus.default_response
                      /\ due <= t + (duration e + elapsed es)
                      \/ exists msg, MessageBus.Deliver h (Some msg) ∈ e :: es
                                     /\ matches rid msg = true /\ v = reply_data msg))).
    { intros Ht'. destruct (IH (t + duration e) r Hid Hto Hs Ht') as [[H1 H2]|(v & H1 & H2)].
      - left. split; [done|lia].
      - right. exists v. split; [done|]. destruct H2 as [[-> H2]|(msg & Hin & Hm & ->)].
        + left. split; [done|lia].
        + right. exists msg. split; [|done]. apply elem_of_cons. by right. }
    destruct e as [h' [msg|]|ms]; cbn [after_event duration] in *.
    + destruct (Nat.eqb_spec h' h) as [->|Hne]; cbn [andb].
      * rewrite Hid. destruct (matches rid msg) eqn:Hm.
        -- right. exists (reply_data msg). split.
           ++ apply after_events_settled. unfold settle. cbn. by rewrite Hs.
           ++ right. exists msg. split; [apply elem_of_cons; by left|done].
        -- apply Hsame; lia.
      * apply Hsame; lia.
    + apply Hsame; lia.
    + unfold fired. rewrite Hto. destruct (due <=? t + Z.max 0 ms) eqn:Hd.
      * right. exists MessageBus.default_response. split.
        -- apply after_events_settled. unfold settle. cbn. by rewrite Hs.
        -- left. split; [done|].
           assert (0 <= elapsed es).
           { clear. induction es as [|[? [?|]|?] es IH]; cbn [elapsed]; lia. }
           lia.
      * apply Hsame; lia.
Qed.

(** The two ways [askGameService] can end its synchronous part: set-up went
    through and a promise with an armed timer exists, or anything failed
    and the default was returned. *)
Lemma askGameService_cases (action : string) (data : jsval) (w : World) :
  let declare := AssertQueue (next_replyQueue w) true true true in
  let publish := Publish "game.requests" "game.request"
                   (Json (next_request action data w)) true in
  let went_through :=
    match channel w with ChOpen => true | _ => false end
    && negb (refuses (broker w) (connects w) declare)
    && negb (refuses (broker w) (connects w) publish) in
  exists w1,
    if went_through then
      MessageBus.askGameService action data w
        = (w1, Ok (MessageBus.Promised (length (rpcs w))))
      /\ channel w1 = ChOpen
      /\ now w1 = now w
      /\ rpcs w1 = rpcs w ++ [{| requestId := next_requestId w;
                                 replyQueue := next_replyQueue w;
                                 timeout := Some (now w + MessageBus.timeout_ms);
                                 settled := None |}]
      /\ exit_code w1 = (if refuses (broker w) (connects w) (next_consume w)
                         then Some (default 1 (exit_code w))
                         else exit_code w)
    else
      MessageBus.askGameService action data w
        = (w1, Ok (MessageBus.Returned MessageBus.default_response))
      /\ rpcs w1 = rpcs w.
Proof.
  intros declare publish went_through. subst went_through declare publish.
  unfold next_consume, next_request, next_replyQueue, next_requestId.
  unfold MessageBus.askGameService, bind, Date_now, gets, Math_random, try_catch,
    MessageBus.chan, modify, ret, console_error_, MessageBus.exchanges_gameRequests,
    JSON_stringify, unhandledRejection, process_exit, modify.
  destruct (random w) as [|x rest]; cbn;
    (destruct (channel w) eqn:Hch; cbn;
     [eexists; split; reflexivity | | eexists; split; reflexivity]).
  all: destruct (refuses (broker w) (connects w) (AssertQueue _ _ _ _)) eqn:Hq;
    cbn; [eexists; split; reflexivity|].
  all: rewrite ?Hch; cbn.
  all: destruct (refuses (broker w) (connects w) (Publish _ _ _ _)) eqn:Hp;
    cbn; [eexists; split; reflexivity|].
  all: rewrite ?Hch; cbn.
  all: destruct (refuses (broker w) (connects w) (Consume _ _)) eqn:Hc;
    cbn; eexists; repeat split; try reflexivity; cbn; rewrite ?Hch; try done.
  all: by destruct (exit_code w).
Qed.



(** C6, as the code has it.  A reply that parses but carries another
    correlation id than the promise is dropped without a trace: the
    callback returns with the world unchanged, so the message is neither
    acknowledged nor negatively acknowledged (and the promise is not
    resolved).  Only a reply that cannot be parsed is nacked. *)
Theorem C6_mismatched_reply_is_not_nacked (h : nat) (msg : Delivery) (w : World)
    (response answered : jsval) :
  content msg = Json response ->
  get response "requestId" = Ok answered ->
  is_str answered (rid_of h w) = false ->
  MessageBus.on_reply h (Some msg) w = (w, Ok tt)
  /\ chan_log (exec (MessageBus.on_reply h (Some msg)) w) = chan_log w
  /\ outcome h (exec (MessageBus.on_reply h (Some msg)) w) = outcome h w.
Proof.
  intros Hc Hg Hne.
  pose proof (on_reply_mismatched h msg w response answered Hc Hg Hne) as E.
  unfold exec. by rewrite E.
Qed.

Lemma C6_mismatched_reply_is_not_nacked_witness :
  is_str (VStr "1699999999999-0.99") (rid_of 0 asking) = false
  /\ MessageBus.on_reply 0 (Some stray) asking = (asking, Ok tt)
  /\ chan_log (exec (MessageBus.on_reply 0 (Some stray)) asking) = chan_log asking.
Proof.
  assert (H : is_str (VStr "1699999999999-0.99") (rid_of 0 asking) = false)
    by (vm_compute; reflexivity).
  split; [exact H|].
  destruct (C6_mismatched_reply_is_not_nacked 0 stray asking _ _ eq_refl eq_refl H)
    as (E1 & E2 & _).
  split; [exact E1|exact E2].
Defined.

(** The sibling path: a reply that is not JSON is nacked. *)
Lemma garbled_reply_is_nacked :
  chan_log (exec (MessageBus.on_reply 0 (Some garbled)) asking)
  = chan_log asking ++ [Nack 8 false false].
Proof. vm_compute. reflexivity. Qed.

Lemma promise_has_one_outcome (action : string) (data : jsval) (w w1 : World)
    (h : nat) (during : list MessageBus.BusEvent) :
  MessageBus.askGameService action data w = (w1, Ok (MessageBus.Promised h)) ->
  let rid := next_requestId w in
  let w2 := exec (MessageBus.bus_run during) w1 in
  MessageBus.timeout_ms = 1000
  /\ eval (MessageBus.bus_run during) w1 = Ok tt
  /\ ((forall e, e ∈ during -> answers h rid e = false) ->
      MessageBus.timeout_ms <= elapsed during ->
      outcome h w2 = Some MessageBus.default_response)
  /\ (MessageBus.timeout_ms <= elapsed during -> is_Some (outcome h w2))
  /\ (forall v, outcome h w2 = Some v ->
      v = MessageBus.default_response
      \/ exists msg, MessageBus.Deliver h (Some msg) ∈ during
                     /\ matches rid msg = true /\ v = reply_data msg)
  /\ (forall v more, outcome h w2 = Some v ->
      outcome h (exec (MessageBus.bus_run more) w2) = Some v).
Proof.
  intros Hask rid w2.
  destruct (askGameService_cases action data w) as [w1' H]. cbv zeta in H.
  destruct (_ && _ && _).
  2:{ destruct H as [E _]. rewrite E in Hask. discriminate. }
  destruct H as (E & Hopen & Hnow & Hrpcs & _). rewrite E in Hask.
  injection Hask as -> <-.
  set (r0 := {| requestId := next_requestId w; replyQueue := next_replyQueue w;
                timeout := Some (now w + MessageBus.timeout_ms); settled := None |}).
  assert (Hr0 : rpcs w1 !! length (rpcs w) = Some r0).
  { rewrite Hrpcs. by apply list_lookup_middle. }
  destruct (bus_run_spec during w1 _ r0 Hopen Hr0) as (w2' & Erun & Hopen2 & Hnow2 & Hr2).
  assert (Hw2 : w2 = w2') by (unfold w2, exec; by rewrite Erun).
  assert (Hout : outcome (length (rpcs w)) w2
                 = settled (after_events during (length (rpcs w)) (now w1) r0)).
  { unfold outcome. by rewrite Hw2, Hr2. }
  assert (Hlt : now w1 < now w + MessageBus.timeout_ms)
    by (rewrite Hnow; unfold MessageBus.timeout_ms; lia).
  pose proof (after_events_pending during (length (rpcs w)) rid
                (now w + MessageBus.timeout_ms) (now w1) r0 eq_refl eq_refl eq_refl Hlt)
    as Hlife. cbv zeta in Hlife. rewrite <- Hout in Hlife.
  split; [reflexivity|]. split; [unfold eval; by rewrite Erun|].
  split; [|split; [|split]].
  - intros Hun Hel. destruct Hlife as [[_ Hp]|(v & Hv & [[-> _]|(msg & Hin & Hm & _)])].
    + lia.
    + exact Hv.
    + specialize (Hun _ Hin). cbn in Hun. by rewrite Nat.eqb_refl, Hm in Hun.
  - intros Hel. destruct Hlife as [[_ Hp]|(v & Hv & _)]; [lia|]. by rewrite Hv.
  - intros v Hv. destruct Hlife as [[Hp _]|(v' & Hv' & Hwhy)]; [congruence|].
    assert (v' = v) by congruence. subst v'.
    destruct Hwhy as [[-> _]|Hmsg]; [by left|by right].
  - intros v more Hv.
    assert (Hr2' : rpcs w2 !! length (rpcs w)
                   = Some (after_events during (length (rpcs w)) (now w1) r0))
      by (by rewrite Hw2).
    assert (Hopen2' : channel w2 = ChOpen) by (by rewrite Hw2).
    destruct (bus_run_spec more w2 _ _ Hopen2' Hr2') as (w3 & Erun3 & _ & _ & Hr3).
    unfold outcome, exec. rewrite Erun3. cbn [fst]. rewrite Hr3. cbn.
    apply after_events_settled. by rewrite <- Hout.
Qed.

(** A caller that awaits promise [h] while the events of [during] happen
    resumes with the value the promise has after them, if it has one. *)
Lemma await_promise_outcome (h : nat) (during : list MessageBus.BusEvent) :
  forall (w : World) (r : Rpc),
  channel w = ChOpen ->
  rpcs w !! h = Some r ->
  eval (MessageBus.await_promise h during) w
  = Ok (outcome h (exec (MessageBus.bus_run during) w)).
Proof.
  induction during as [|e during IH]; intros w r Hopen Hr.
  - unfold eval, outcome, exec. cbn. unfold bind, gets. rewrite Hr. cbn.
    by destruct (settled r).
  - destruct (bus_step_spec e w h r Hopen Hr) as (w1 & E1 & Hc1 & Hn1 & Hr1).
    destruct (bus_run_spec during w1 h _ Hc1 Hr1) as (w2 & E2 & _ & _ & Hr2).
    assert (Hall : outcome h (exec (MessageBus.bus_run (e :: during)) w)
                   = settled (after_events during h (now w1) (after_event e h (now w) r))).
    { unfold outcome, exec. cbn [MessageBus.bus_run]. unfold bind. rewrite E1, E2.
      cbn [fst]. by rewrite Hr2. }
    rewrite Hall. unfold eval. cbn [MessageBus.await_promise].
    unfold bind at 1, gets at 1. rewrite Hr. cbn [mbind option_bind].
    destruct (settled r) as [v|] eqn:Es.
    + cbn. symmetry. f_equal. apply after_events_settled. by apply after_event_settled.
    + unfold bind. rewrite E1.
      specialize (IH w1 _ Hc1 Hr1). unfold eval in IH. rewrite IH.
      unfold outcome, exec. rewrite E2. cbn [fst]. by rewrite Hr2.
Qed.

(** C3, as the code has it.  A call of [askGameService] in a running
    process does not always end in one of the two ways.  Either the set-up
    failed and the default {isGameActive: false, isCorrect: false} is
    returned at once, or a promise exists whose timer is set to 1000 ms.

    When the broker has accepted the consumer of the reply queue, the
    promise has exactly one outcome: if the reply queue never delivers a
    reply with the correlation id of the call, the promise is resolved with
    the default once 1000 ms have passed; whatever is delivered, the wait
    itself never fails, the promise is settled by the time 1000 ms have
    passed, its value is the default or the data of a reply with its
    correlation id, once it has a value no later event changes it, and a
    caller that awaits the promise resumes with that value.

    When the broker refuses the consumer, nothing handles the rejection:
    the process ends with exit code 1, and a caller that awaits the promise
    never resumes, whatever happens and however long it takes: the request
    has neither a reply nor the default. *)
Theorem C3_refused_consumer_leaves_no_outcome (action : string) (data : jsval) (w : World)
    (during : list MessageBus.BusEvent) :
  exit_code w = None ->
  let rid := next_requestId w in
  let w1 := exec (MessageBus.askGameService action data) w in
  MessageBus.timeout_ms = 1000
  /\ match eval (MessageBus.askGameService action data) w with
     | Throw _ => False
     | Ok (MessageBus.Returned v) => v = MessageBus.default_response
     | Ok (MessageBus.Promised h) =>
         let w2 := exec (MessageBus.bus_run during) w1 in
         if refuses (broker w) (connects w) (next_consume w)
         then
           exit_code w1 = Some 1
           /\ MessageBus.await (MessageBus.Promised h) during w1 = (w1, Ok None)
         else
           exit_code w1 = None
           /\ eval (MessageBus.bus_run during) w1 = Ok tt
           /\ eval (MessageBus.await (MessageBus.Promised h) during) w1 = Ok (outcome h w2)
           /\ ((forall e, e ∈ during -> answers h rid e = false) ->
               MessageBus.timeout_ms <= elapsed during ->
               outcome h w2 = Some MessageBus.default_response)
           /\ (MessageBus.timeout_ms <= elapsed during -> is_Some (outcome h w2))
           /\ (forall v, outcome h w2 = Some v ->
               v = MessageBus.default_response
               \/ exists msg, MessageBus.Deliver h (Some msg) ∈ during
                              /\ matches rid msg = true /\ v = reply_data msg)
           /\ (forall v more, outcome h w2 = Some v ->
               outcome h (exec (MessageBus.bus_run more) w2) = Some v)
     end.
Proof.
  intros Hrun rid w1. split; [reflexivity|].
  destruct (askGameService_cases action data w) as [w1' H]. cbv zeta in H.
  destruct (_ && _ && _).
  - destruct H as (E & Hopen & _ & Hrpcs & Hexit). rewrite Hrun in Hexit.
    assert (Hw1 : w1 = w1') by (unfold w1, exec; by rewrite E).
    unfold eval at 1. rewrite E. cbn [snd]. rewrite Hw1.
    destruct (refuses (broker w) (connects w) (next_consume w)).
    + split; [exact Hexit|].
      cbn [MessageBus.await]. unfold bind, gets. by rewrite Hexit.
    + destruct (promise_has_one_outcome action data w w1' _ during E) as (_ & Hrun' & H).
      split; [exact Hexit|]. split; [exact Hrun'|]. split; [|exact H].
      unfold eval. cbn [MessageBus.await]. unfold bind at 1, gets at 1. rewrite Hexit.
      eapply (await_promise_outcome _ during w1'); [exact Hopen|].
      rewrite Hrpcs. by apply list_lookup_middle.
  - destruct H as (E & _). unfold eval. by rewrite E.
Qed.

Lemma C3_refused_consumer_leaves_no_outcome_witness :
  let ask := MessageBus.askGameService "check-guess" (VObj [("guess", VStr "apple")]) in
  exit_code unheard = None
  /\ eval ask unheard = Ok (MessageBus.Promised 0)
  /\ exit_code (exec ask unheard) = Some 1
  /\ eval (MessageBus.await (MessageBus.Promised 0) [MessageBus.Elapse 5000]) (exec ask unheard)
     = Ok None.
Proof.
  intros ask.
  pose proof (C3_refused_consumer_leaves_no_outcome "check-guess"
                (VObj [("guess", VStr "apple")]) unheard [MessageBus.Elapse 5000]
                eq_refl) as [_ H].
  change (eval (MessageBus.askGameService "check-guess" (VObj [("guess", VStr "apple")]))
            unheard) with (@Ok MessageBus.Asked (MessageBus.Promised 0)) in H.
  change (refuses (broker unheard) (connects unheard) (next_consume unheard))
    with true in H.
  destruct H as [E1 E2].
  split; [reflexivity|]. split; [reflexivity|]. split; [exact E1|].
  unfold eval, ask. by rewrite E2.
Defined.

(** ** Game events *)

(** C9. Dispatching an envelope of type 'new-round' emits one 'new-round'
    event to the room of the envelope, carrying the round of its data (3
    for data.round = 3) and the message "New round started! Chat cleared.";
    nothing else is emitted, and the cache, hence every chat history, is
    as it was. *)
Theorem C9_new_round_is_relayed (tag : nat) (fields : list (string * jsval))
    (data round : jsval) (w : World) :
  io_ready w = true ->
  assoc "type" fields = VStr "new-round" ->
  assoc "data" fields = data ->
  get data "round" = Ok round ->
  let w' := exec (MessageBus.handleGameEvent
                    {| deliveryTag := tag; content := Json (VObj fields) |}) w in
  outbox w' = outbox w ++ [new_round_notice (assoc "roomCode" fields) round]
  /\ redis w' = redis w
  /\ (forall room, RedisSingleton.getChatHistory room w'
                   = (w', eval (RedisSingleton.getChatHistory room) w))
  /\ console_error w' = console_error w.
Proof.
  intros Hio Hty Hda Hro w'.
  assert (E : w' = set_outbox (fun l => l ++ [new_round_notice (assoc "roomCode" fields) round]) w).
  { unfold w', exec, MessageBus.handleGameEvent, try_catch, bind, lift,
      SocketSingleton.getIO. cbn [content JSON_parse get].
    rewrite Hio, Hty, Hda. cbn [is_str String.eqb Ascii.eqb Bool.eqb].
    rewrite Hro. reflexivity. }
  rewrite E. repeat split.
  intros room. unfold eval. rewrite !getChatHistory_eq. reflexivity.
Qed.

Lemma C9_new_round_is_relayed_witness :
  io_ready started = true
  /\ outbox (exec (MessageBus.handleGameEvent round_three) started)
     = [new_round_notice (VStr "ABCD") (VNum 3)]
  /\ redis (exec (MessageBus.handleGameEvent round_three) started) = redis started.
Proof.
  split; [reflexivity|].
  destruct (C9_new_round_is_relayed 3
              [("type", VStr "new-round"); ("roomCode", VStr "ABCD");
               ("data", VObj [("round", VNum 3)])]
              (VObj [("round", VNum 3)]) (VNum 3) started
              eq_refl eq_refl eq_refl eq_refl) as (E1 & E2 & _).
  split; [exact E1|exact E2].
Defined.

(* ===================================================================== *)
(** * Further properties                                                  *)
(* ===================================================================== *)

(** ** History and membership in the cache *)

Lemma string_app_inj_l (s t1 t2 : string) : s +:+ t1 = s +:+ t2 -> t1 = t2.
Proof. apply (inj (String.app s)). Qed.

Lemma users_key_inj (r1 r2 : string) :
  RedisSingleton.users_key r1 = RedisSingleton.users_key r2 -> r1 = r2.
Proof.
  unfold RedisSingleton.users_key. intros H.
  apply string_app_inj_l in H. by apply string_app_inj_r in H.
Qed.

(** X1. The history of a room is the last 100 of everything that was ever
    appended to it: when the room holds the messages [h0] (oldest first; none
    for a room the cache does not know), then after any sequence of
    [storeChatMessage] calls [getChatHistory] returns the last 100 of [h0]
    followed by the messages appended to the room, oldest first -- all of
    them while there are at most 100. *)
Theorem history_is_last_100_of_everything (room : string) (h0 : list jsval)
    (calls : list (string * jsval)) (w : World) :
  let everything := h0 ++ appended room calls in
  let w' := exec (store_all calls) w in
  stored room w = Json <$> reverse h0 ->
  (length h0 <= 100)%nat \/ appended room calls <> [] ->
  RedisSingleton.getChatHistory room w'
  = (w', Ok (drop (length everything - 100) everything)).
Proof.
  intros everything w' Hst Hok. rewrite getChatHistory_eq. f_equal.
  unfold w'. rewrite stored_store_all, Hst.
  destruct (appended room calls) as [|m ms] eqn:E.
  - destruct Hok as [Hlen|]; [|done]. subst everything. rewrite app_nil_r.
    rewrite map_result_parse_json, reverse_involutive.
    replace (length h0 - 100)%nat with 0%nat by lia. done.
  - rewrite <- fmap_reverse, <- fmap_app, <- reverse_app. fold everything.
    rewrite <- fmap_take, map_result_parse_json.
    by rewrite reverse_take, length_reverse, reverse_involutive.
Qed.

Lemma history_is_last_100_of_everything_witness :
  stored "ABCD" started = Json <$> reverse []
  /\ eval (RedisSingleton.getChatHistory "ABCD") (exec (store_all (numbered 3)) started)
     = Ok [VNum 0; VNum 1; VNum 2]
  /\ eval (RedisSingleton.getChatHistory "nowhere") (exec (store_all (numbered 3)) started)
     = Ok [].
Proof.
  assert (H : forall room, stored room started = Json <$> reverse []) by done.
  split; [apply H|]. unfold eval. split.
  - rewrite (history_is_last_100_of_everything "ABCD" [] (numbered 3) started (H _));
      [reflexivity|left; cbn; lia].
  - rewrite (history_is_last_100_of_everything "nowhere" [] (numbered 3) started (H _));
      [reflexivity|left; cbn; lia].
Defined.

Lemma getRoomUsers_eq (room : string) (w : World) :
  RedisSingleton.getRoomUsers room w = (w, parse_members (members room w)).
Proof. reflexivity. Qed.

Lemma set_property_comm (j1 j2 : string) (v1 v2 : jsval) (o : gmap string jsval) :
  j1 <> j2 ->
  set_property j1 v1 (set_property j2 v2 o) = set_property j2 v2 (set_property j1 v1 o).
Proof.
  intros Hne. unfold set_property.
  destruct (String.eqb j1 "__proto__"), (String.eqb j2 "__proto__"); try done.
  by apply insert_insert_ne.
Qed.

Lemma parse_members_json (m : gmap string jsval) :
  m !! "__proto__" = None -> parse_members (Json <$> m) = Ok m.
Proof.
  induction m as [|i x m Hi IH] using map_ind; intros Hp.
  - unfold parse_members. by rewrite fmap_empty, map_fold_empty.
  - unfold parse_members in *. rewrite fmap_insert, map_fold_insert_L.
    + assert (Hi' : i <> "__proto__") by (intros ->; by rewrite lookup_insert_eq in Hp).
      rewrite lookup_insert_ne in Hp by done.
      rewrite (IH Hp). cbn [JSON_parse]. unfold set_property.
      apply String.eqb_neq in Hi'. by rewrite Hi'.
    + intros j1 j2 z1 z2 y Hne H1 H2.
      rewrite <- fmap_insert in H1, H2. rewrite lookup_fmap in H1, H2.
      destruct (<[i:=x]> m !! j1) as [a|]; [|done].
      destruct (<[i:=x]> m !! j2) as [b|]; [|done].
      cbn in H1, H2. injection H1 as <-. injection H2 as <-. cbn.
      destruct y as [p|e]; [|done]. f_equal. by apply set_property_comm.
    + by rewrite lookup_fmap, Hi.
Qed.

Lemma members_add_same (room userId : string) (userData : jsval) (w : World) :
  members room (exec (RedisSingleton.addUserToRoom room userId userData) w)
  = <[userId := Json userData]> (members room w).
Proof.
  unfold members, exec, RedisSingleton.addUserToRoom, modify, Redis.hGetAll, Redis.hSet. cbn.
  by rewrite lookup_insert_eq.
Qed.

Lemma members_add_other (room room' userId : string) (userData : jsval) (w : World) :
  room <> room' ->
  members room' (exec (RedisSingleton.addUserToRoom room userId userData) w)
  = members room' w.
Proof.
  intros Hne.
  assert (RedisSingleton.users_key room <> RedisSingleton.users_key room')
    by (intros H; by apply users_key_inj in H).
  unfold members, exec, RedisSingleton.addUserToRoom, modify, Redis.hGetAll, Redis.hSet. cbn.
  by rewrite lookup_insert_ne.
Qed.

Lemma members_remove_same (room userId : string) (w : World) :
  members room (exec (RedisSingleton.removeUserFromRoom room userId) w)
  = delete userId (members room w).
Proof.
  unfold members, exec, RedisSingleton.removeUserFromRoom, modify, Redis.hGetAll, Redis.hDel.
  cbn. destruct (Redis.hashes (redis w) !! RedisSingleton.users_key room) as [h|] eqn:E.
  - cbn. destruct (decide (delete userId h = ∅)) as [He|He].
    + rewrite lookup_delete_eq. cbn. by rewrite He.
    + by rewrite lookup_insert_eq.
  - rewrite E. cbn. by rewrite delete_empty.
Qed.

Lemma members_remove_other (room room' userId : string) (w : World) :
  room <> room' ->
  members room' (exec (RedisSingleton.removeUserFromRoom room userId) w)
  = members room' w.
Proof.
  intros Hne.
  assert (RedisSingleton.users_key room <> RedisSingleton.users_key room')
    by (intros H; by apply users_key_inj in H).
  unfold members, exec, RedisSingleton.removeUserFromRoom, modify, Redis.hGetAll, Redis.hDel.
  cbn. destruct (Redis.hashes (redis w) !! RedisSingleton.users_key room) as [h|] eqn:E; [|done].
  cbn. destruct (decide (delete userId h = ∅)).
  - by rewrite lookup_delete_ne.
  - by rewrite lookup_insert_ne.
Qed.

Lemma stored_add (room room' userId : string) (userData : jsval) (w : World) :
  stored room' (exec (RedisSingleton.addUserToRoom room userId userData) w) = stored room' w.
Proof. reflexivity. Qed.

Lemma stored_remove (room room' userId : string) (w : World) :
  stored room' (exec (RedisSingleton.removeUserFromRoom room userId) w) = stored room' w.
Proof.
  unfold stored, exec, RedisSingleton.removeUserFromRoom, modify, Redis.hDel. cbn.
  by destruct (Redis.hashes (redis w) !! RedisSingleton.users_key room).
Qed.

Lemma members_store (room room' : string) (message : jsval) (w : World) :
  members room' (exec (RedisSingleton.storeChatMessage room message) w) = members room' w.
Proof.
  unfold members, exec, RedisSingleton.storeChatMessage, bind, modify, Redis.lTrim, Redis.lPush.
  cbn. rewrite lookup_insert_eq.
  by destruct (Redis.slice _ 0 99).
Qed.

(** X2. Appending to the history of one room changes nothing else in the
    cache: the history of every other room and the members of every room
    read as before. *)
Theorem store_touches_one_history (room : string) (message : jsval) (w : World) :
  let w' := exec (RedisSingleton.storeChatMessage room message) w in
  (forall other, other <> room ->
     eval (RedisSingleton.getChatHistory other) w'
     = eval (RedisSingleton.getChatHistory other) w)
  /\ (forall any,
     eval (RedisSingleton.getRoomUsers any) w' = eval (RedisSingleton.getRoomUsers any) w).
Proof.
  intros w'. split.
  - intros other Hne. unfold eval. rewrite !getChatHistory_eq. cbn [snd].
    unfold w'. by rewrite stored_store_other.
  - intros any. unfold eval. rewrite !getRoomUsers_eq. cbn [snd].
    unfold w'. by rewrite members_store.
Qed.

(** X3. Membership is a map from user ids to records.  The records are
    values that JSON can write ([json_value]: no [undefined] inside, which
    [JSON.stringify] would leave out), and no user id is [__proto__], which
    names no property of the object [getRoomUsers] returns.  When the hash of a room holds the
    records [m], then after [addUserToRoom] [getRoomUsers] returns [m] with
    the user's record inserted (replacing an earlier one), and after
    [removeUserFromRoom] it returns [m] without the user -- [m] itself when
    the user was no member.  The members of other rooms and all histories
    read as before. *)
Theorem membership_is_a_map (room userId : string) (userData : jsval)
    (m : gmap string jsval) (w : World) :
  userId <> "__proto__" ->
  m !! "__proto__" = None ->
  json_value userData = true ->
  map_Forall (fun _ record => json_value record = true) m ->
  members room w = Json <$> m ->
  let added := exec (RedisSingleton.addUserToRoom room userId userData) w in
  let removed := exec (RedisSingleton.removeUserFromRoom room userId) w in
  eval (RedisSingleton.getRoomUsers room) added = Ok (<[userId := userData]> m)
  /\ eval (RedisSingleton.getRoomUsers room) removed = Ok (delete userId m)
  /\ (m !! userId = None -> eval (RedisSingleton.getRoomUsers room) removed = Ok m)
  /\ (forall other, other <> room ->
      eval (RedisSingleton.getRoomUsers other) added
      = eval (RedisSingleton.getRoomUsers other) w
      /\ eval (RedisSingleton.getRoomUsers other) removed
        = eval (RedisSingleton.getRoomUsers other) w)
  /\ (forall any,
      eval (RedisSingleton.getChatHistory any) added
      = eval (RedisSingleton.getChatHistory any) w
      /\ eval (RedisSingleton.getChatHistory any) removed
        = eval (RedisSingleton.getChatHistory any) w).
Proof.
  intros Hu Hp _ _ Hm added removed. unfold eval.
  assert (Hd : delete userId m !! "__proto__" = None)
    by (by rewrite lookup_delete_ne).
  split; [|split; [|split; [|split]]].
  - rewrite getRoomUsers_eq. cbn [snd]. unfold added.
    rewrite members_add_same, Hm, <- fmap_insert, parse_members_json; [done|].
    by rewrite lookup_insert_ne.
  - rewrite getRoomUsers_eq. cbn [snd]. unfold removed.
    by rewrite members_remove_same, Hm, <- fmap_delete, parse_members_json.
  - intros Hno. rewrite getRoomUsers_eq. cbn [snd]. unfold removed.
    rewrite members_remove_same, Hm, <- fmap_delete, parse_members_json by done.
    by rewrite delete_id.
  - intros other Hne. rewrite !getRoomUsers_eq. cbn [snd]. unfold added, removed.
    by rewrite members_add_other, members_remove_other.
  - intros any. rewrite !getChatHistory_eq. cbn [snd]. unfold added, removed.
    by rewrite stored_add, stored_remove.
Qed.

Lemma membership_is_a_map_witness :
  members "ABCD" bob_joined
  = Json <$> {[ "u2" := member_record (Some "bob") "s2" 1700000000000 ]}
  /\ json_value (member_record (Some "bob") "s2" 1700000000000) = true
  /\ eval (RedisSingleton.getRoomUsers "ABCD")
       (exec (RedisSingleton.removeUserFromRoom "ABCD" "u2") bob_joined) = Ok ∅
  /\ eval (RedisSingleton.getRoomUsers "ABCD")
       (exec (RedisSingleton.removeUserFromRoom "ABCD" "u9") bob_joined)
     = Ok {[ "u2" := member_record (Some "bob") "s2" 1700000000000 ]}.
Proof.
  assert (H : members "ABCD" bob_joined
              = Json <$> {[ "u2" := member_record (Some "bob") "s2" 1700000000000 ]})
    by (vm_compute; reflexivity).
  assert (J : json_value (member_record (Some "bob") "s2" 1700000000000) = true)
    by reflexivity.
  assert (A : map_Forall (fun (_ : string) record => json_value record = true)
                ({[ "u2" := member_record (Some "bob") "s2" 1700000000000 ]}
                   : gmap string jsval))
    by (apply map_Forall_singleton; exact J).
  assert (P : ({[ "u2" := member_record (Some "bob") "s2" 1700000000000 ]}
                 : gmap string jsval) !! "__proto__" = None)
    by (by apply lookup_singleton_ne).
  split; [exact H|]. split; [exact J|].
  destruct (membership_is_a_map "ABCD" "u2" VNull _ bob_joined
              ltac:(discriminate) P eq_refl A H) as (_ & E & _).
  destruct (membership_is_a_map "ABCD" "u9" VNull _ bob_joined
              ltac:(discriminate) P eq_refl A H) as (_ & _ & E' & _).
  split.
  - rewrite E. by rewrite delete_singleton_eq.
  - apply E'. by apply lookup_singleton_ne.
Defined.

Lemma store_touches_one_history_witness :
  "WXYZ" <> "ABCD"
  /\ eval (RedisSingleton.getChatHistory "WXYZ")
       (exec (RedisSingleton.storeChatMessage "ABCD" (VStr "hi"))
          (exec (store_all (numbered 2)) started))
     = Ok [VStr "hello"; VStr "hello"].
Proof.
  assert (H : "WXYZ" <> "ABCD") by discriminate.
  split; [exact H|].
  destruct (store_touches_one_history "ABCD" (VStr "hi") (exec (store_all (numbered 2)) started))
    as [E _].
  rewrite (E "WXYZ" H). vm_compute. reflexivity.
Defined.

(** ** Joining a room *)

Lemma join_runs (socket : string) (d : JoinData) (w : World) :
  truthy_str (join_roomCode d) = true ->
  truthy_str (join_userId d) = true ->
  Common.handleJoinChatRoom socket (Some d) w
  = match map_result JSON_parse (stored (str (join_roomCode d)) w) with
    | Ok parsed =>
        (set_outbox (fun l => (l ++ [history_event socket (reverse parsed)])
                                ++ [arrival socket d]) (admitted socket d w), Ok tt)
    | Throw e =>
        (set_outbox (fun l => l ++ [join_failure socket])
           (set_console_error (fun l => l ++ ["Error handling join chat room:"])
              (admitted socket d w)), Ok tt)
    end.
Proof.
  intros Hr Hu.
  unfold Common.handleJoinChatRoom, try_catch, bind at 1, destructure, ret at 1.
  rewrite Hr, Hu. cbn [negb orb].
  unfold bind, Date_now, gets. unfold update_socket at 1, modify at 1.
  unfold socket_join at 1, update_socket at 1, modify at 1.
  unfold RedisSingleton.addUserToRoom at 1, modify at 1.
  rewrite getChatHistory_eq.
  change (stored ?r (set_redis ?f ?v)) with (stored r v).
  change (stored ?r (set_sockets ?f ?v)) with (stored r v).
  change (stored ?r (set_sockets ?f ?v)) with (stored r v).
  destruct (map_result JSON_parse (stored (str (join_roomCode d)) w)); reflexivity.
Qed.

Lemma admitted_socket (socket : string) (d : JoinData) (w : World) :
  socket_of socket (admitted socket d w)
  = {| roomCode := join_roomCode d; userId := join_userId d; username := join_username d;
       rooms := {[ str (join_roomCode d) ]} ∪ rooms (socket_of socket w) |}.
Proof.
  unfold admitted, exec, bind, update_socket, socket_join, update_socket, modify,
    RedisSingleton.addUserToRoom, modify. cbn.
  unfold socket_of. cbn. rewrite lookup_insert_eq. cbn.
  unfold socket_of. cbn. by rewrite lookup_insert_eq.
Qed.

Lemma admitted_other_socket (socket other : string) (d : JoinData) (w : World) :
  other <> socket ->
  socket_of other (admitted socket d w) = socket_of other w.
Proof.
  intros Hne.
  unfold admitted, exec, bind, update_socket, socket_join, update_socket, modify,
    RedisSingleton.addUserToRoom, modify. cbn.
  unfold socket_of. cbn. by rewrite !lookup_insert_ne.
Qed.

Lemma admitted_split (socket : string) (d : JoinData) (w : World) :
  admitted socket d w
  = exec (RedisSingleton.addUserToRoom (str (join_roomCode d)) (str (join_userId d))
            (member_record (join_username d) socket (now w)))
      (exec (update_socket socket (fun s =>
               {| roomCode := join_roomCode d; userId := join_userId d;
                  username := join_username d; rooms := rooms s |}) ;;;
             socket_join socket (str (join_roomCode d))) w).
Proof. reflexivity. Qed.

Lemma admitted_members (socket : string) (d : JoinData) (w : World) :
  members (str (join_roomCode d)) (admitted socket d w)
  = <[str (join_userId d) := Json (member_record (join_username d) socket (now w))]>
      (members (str (join_roomCode d)) w).
Proof. rewrite admitted_split, members_add_same. reflexivity. Qed.

Lemma admitted_other_members (socket other : string) (d : JoinData) (w : World) :
  other <> str (join_roomCode d) ->
  members other (admitted socket d w) = members other w.
Proof.
  intros Hne. rewrite admitted_split, members_add_other by done. reflexivity.
Qed.

Lemma admitted_frame (socket : string) (d : JoinData) (w : World) :
  outbox (admitted socket d w) = outbox w
  /\ console_error (admitted socket d w) = console_error w
  /\ Redis.lists (redis (admitted socket d w)) = Redis.lists (redis w)
  /\ now (admitted socket d w) = now w
  /\ channel (admitted socket d w) = channel w
  /\ chan_log (admitted socket d w) = chan_log w
  /\ rpcs (admitted socket d w) = rpcs w.
Proof. done. Qed.

(** X4. A join request with a room code and a user id, in a room whose
    history can be read: the socket gets the three properties and is
    subscribed to the room, the member is written to the cache under the
    user id with the socket id and the time of the join, the requester
    (nobody else) is sent the history of the room as [getChatHistory] gives
    it, then the others in the room are told of the arrival.  No error is
    logged, no history changes, and no other connection is touched. *)
Theorem join_admits_and_announces (socket : string) (d : JoinData)
    (history : list jsval) (w : World) :
  truthy_str (join_roomCode d) = true ->
  truthy_str (join_userId d) = true ->
  eval (RedisSingleton.getChatHistory (str (join_roomCode d))) w = Ok history ->
  let w' := exec (Common.handleJoinChatRoom socket (Some d)) w in
  socket_of socket w'
  = {| roomCode := join_roomCode d; userId := join_userId d; username := join_username d;
       rooms := {[ str (join_roomCode d) ]} ∪ rooms (socket_of socket w) |}
  /\ members (str (join_roomCode d)) w'
     = <[str (join_userId d) := Json (member_record (join_username d) socket (now w))]>
         (members (str (join_roomCode d)) w)
  /\ outbox w' = outbox w ++ [history_event socket history; arrival socket d]
  /\ console_error w' = console_error w
  /\ (forall any, stored any w' = stored any w)
  /\ (forall other, other <> socket -> socket_of other w' = socket_of other w).
Proof.
  intros Hr Hu Hh w'.
  unfold eval in Hh. rewrite getChatHistory_eq in Hh. cbn [snd] in Hh.
  assert (E : w' = set_outbox (fun l => (l ++ [history_event socket history])
                                          ++ [arrival socket d]) (admitted socket d w)).
  { unfold w', exec. rewrite (join_runs socket d w Hr Hu).
    destruct (map_result JSON_parse (stored (str (join_roomCode d)) w)); [|discriminate].
    injection Hh as <-. reflexivity. }
  rewrite E. split; [apply admitted_socket|]. split; [apply admitted_members|].
  split; [cbn; by rewrite <- app_assoc|]. split; [done|]. split; [done|].
  intros other Hne. by apply admitted_other_socket.
Qed.

Lemma join_admits_and_announces_witness :
  truthy_str (join_roomCode bob_joins) = true
  /\ truthy_str (join_userId bob_joins) = true
  /\ eval (RedisSingleton.getChatHistory "ABCD") (exec (store_all (numbered 2)) started)
     = Ok [VNum 0; VNum 1]
  /\ outbox (exec (Common.handleJoinChatRoom "s2" (Some bob_joins))
               (exec (store_all (numbered 2)) started))
     = [history_event "s2" [VNum 0; VNum 1]; arrival "s2" bob_joins].
Proof.
  assert (Hh : eval (RedisSingleton.getChatHistory (str (join_roomCode bob_joins)))
                 (exec (store_all (numbered 2)) started) = Ok [VNum 0; VNum 1])
    by (vm_compute; reflexivity).
  split; [reflexivity|]. split; [reflexivity|]. split; [exact Hh|].
  destruct (join_admits_and_announces "s2" bob_joins _ _ eq_refl eq_refl Hh)
    as (_ & _ & E & _).
  exact E.
Defined.

Lemma map_result_parse_corrupt (l : list text) (raw : string) :
  NotJson raw ∈ l -> exists e, map_result JSON_parse l = Throw e.
Proof.
  induction l as [|t l IH]; intros Hin; [by apply elem_of_nil in Hin|].
  apply elem_of_cons in Hin as [<-|Hin].
  - by eexists.
  - destruct (IH Hin) as [e He]. cbn. destruct (JSON_parse t); [|by eexists].
    rewrite He. by eexists.
Qed.

(** X5. A join request in a room whose stored history holds an entry that
    is not JSON fails after the fact: reading the history throws, the error
    is logged and the requester is sent the error event "Failed to join chat
    room" and no history; nobody is told of an arrival.  But the socket
    already has its properties and its subscription, and the member is
    already in the cache. *)
Theorem join_fails_late_on_corrupt_history (socket raw : string) (d : JoinData) (w : World) :
  truthy_str (join_roomCode d) = true ->
  truthy_str (join_userId d) = true ->
  NotJson raw ∈ stored (str (join_roomCode d)) w ->
  let w' := exec (Common.handleJoinChatRoom socket (Some d)) w in
  (exists e, eval (RedisSingleton.getChatHistory (str (join_roomCode d))) w = Throw e)
  /\ outbox w' = outbox w ++ [join_failure socket]
  /\ console_error w' = console_error w ++ ["Error handling join chat room:"]
  /\ roomCode (socket_of socket w') = join_roomCode d
  /\ str (join_roomCode d) ∈ rooms (socket_of socket w')
  /\ members (str (join_roomCode d)) w' !! str (join_userId d)
     = Some (Json (member_record (join_username d) socket (now w))).
Proof.
  intros Hr Hu Hin w'.
  destruct (map_result_parse_corrupt _ _ Hin) as [e He].
  assert (E : w' = set_outbox (fun l => l ++ [join_failure socket])
                     (set_console_error (fun l => l ++ ["Error handling join chat room:"])
                        (admitted socket d w))).
  { unfold w', exec. by rewrite (join_runs socket d w Hr Hu), He. }
  split.
  { exists e. unfold eval. rewrite getChatHistory_eq. cbn [snd]. by rewrite He. }
  rewrite E. split; [done|]. split; [done|].
  change (socket_of socket (set_outbox ?f (set_console_error ?g ?v))) with (socket_of socket v).
  change (members ?r (set_outbox ?f (set_console_error ?g ?v))) with (members r v).
  rewrite admitted_socket, admitted_members. cbn.
  split; [done|]. split; [set_solver|]. by rewrite lookup_insert_eq.
Qed.

Lemma join_fails_late_on_corrupt_history_witness :
  NotJson "{oops" ∈ stored "ABCD" corrupted
  /\ outbox (exec (Common.handleJoinChatRoom "s2" (Some bob_joins)) corrupted)
     = [join_failure "s2"]
  /\ members "ABCD" (exec (Common.handleJoinChatRoom "s2" (Some bob_joins)) corrupted) !! "u2"
     = Some (Json (member_record (Some "bob") "s2" 1700000000000)).
Proof.
  assert (Hin : NotJson "{oops" ∈ stored (str (join_roomCode bob_joins)) corrupted).
  { vm_compute. apply elem_of_cons. by left. }
  split; [exact Hin|].
  destruct (join_fails_late_on_corrupt_history "s2" "{oops" bob_joins corrupted
              eq_refl eq_refl Hin) as (_ & E1 & _ & _ & _ & E2).
  split; [exact E1|exact E2].
Defined.

(** X6. Last writer wins.  When two connections join the same room with the
    same user id, the cache holds one record for that user, the one of the
    second join (with its socket id), and exactly the members it held after
    the first join; the first connection keeps its room code and user id.
    This does not depend on whether the history could be read. *)
Theorem rejoin_overwrites_member (first second : string) (d1 d2 : JoinData) (w : World) :
  truthy_str (join_roomCode d1) = true ->
  truthy_str (join_userId d1) = true ->
  join_roomCode d2 = join_roomCode d1 ->
  join_userId d2 = join_userId d1 ->
  first <> second ->
  let room := str (join_roomCode d1) in
  let w1 := exec (Common.handleJoinChatRoom first (Some d1)) w in
  let w2 := exec (Common.handleJoinChatRoom second (Some d2)) w1 in
  members room w2 !! str (join_userId d1)
  = Some (Json (member_record (join_username d2) second (now w1)))
  /\ dom (members room w2) = dom (members room w1)
  /\ roomCode (socket_of first w2) = join_roomCode d1
  /\ userId (socket_of first w2) = join_userId d1.
Proof.
  intros Hr Hu Er Eu Hne room w1 w2.
  assert (Hr2 : truthy_str (join_roomCode d2) = true) by (by rewrite Er).
  assert (Hu2 : truthy_str (join_userId d2) = true) by (by rewrite Eu).
  assert (F1 : exists f g, w1 = set_outbox f (set_console_error g (admitted first d1 w))).
  { unfold w1, exec. rewrite (join_runs first d1 w Hr Hu).
    destruct (map_result _ _); [exists (fun l => (l ++ [history_event first (reverse a)])
                                                   ++ [arrival first d1]), (fun l => l)
                               |eexists _, _]; reflexivity. }
  assert (F2 : exists f g, w2 = set_outbox f (set_console_error g (admitted second d2 w1))).
  { unfold w2, exec. rewrite (join_runs second d2 w1 Hr2 Hu2).
    destruct (map_result _ _); [exists (fun l => (l ++ [history_event second (reverse a)])
                                                   ++ [arrival second d2]), (fun l => l)
                               |eexists _, _]; reflexivity. }
  destruct F1 as (f1 & g1 & E1), F2 as (f2 & g2 & E2).
  assert (M1 : members room w1
               = <[str (join_userId d1) := Json (member_record (join_username d1) first (now w))]>
                   (members room w)).
  { rewrite E1. apply admitted_members. }
  assert (M2 : members room w2
               = <[str (join_userId d1) := Json (member_record (join_username d2) second (now w1))]>
                   (members room w1)).
  { rewrite E2. unfold room. rewrite <- Er, <- Eu. apply admitted_members. }
  assert (S2 : socket_of first w2 = socket_of first w1).
  { rewrite E2. by apply admitted_other_socket. }
  assert (S1 : socket_of first w1
               = {| roomCode := join_roomCode d1; userId := join_userId d1;
                    username := join_username d1;
                    rooms := {[ str (join_roomCode d1) ]} ∪ rooms (socket_of first w) |}).
  { rewrite E1. apply admitted_socket. }
  split; [by rewrite M2, lookup_insert_eq|]. split.
  - rewrite M2, M1, insert_insert_eq. by rewrite !dom_insert_L.
  - by rewrite S2, S1.
Qed.

Lemma rejoin_overwrites_member_witness :
  "s2" <> "s1"
  /\ members "ABCD" (exec (Common.handleJoinChatRoom "s1" (Some alice_joins)) bob_joined)
       !! "u2"
     = Some (Json (member_record (Some "alice") "s1" 1700000000000))
  /\ size (members "ABCD" (exec (Common.handleJoinChatRoom "s1" (Some alice_joins)) bob_joined))
     = 1%nat.
Proof.
  assert (Hne : "s2" <> "s1") by discriminate.
  split; [exact Hne|].
  destruct (rejoin_overwrites_member "s2" "s1" bob_joins alice_joins started
              eq_refl eq_refl eq_refl eq_refl Hne) as (E & D & _).
  fold bob_joined in E, D. split; [exact E|].
  cbn [str join_roomCode bob_joins] in D.
  rewrite <- size_dom, D, size_dom. vm_compute. reflexivity.
Defined.

(** ** What the handlers keep *)

Lemma preserves_ret {A} (P : World -> Prop) (a : A) : preserves P (ret a).
Proof. by intros w. Qed.

Lemma preserves_throw {A} (P : World -> Prop) (e : exn) : preserves P (@throw World A e).
Proof. by intros w. Qed.

Lemma preserves_lift {A} (P : World -> Prop) (r : result A) : preserves P (lift r).
Proof. by intros w. Qed.

Lemma preserves_gets {A} (P : World -> Prop) (f : World -> A) : preserves P (gets f).
Proof. by intros w. Qed.

Lemma preserves_bind {A B} (P : World -> Prop) (c : M A) (k : A -> M B) :
  preserves P c -> (forall a, preserves P (k a)) -> preserves P (bind c k).
Proof.
  intros Hc Hk w Hw. specialize (Hc w Hw). unfold exec, bind in *.
  destruct (c w) as [w1 [a|e]]; cbn in *; [|done]. by apply Hk.
Qed.

Lemma preserves_try_catch {A} (P : World -> Prop) (c : M A) (h : exn -> M A) :
  preserves P c -> (forall e, preserves P (h e)) -> preserves P (try_catch c h).
Proof.
  intros Hc Hh w Hw. specialize (Hc w Hw). unfold exec, try_catch in *.
  destruct (c w) as [w1 [a|e]]; cbn in *; [done|]. by apply Hh.
Qed.

Lemma silent_preserves_sound {A} (c : M A) : silent c -> preserves sound c.
Proof.
  intros Hc w [Hs Hl]. destruct (Hc w) as (_ & Hr & Hk).
  split; [by rewrite Hk|by rewrite Hr].
Qed.

Lemma silent_await_promise (h : nat) (during : list MessageBus.BusEvent) :
  silent (MessageBus.await_promise h during).
Proof.
  induction during as [|e during IH]; cbn [MessageBus.await_promise].
  - apply silent_bind; [apply silent_gets|]. intros [v|]; apply silent_ret.
  - apply silent_bind; [apply silent_gets|]. intros [v|]; [apply silent_ret|].
    apply silent_bind; [apply silent_bus_step|]. intros _. exact IH.
Qed.

Lemma silent_await (p : MessageBus.Asked) (during : list MessageBus.BusEvent) :
  silent (MessageBus.await p during).
Proof.
  destruct p; [apply silent_ret|]. cbn [MessageBus.await].
  apply silent_bind; [apply silent_gets|].
  intros [code|]; [apply silent_ret|apply silent_await_promise].
Qed.

Lemma take_100_slice {A} (x : A) (l : list A) : Redis.slice (x :: l) 0 99 = x :: take 99 l.
Proof. by rewrite slice_0_99. Qed.

Lemma sound_store (room : string) (message : jsval) :
  preserves sound (RedisSingleton.storeChatMessage room message).
Proof.
  intros w [Hs Hl]. split; [exact Hs|].
  intros key l. unfold exec, RedisSingleton.storeChatMessage, bind, modify. cbn.
  unfold Redis.lTrim, Redis.lPush. cbn. rewrite lookup_insert_eq, take_100_slice. cbn.
  destruct (decide (key = RedisSingleton.messages_key room)) as [->|Hne].
  - rewrite lookup_insert_eq. intros [= <-]. cbn. rewrite length_take. lia.
  - rewrite !lookup_insert_ne by done. apply Hl.
Qed.

Lemma sound_add (room userId : string) (userData : jsval) :
  preserves sound (RedisSingleton.addUserToRoom room userId userData).
Proof. by intros w Hw. Qed.

Lemma sound_remove (room userId : string) :
  preserves sound (RedisSingleton.removeUserFromRoom room userId).
Proof.
  intros w [Hs Hl]. split; [exact Hs|].
  unfold exec, RedisSingleton.removeUserFromRoom, modify, Redis.hDel. cbn.
  by destruct (Redis.hashes (redis w) !! RedisSingleton.users_key room).
Qed.

Lemma sound_getChatHistory (room : string) :
  preserves sound (RedisSingleton.getChatHistory room).
Proof. intros w Hw. unfold exec. by rewrite getChatHistory_eq. Qed.

Lemma sound_outbox (f : list Emit -> list Emit) : preserves sound (modify (set_outbox f)).
Proof. by intros w Hw. Qed.

Lemma sound_console (line : string) : preserves sound (console_error_ line).
Proof. by intros w Hw. Qed.

Lemma sound_update_socket (socket : string) (f : Socket -> Socket) :
  (forall s, truthy_str (roomCode s) = truthy_str (userId s) ->
             truthy_str (roomCode (f s)) = truthy_str (userId (f s))) ->
  preserves sound (update_socket socket f).
Proof.
  intros Hf w [Hs Hl]. split; [|exact Hl].
  intros id s. unfold exec, update_socket, modify. cbn.
  destruct (decide (id = socket)) as [->|Hne].
  - rewrite lookup_insert_eq. intros [= <-]. apply Hf.
    unfold socket_of. destruct (sockets w !! socket) as [s0|] eqn:E; [|done].
    cbn. by apply (Hs socket).
  - rewrite lookup_insert_ne by done. apply Hs.
Qed.

Lemma sound_join (socket : string) (data : option JoinData) :
  preserves sound (Common.handleJoinChatRoom socket data).
Proof.
  unfold Common.handleJoinChatRoom.
  apply preserves_try_catch.
  2:{ intros e. apply preserves_bind; [apply sound_console|]. intros _.
      apply sound_outbox. }
  apply preserves_bind; [destruct data; [apply preserves_ret|apply preserves_throw]|].
  intros d.
  destruct (truthy_str (join_roomCode d)) eqn:Hr, (truthy_str (join_userId d)) eqn:Hu;
    cbn [negb orb]; try apply sound_outbox.
  apply preserves_bind; [apply sound_update_socket; intros s _; cbn; congruence|]. intros _.
  apply preserves_bind; [apply sound_update_socket; by intros s Hs|]. intros _.
  apply preserves_bind; [apply preserves_gets|]. intros t.
  apply preserves_bind; [apply sound_add|]. intros _.
  apply preserves_bind; [apply sound_getChatHistory|]. intros messages.
  apply preserves_bind; apply sound_outbox || (intros _; apply sound_outbox).
Qed.

Lemma sound_leave (socket : string) : preserves sound (Common.handleLeaveChatRoom socket).
Proof.
  unfold Common.handleLeaveChatRoom.
  apply preserves_try_catch; [|intros e; apply sound_console].
  apply preserves_bind; [apply preserves_gets|]. intros s.
  destruct (negb _); [apply preserves_ret|].
  apply preserves_bind; [apply sound_remove|]. intros _.
  apply preserves_bind; [apply sound_outbox|]. intros _.
  apply sound_update_socket. by intros s0 Hs0.
Qed.

Lemma sound_disconnect (socket : string) : preserves sound (Common.handleDisconnect socket).
Proof.
  unfold Common.handleDisconnect.
  apply preserves_try_catch; [|intros e; apply sound_console].
  apply preserves_bind; [apply preserves_gets|]. intros s.
  destruct (_ && _); [|apply preserves_ret].
  apply preserves_bind; [apply sound_remove|]. intros _. apply sound_outbox.
Qed.

Lemma sound_asking_message (socket : string) (data : option MessageData)
    (during : list MessageBus.BusEvent) :
  preserves sound (ChatSocketHandler.handleChatMessage socket data during).
Proof.
  unfold ChatSocketHandler.handleChatMessage.
  apply preserves_try_catch; [|intros e; apply sound_console].
  apply preserves_bind; [destruct data; [apply preserves_ret|apply preserves_throw]|].
  intros d. apply preserves_bind; [apply preserves_gets|]. intros s.
  destruct (_ || _); [apply preserves_ret|].
  apply preserves_bind; [apply silent_preserves_sound, silent_askGameService|]. intros asked.
  apply preserves_bind; [apply silent_preserves_sound, silent_await|]. intros [resp|];
    [|apply preserves_ret].
  apply preserves_bind; [apply preserves_lift|]. intros isCorrect.
  destruct (truthy isCorrect).
  - apply preserves_bind; [apply preserves_gets|]. intros t1.
    apply preserves_bind; [apply preserves_gets|]. intros t2.
    apply preserves_bind; [apply sound_store|]. intros _. apply sound_outbox.
  - apply preserves_bind; [apply preserves_gets|]. intros t1.
    apply preserves_bind; [apply preserves_gets|]. intros t2.
    apply preserves_bind; [apply preserves_lift|]. intros active.
    apply preserves_bind; [apply sound_store|]. intros _. apply sound_outbox.
Qed.

Lemma sound_caching_message (client : RedisSingleton.Client) (socket : string)
    (data : option MessageData) :
  (forall f room, RedisSingleton.getRoomData client = Some f -> preserves sound (f room)) ->
  preserves sound (ChatSocketHandlerCache.handleChatMessage client socket data).
Proof.
  intros Hclient. unfold ChatSocketHandlerCache.handleChatMessage.
  apply preserves_try_catch; [|intros e; apply sound_console].
  apply preserves_bind; [destruct data; [apply preserves_ret|apply preserves_throw]|].
  intros d. apply preserves_bind; [apply preserves_gets|]. intros s.
  destruct (_ || _); [apply preserves_ret|].
  apply preserves_bind.
  { unfold ChatSocketHandlerCache.check_game_state.
    apply preserves_try_catch; [|intros e; apply preserves_ret].
    apply preserves_bind; [|intros roomData; apply preserves_ret].
    unfold ChatSocketHandlerCache.call_getRoomData.
    destruct (RedisSingleton.getRoomData client) as [f|] eqn:E;
      [by apply Hclient|apply preserves_throw]. }
  intros locals. destruct (_ && _).
  - apply preserves_bind; [apply preserves_gets|]. intros t1.
    apply preserves_bind; [apply preserves_gets|]. intros t2.
    apply preserves_bind; [apply sound_store|]. intros _.
    apply preserves_bind; [apply sound_outbox|]. intros _.
    apply preserves_bind; [apply silent_preserves_sound, silent_askGameService|].
    intros _. apply preserves_ret.
  - apply preserves_bind; [apply preserves_gets|]. intros t1.
    apply preserves_bind; [apply preserves_gets|]. intros t2.
    apply preserves_bind; [apply sound_store|]. intros _. apply sound_outbox.
Qed.

Lemma total_console (line : string) : total (console_error_ line).
Proof. apply total_modify. Qed.

Lemma listeners_total
    (handleChatMessage : string -> option MessageData -> list MessageBus.BusEvent -> M unit)
    (socket : string) (e : ClientEvent) :
  (forall s d during, total (handleChatMessage s d during)) ->
  total (setupSocketEvents handleChatMessage socket e).
Proof.
  intros Hm. destruct e; cbn [setupSocketEvents]; [|apply Hm|..].
  - apply total_try_catch. intros e.
    apply total_bind; [apply total_console|]. intros _. apply total_modify.
  - apply total_try_catch. intros e. apply total_console.
  - apply total_try_catch. intros e. apply total_console.
  - apply total_console.
Qed.

Lemma listeners_sound
    (handleChatMessage : string -> option MessageData -> list MessageBus.BusEvent -> M unit)
    (socket : string) (e : ClientEvent) :
  (forall s d during, preserves sound (handleChatMessage s d during)) ->
  preserves sound (setupSocketEvents handleChatMessage socket e).
Proof.
  intros Hm. destruct e; cbn [setupSocketEvents].
  - apply sound_join.
  - apply Hm.
  - apply sound_leave.
  - apply sound_disconnect.
  - apply sound_console.
Qed.

Lemma serve_total_sound (listeners : string -> ClientEvent -> M unit)
    (events : list (string * ClientEvent)) :
  (forall s e, total (listeners s e)) ->
  (forall s e, preserves sound (listeners s e)) ->
  forall w, sound w ->
    eval (serve listeners events) w = Ok tt /\ sound (exec (serve listeners events) w).
Proof.
  intros Ht Hs. induction events as [|[socket e] events IH]; intros w Hw; [done|].
  cbn [serve]. unfold eval, exec, bind, gets. cbn [fst snd].
  destruct (exit_code w); [done|].
  destruct (Ht socket e w) as [[] Ha]. specialize (Hs socket e w Hw).
  unfold eval, exec in Ha, Hs. destruct (listeners socket e w) as [w1 r]. cbn in Ha, Hs.
  subst r. apply (IH w1 Hs).
Qed.

(** X7. Whatever the clients send, in whatever order and on whatever
    connections, and whatever the broker does meanwhile: no handler ever
    rejects, every socket has a room code exactly when it has a user id, and
    no list in the cache grows beyond 100 entries.  This holds for both
    variants of the message handler. *)
Theorem handlers_never_reject_and_keep_the_world_sound
    (events : list (string * ClientEvent)) (w : World) :
  sound w ->
  (eval (serve asking_variant events) w = Ok tt
   /\ sound (exec (serve asking_variant events) w))
  /\ (eval (serve caching_variant events) w = Ok tt
      /\ sound (exec (serve caching_variant events) w)).
Proof.
  intros Hw. split.
  - apply serve_total_sound; [| |exact Hw].
    + intros s e. apply listeners_total. intros s' d during.
      apply total_try_catch. intros x. apply total_console.
    + intros s e. apply listeners_sound. intros s' d during. apply sound_asking_message.
  - apply serve_total_sound; [| |exact Hw].
    + intros s e. apply listeners_total. intros s' d during.
      apply total_try_catch. intros x. apply total_console.
    + intros s e. apply listeners_sound. intros s' d during.
      apply sound_caching_message. intros f room Hf. discriminate Hf.
Qed.

Lemma started_sound : sound started.
Proof.
  split.
  - intros id s. unfold started. cbn [sockets]. by rewrite lookup_empty.
  - intros key l. unfold started, Redis.empty. cbn [redis Redis.lists].
    by rewrite lookup_empty.
Qed.

Lemma handlers_never_reject_and_keep_the_world_sound_witness :
  sound started
  /\ eval (serve asking_variant visit) started = Ok tt
  /\ sound (exec (serve asking_variant visit) started).
Proof.
  split; [exact started_sound|].
  exact (proj1 (handlers_never_reject_and_keep_the_world_sound visit started started_sound)).
Defined.

Example visit_outbox :
  event <$> outbox (exec (serve asking_variant visit) started)
  = ["chat-history"; "user-joined-chat"; "chat-message"; "user-left-chat"; "chat-message";
     "user-left-chat"].
Proof. vm_compute. reflexivity. Qed.

(** ** The handler that asks the game service *)

Lemma await_promise_settled (h : nat) (during : list MessageBus.BusEvent) (w : World) (v : jsval) :
  outcome h w = Some v ->
  MessageBus.await_promise h during w = (w, Ok (Some v)).
Proof.
  intros Hv. unfold outcome in Hv.
  destruct during; cbn [MessageBus.await_promise]; unfold bind, gets; by rewrite Hv.
Qed.

Lemma await_promise_pending_nil (h : nat) (w : World) :
  outcome h w = None ->
  MessageBus.await_promise h [] w = (w, Ok None).
Proof.
  intros Hv. unfold outcome in Hv. cbn [MessageBus.await_promise].
  unfold bind, gets. by rewrite Hv.
Qed.

Lemma await_promise_pending_cons (h : nat) (e : MessageBus.BusEvent)
    (during : list MessageBus.BusEvent) (w w1 : World) :
  outcome h w = None ->
  MessageBus.bus_step e w = (w1, Ok tt) ->
  MessageBus.await_promise h (e :: during) w = MessageBus.await_promise h during w1.
Proof.
  intros Hv He. unfold outcome in Hv. cbn [MessageBus.await_promise].
  unfold bind at 1, gets at 1. rewrite Hv. unfold bind. by rewrite He.
Qed.

(** While the promise is pending, waiting is running the events. *)
Lemma await_promise_through (h : nat) (pre : list MessageBus.BusEvent) :
  forall (post : list MessageBus.BusEvent) (w : World) (r : Rpc),
  channel w = ChOpen ->
  rpcs w !! h = Some r ->
  settled (after_events pre h (now w) r) = None ->
  exists w1,
    MessageBus.bus_run pre w = (w1, Ok tt)
    /\ channel w1 = ChOpen
    /\ now w1 = now w + elapsed pre
    /\ rpcs w1 !! h = Some (after_events pre h (now w) r)
    /\ MessageBus.await_promise h (pre ++ post) w = MessageBus.await_promise h post w1.
Proof.
  induction pre as [|e pre IH]; intros post w r Hopen Hr Hnone.
  - exists w. by rewrite Z.add_0_r.
  - cbn [after_events] in Hnone.
    destruct (bus_step_spec e w h r Hopen Hr) as (w1 & E1 & Hc1 & Hn1 & Hr1).
    assert (Hnow : outcome h w = None).
    { unfold outcome. rewrite Hr. cbn. destruct (settled r) as [v|] eqn:Es; [|done].
      rewrite (after_events_settled pre h _ _ v) in Hnone; [done|].
      by apply after_event_settled. }
    rewrite <- Hn1 in Hnone.
    destruct (IH post w1 _ Hc1 Hr1 Hnone) as (w2 & E2 & Hc2 & Hn2 & Hr2 & Ea).
    exists w2. cbn [MessageBus.bus_run app after_events]. unfold bind at 1. rewrite E1, E2.
    rewrite (await_promise_pending_cons h e (pre ++ post) w w1 Hnow E1), Ea.
    rewrite Hn2, Hr2, !Hn1. repeat split; try done.
    destruct e as [? [?|]|?]; cbn [elapsed duration]; lia.
Qed.

(** Waiting always ends, in a world that differs from the one before by
    what the events did, at a time between the start and the end of the
    events. *)
Lemma await_promise_ends (h : nat) (during : list MessageBus.BusEvent) :
  forall (w : World) (r : Rpc),
  channel w = ChOpen ->
  rpcs w !! h = Some r ->
  exists w2 awaited,
    MessageBus.await_promise h during w = (w2, Ok awaited)
    /\ now w <= now w2 <= now w + elapsed during.
Proof.
  induction during as [|e during IH]; intros w r Hopen Hr.
  - destruct (outcome h w) as [v|] eqn:Ho.
    + exists w, (Some v). rewrite (await_promise_settled h [] w v Ho). cbn. split; [done|lia].
    + exists w, None. rewrite (await_promise_pending_nil h w Ho). cbn. split; [done|lia].
  - assert (Hpos : 0 <= elapsed during)
      by (clear; induction during as [|[? [?|]|?] es IH]; cbn [elapsed]; lia).
    assert (Hel : elapsed (e :: during) = duration e + elapsed during)
      by (destruct e as [? [?|]|?]; cbn [elapsed duration]; lia).
    assert (Hd : 0 <= duration e) by (destruct e as [? [?|]|?]; cbn [duration]; lia).
    destruct (outcome h w) as [v|] eqn:Ho.
    + exists w, (Some v). rewrite (await_promise_settled h _ w v Ho). split; [done|lia].
    + destruct (bus_step_spec e w h r Hopen Hr) as (w1 & E1 & Hc1 & Hn1 & Hr1).
      destruct (IH w1 _ Hc1 Hr1) as (w2 & awaited & E2 & Hn2).
      exists w2, awaited. rewrite (await_promise_pending_cons h e during w w1 Ho E1), E2.
      split; [done|lia].
Qed.

(** Waiting for a reply that never comes ends with the default, when the
    timer fires. *)
Lemma await_promise_unanswered (h : nat) (rid : string) (due : Z)
    (during : list MessageBus.BusEvent) :
  forall (w : World) (r : Rpc),
  channel w = ChOpen ->
  rpcs w !! h = Some r ->
  requestId r = rid ->
  timeout r = Some due ->
  settled r = None ->
  now w < due ->
  unanswered h rid during ->
  due <= now w + elapsed during ->
  exists w2,
    MessageBus.await_promise h during w = (w2, Ok (Some MessageBus.default_response))
    /\ due <= now w2 <= now w + elapsed during.
Proof.
  induction during as [|e during IH]; intros w r Hopen Hr Hid Hto Hs Hlt Hun Hel.
  - cbn in Hel. lia.
  - assert (Hpos : 0 <= elapsed during)
      by (clear; induction during as [|[? [?|]|?] es IH]; cbn [elapsed]; lia).
    assert (Hel' : elapsed (e :: during) = duration e + elapsed during)
      by (destruct e as [? [?|]|?]; cbn [elapsed duration]; lia).
    assert (Ho : outcome h w = None) by (unfold outcome; rewrite Hr; exact Hs).
    destruct (bus_step_spec e w h r Hopen Hr) as (w1 & E1 & Hc1 & Hn1 & Hr1).
    rewrite (await_promise_pending_cons h e during w w1 Ho E1).
    assert (Hun' : unanswered h rid during).
    { intros e' He'. apply Hun. apply elem_of_cons. by right. }
    assert (He : answers h rid e = false) by (apply Hun; apply elem_of_cons; by left).
    destruct e as [h' [msg|]|ms]; cbn [after_event duration answers] in *.
    + rewrite Hid, He in Hr1.
      destruct (IH w1 r Hc1 Hr1 Hid Hto Hs ltac:(lia) Hun' ltac:(lia)) as (w2 & E2 & Hn2).
      exists w2. split; [done|lia].
    + destruct (IH w1 r Hc1 Hr1 Hid Hto Hs ltac:(lia) Hun' ltac:(lia)) as (w2 & E2 & Hn2).
      exists w2. split; [done|lia].
    + unfold fired in Hr1. rewrite Hto in Hr1.
      destruct (due <=? now w + Z.max 0 ms) eqn:Hd.
      * exists w1. rewrite (await_promise_settled h during w1 MessageBus.default_response).
        -- split; [done|lia].
        -- unfold outcome. rewrite Hr1. cbn. unfold settle. cbn. by rewrite Hs.
      * destruct (IH w1 r Hc1 Hr1 Hid Hto Hs ltac:(lia) Hun' ltac:(lia)) as (w2 & E2 & Hn2).
        exists w2. split; [done|lia].
Qed.

Lemma preserves_Math_random (P : World -> Prop) :
  (forall f w, P w -> P (set_random f w)) -> preserves P Math_random.
Proof.
  intros HP w Hw. unfold exec, Math_random. destruct (random w); [done|]. by apply HP.
Qed.

Lemma preserves_chan (P : World -> Prop) (op : ChanOp) :
  (forall f w, P w -> P (set_chan_log f w)) -> preserves P (MessageBus.chan op).
Proof.
  intros HP w Hw. unfold exec, MessageBus.chan.
  destruct (channel w); try done. destruct (refuses _ _ _); [done|]. by apply HP.
Qed.

Lemma askGameService_now (action : string) (data : jsval) (w : World) :
  now (exec (MessageBus.askGameService action data) w) = now w.
Proof.
  enough (H : preserves (fun v => now v = now w) (MessageBus.askGameService action data))
    by (by apply H).
  unfold MessageBus.askGameService, Date_now, console_error_.
  repeat first
    [ apply preserves_bind; [|intros ?]
    | apply preserves_try_catch; [|intros ?]
    | apply preserves_gets
    | apply preserves_ret
    | apply preserves_Math_random; by intros ? ? ?
    | apply preserves_chan; by intros ? ? ?
    | by intros ? ? ].
Qed.

Lemma store_hashes (room : string) (message : jsval) (w : World) :
  Redis.hashes (redis (exec (RedisSingleton.storeChatMessage room message) w))
  = Redis.hashes (redis w).
Proof.
  unfold exec, RedisSingleton.storeChatMessage, bind, modify. cbn.
  unfold Redis.lTrim. destruct (Redis.lists _ !! _); [|done].
  by destruct (Redis.slice _ _ _).
Qed.

Lemma relayed_intro (socket : string) (line : jsval) (w w2 : World) :
  outbox w2 = outbox w -> redis w2 = redis w -> sockets w2 = sockets w ->
  let s := socket_of socket w in
  relayed socket line w
    (exec (RedisSingleton.storeChatMessage (str (roomCode s)) line ;;;
           SocketSingleton.io_to_emit (js_str (roomCode s)) "chat-message" line) w2).
Proof.
  intros Ho Hr Hs s. subst s.
  set (room := str (roomCode (socket_of socket w))).
  set (ev := chat_event socket line w).
  change (exec _ w2)
    with (set_outbox (fun l => l ++ [ev]) (exec (RedisSingleton.storeChatMessage room line) w2)).
  unfold relayed. fold room. fold ev. repeat split.
  - change (outbox w2 ++ [ev] = outbox w ++ [ev]). by rewrite Ho.
  - cbn zeta. change (stored room (set_outbox ?f ?v)) with (stored room v).
    rewrite stored_store_same. unfold stored. by rewrite Hr.
  - exact Hs.
  - change (redis (set_outbox ?f ?v)) with (redis v).
    by rewrite store_hashes, Hr.
Qed.

(** The handler, once its guard has let the message pass: it asks, waits,
    and then acts on the answer alone. *)
Lemma asking_handler_run (socket message : string) (during : list MessageBus.BusEvent)
    (w w1 w2 : World) (asked : MessageBus.Asked) (awaited : option jsval) :
  truthy_str (roomCode (socket_of socket w)) = true ->
  message <> "" ->
  MessageBus.askGameService "check-guess" (check_guess socket message w) w = (w1, Ok asked) ->
  MessageBus.await asked during w1 = (w2, Ok awaited) ->
  let w' := exec (ChatSocketHandler.handleChatMessage socket
                    (Some {| data_message := Some message |}) during) w in
  match awaited with
  | None => w' = w2
  | Some gameCheckResponse =>
      match verdict gameCheckResponse with
      | Unusable =>
          w' = set_console_error (fun l => l ++ ["Error handling chat message:"]) w2
      | Correct => relayed socket (praised socket message (now w2) w) w w'
      | Wrong isGameActive =>
          relayed socket
            (posted socket message (if isGameActive then "guess" else "message") (now w2) w)
            w w'
      end
  end.
Proof.
  intros Hroom Hmsg Hask Hawait w'.
  assert (Hsil : outbox w2 = outbox w /\ redis w2 = redis w /\ sockets w2 = sockets w).
  { pose proof (silent_askGameService "check-guess" (check_guess socket message w) w) as H1.
    pose proof (silent_await asked during w1) as H2.
    unfold exec in H1, H2. rewrite Hask in H1. rewrite Hawait in H2. cbn in H1, H2.
    destruct H1 as (A1 & A2 & A3), H2 as (B1 & B2 & B3).
    by rewrite B1, B2, B3. }
  destruct Hsil as (Ho & Hr & Hs).
  assert (Hm : truthy_str (Some message) = true).
  { cbn. by apply negb_true_iff, String.eqb_neq. }
  unfold check_guess in Hask.
  assert (Hrun : forall k : MessageData -> Socket -> MessageBus.Asked -> M unit,
            exec (try_catch
                    (d <- destructure (Some {| data_message := Some message |}) ;;
                     s <- gets (socket_of socket) ;;
                     if negb (truthy_str (roomCode s)) || negb (truthy_str (data_message d))
                     then ret tt
                     else
                       asked <- MessageBus.askGameService "check-guess"
                                  (VObj [("roomCode", js_str (roomCode s));
                                         ("userId", js_str (userId s));
                                         ("guess", VStr (trim (str (data_message d))))]) ;;
                       k d s asked)
                    (fun error => console_error_ "Error handling chat message:")) w
            = exec (try_catch (k {| data_message := Some message |} (socket_of socket w) asked)
                      (fun error => console_error_ "Error handling chat message:")) w1).
  { intros k. unfold exec, try_catch. unfold bind at 1. cbn [destructure ret].
    unfold bind at 1. cbn [gets data_message]. rewrite Hroom, Hm. cbn [negb orb].
    change (str (Some message)) with message.
    unfold bind at 1. by rewrite Hask. }
  assert (Hw' : w' = exec (ChatSocketHandler.handleChatMessage socket
                             (Some {| data_message := Some message |}) during) w) by done.
  clearbody w'. unfold ChatSocketHandler.handleChatMessage in Hw'.
  rewrite Hrun in Hw'. clear Hrun.
  unfold exec, try_catch in Hw'. unfold bind at 1 in Hw'. rewrite Hawait in Hw'.
  cbn [data_message str] in Hw'.
  destruct awaited as [resp|]; [|exact Hw'].
  unfold verdict. unfold bind at 1 in Hw'.
  destruct (get resp "isCorrect") as [isCorrect|e] eqn:Ec; cbn [lift] in Hw'; [|exact Hw'].
  destruct (truthy isCorrect).
  - rewrite Hw'. apply (relayed_intro socket _ w w2 Ho Hr Hs).
  - unfold Date_now in Hw'. unfold bind at 1 in Hw'. cbn [gets] in Hw'.
    unfold bind at 1 in Hw'. cbn [gets] in Hw'. unfold bind at 1 in Hw'.
    destruct (get resp "isGameActive") as [isGameActive|e] eqn:Ea; cbn [lift] in Hw';
      [|exact Hw'].
    rewrite Hw'. apply (relayed_intro socket _ w w2 Ho Hr Hs).
Qed.

Lemma after_event_requestId (e : MessageBus.BusEvent) (h : nat) (t : Z) (r : Rpc) :
  requestId (after_event e h t r) = requestId r.
Proof.
  destruct e as [h' [msg|]|ms]; cbn [after_event]; [|done|apply fired_requestId].
  destruct (_ && _); [|done]. by rewrite settle_requestId.
Qed.

Lemma after_events_requestId (es : list MessageBus.BusEvent) (h : nat) :
  forall (t : Z) (r : Rpc), requestId (after_events es h t r) = requestId r.
Proof.
  induction es as [|e es IH]; intros t r; [done|].
  cbn [after_events]. by rewrite IH, after_event_requestId.
Qed.

(** What [askGameService] leaves behind when its set-up goes through and
    the broker accepts the consumer: a running process and a promise that
    can be awaited. *)
Lemma asked_promise (action : string) (data : jsval) (w : World) :
  goes_through action data w = true ->
  listening w = true ->
  exists w1,
    MessageBus.askGameService action data w = (w1, Ok (MessageBus.Promised (length (rpcs w))))
    /\ channel w1 = ChOpen
    /\ now w1 = now w
    /\ rpcs w1 !! length (rpcs w)
       = Some {| requestId := next_requestId w; replyQueue := next_replyQueue w;
                 timeout := Some (now w + 1000); settled := None |}
    /\ (forall during,
        MessageBus.await (MessageBus.Promised (length (rpcs w))) during w1
        = MessageBus.await_promise (length (rpcs w)) during w1).
Proof.
  intros Hgo Hlisten. destruct (askGameService_cases action data w) as [w1 H].
  cbv zeta in H. unfold goes_through in Hgo. rewrite Hgo in H.
  unfold listening in Hlisten.
  destruct (exit_code w) as [code|] eqn:Hrun; [discriminate|].
  apply negb_true_iff in Hlisten. rewrite Hlisten in H.
  destruct H as (E & Hc & Hn & Hr & Hexit). exists w1. repeat split; try done.
  - rewrite Hr. by rewrite list_lookup_middle.
  - intros during. cbn [MessageBus.await]. unfold bind, gets. by rewrite Hexit.
Qed.

(** What a request that goes through leaves on the channel. *)
Lemma request_trace_spec (action : string) (data : jsval) (w : World) :
  goes_through action data w = true ->
  let w1 := exec (MessageBus.askGameService action data) w in
  chan_log w1 = chan_log w ++ request_trace action data w
  /\ console_error w1 = console_error w
  /\ random w1 = tail (random w).
Proof.
  intros Hgo w1. subst w1. unfold goes_through in Hgo.
  apply andb_prop in Hgo as [Hgo Hp]. apply andb_prop in Hgo as [Hc Hq].
  apply negb_true_iff in Hp, Hq.
  assert (Hch : channel w = ChOpen) by (by destruct (channel w)). clear Hc.
  unfold request_trace, next_consume.
  unfold next_request, next_replyQueue, next_requestId in *.
  unfold exec.
  unfold MessageBus.askGameService, bind, Date_now, gets, Math_random, try_catch,
    MessageBus.chan, modify, ret, console_error_, MessageBus.exchanges_gameRequests,
    JSON_stringify, unhandledRejection, process_exit, modify.
  destruct (random w) as [|x rest] eqn:Er; cbn in *; rewrite Hch, Hq; cbn;
    rewrite ?Hch, Hp; cbn; rewrite ?Hch;
    match goal with
    | |- context [if ?b then _ else _] => destruct b
    end; cbn; rewrite ?Er; repeat split; rewrite <- ?app_assoc; reflexivity.
Qed.

(** When the broker refuses the consumer, the promise is returned all the
    same, the process ends, and whoever awaits the promise never resumes. *)
Lemma asked_in_vain (action : string) (data : jsval) (w : World) :
  goes_through action data w = true ->
  listening w = false ->
  exists w1,
    MessageBus.askGameService action data w = (w1, Ok (MessageBus.Promised (length (rpcs w))))
    /\ is_Some (exit_code w1)
    /\ (forall during,
        MessageBus.await (MessageBus.Promised (length (rpcs w))) during w1 = (w1, Ok None)).
Proof.
  intros Hgo Hlisten. destruct (askGameService_cases action data w) as [w1 H].
  cbv zeta in H. unfold goes_through in Hgo. rewrite Hgo in H.
  destruct H as (E & _ & _ & _ & Hexit). exists w1. split; [exact E|].
  assert (Hdead : is_Some (exit_code w1)).
  { unfold listening in Hlisten. rewrite Hexit.
    destruct (exit_code w) as [code|];
      [destruct (refuses (broker w) (connects w) (next_consume w)); by eexists|].
    apply negb_false_iff in Hlisten. rewrite Hlisten. by eexists. }
  split; [exact Hdead|]. intros during. destruct Hdead as [code Hcode].
  cbn [MessageBus.await]. unfold bind, gets. by rewrite Hcode.
Qed.

Lemma asked_default (action : string) (data : jsval) (w : World) :
  goes_through action data w = false ->
  exists w1,
    MessageBus.askGameService action data w
      = (w1, Ok (MessageBus.Returned MessageBus.default_response))
    /\ now w1 = now w.
Proof.
  intros Hgo. destruct (askGameService_cases action data w) as [w1 H].
  cbv zeta in H. unfold goes_through in Hgo. rewrite Hgo in H.
  destruct H as (E & _). exists w1. split; [done|].
  pose proof (askGameService_now action data w) as Hn. unfold exec in Hn.
  by rewrite E in Hn.
Qed.

(** X8. When the request to the game service cannot be set up (the channel
    is missing or closed, or the broker refuses the reply queue or the
    request), the handler does not wait: whatever happens meanwhile, the
    message is stored and broadcast as typed, with type 'message', at the
    time it was received. *)
Theorem message_is_relayed_when_the_broker_is_away
    (socket message : string) (during : list MessageBus.BusEvent) (w : World) :
  truthy_str (roomCode (socket_of socket w)) = true ->
  message <> "" ->
  goes_through "check-guess" (check_guess socket message w) w = false ->
  relayed socket (posted socket message "message" (now w) w) w
    (exec (ChatSocketHandler.handleChatMessage socket (says message) during) w).
Proof.
  intros Hroom Hmsg Hgo.
  destruct (asked_default _ _ w Hgo) as (w1 & Hask & Hn).
  pose proof (asking_handler_run socket message during w w1 w1 _ _ Hroom Hmsg Hask eq_refl) as H.
  cbn in H. by rewrite Hn in H.
Qed.

Lemma message_is_relayed_when_the_broker_is_away_witness :
  relayed "s2" (posted "s2" "hello" "message" (now cut_off) cut_off) cut_off
    (exec (ChatSocketHandler.handleChatMessage "s2" (says "hello") no_answer) cut_off).
Proof.
  apply (message_is_relayed_when_the_broker_is_away "s2" "hello" no_answer cut_off).
  - vm_compute. reflexivity.
  - discriminate.
  - vm_compute. reflexivity.
Defined.

(** X9. When the request went out, the broker has accepted the consumer of
    the reply queue in a running process ([listening]), and no reply with
    the correlation id of the request arrives, the handler relays the
    message once the reply timer has fired: it is stored and broadcast as
    typed, with type 'message', stamped with a time at least 1000 ms after
    it was received. *)
Theorem unanswered_message_is_relayed_after_the_timeout
    (socket message : string) (during : list MessageBus.BusEvent) (w : World) :
  truthy_str (roomCode (socket_of socket w)) = true ->
  message <> "" ->
  goes_through "check-guess" (check_guess socket message w) w = true ->
  listening w = true ->
  unanswered (length (rpcs w)) (next_requestId w) during ->
  1000 <= elapsed during ->
  exists t,
    now w + 1000 <= t <= now w + elapsed during
    /\ relayed socket (posted socket message "message" t w) w
         (exec (ChatSocketHandler.handleChatMessage socket (says message) during) w).
Proof.
  intros Hroom Hmsg Hgo Hli Hun Hel.
  destruct (asked_promise _ _ w Hgo Hli) as (w1 & Hask & Hc & Hn & Hr & Haw).
  destruct (await_promise_unanswered (length (rpcs w)) (next_requestId w) (now w + 1000)
              during w1 _ Hc Hr eq_refl eq_refl eq_refl) as (w2 & Hawait & Hn2);
    [lia|done|lia|].
  rewrite <- Haw in Hawait.
  exists (now w2). split; [lia|].
  exact (asking_handler_run socket message during w w1 w2 _ _ Hroom Hmsg Hask Hawait).
Qed.

Lemma unanswered_message_is_relayed_after_the_timeout_witness :
  exists t,
    now bob_joined + 1000 <= t <= now bob_joined + elapsed no_answer
    /\ relayed "s2" (posted "s2" "hello" "message" t bob_joined) bob_joined
         (exec (ChatSocketHandler.handleChatMessage "s2" (says "hello") no_answer) bob_joined).
Proof.
  apply (unanswered_message_is_relayed_after_the_timeout "s2" "hello" no_answer bob_joined).
  - vm_compute. reflexivity.
  - discriminate.
  - vm_compute. reflexivity.
  - vm_compute. reflexivity.
  - intros e He. unfold no_answer in He. rewrite !elem_of_cons in He.
    destruct He as [->|[->|[->|[->|He]]]]; [vm_compute; reflexivity ..|].
    by apply elem_of_nil in He.
  - vm_compute. discriminate.
Defined.

(** Waiting ends with the first reply that carries the correlation id,
    when it arrives before the timer is due. *)
Lemma await_promise_answered (h : nat) (rid : string) (due : Z)
    (pre post : list MessageBus.BusEvent) (msg : Delivery) (w : World) (r : Rpc) :
  channel w = ChOpen ->
  rpcs w !! h = Some r ->
  requestId r = rid ->
  timeout r = Some due ->
  settled r = None ->
  unanswered h rid pre ->
  now w + elapsed pre < due ->
  matches rid msg = true ->
  exists w2,
    MessageBus.await_promise h (pre ++ MessageBus.Deliver h (Some msg) :: post) w
      = (w2, Ok (Some (reply_data msg)))
    /\ now w2 = now w + elapsed pre.
Proof.
  intros Hopen Hr Hid Hto Hs Hun Hlt Hm.
  assert (Hpos : 0 <= elapsed pre)
    by (clear; induction pre as [|[? [?|]|?] es IH]; cbn [elapsed]; lia).
  assert (Hpend : settled (after_events pre h (now w) r) = None).
  { destruct (after_events_pending pre h rid due (now w) r Hid Hto Hs ltac:(lia))
      as [[Hn _]|(v & _ & [[_ Hd]|(m & Hin & Hmm & _)])]; [done|lia|].
    specialize (Hun _ Hin). cbn in Hun. by rewrite Nat.eqb_refl, Hmm in Hun. }
  destruct (await_promise_through h pre (MessageBus.Deliver h (Some msg) :: post) w r
              Hopen Hr Hpend) as (w1 & _ & Hc1 & Hn1 & Hr1 & ->).
  set (r1 := after_events pre h (now w) r) in *.
  destruct (bus_step_spec (MessageBus.Deliver h (Some msg)) w1 h r1 Hc1 Hr1)
    as (w2 & E2 & Hc2 & Hn2 & Hr2).
  exists w2. split; [|cbn in Hn2; lia].
  rewrite (await_promise_pending_cons h _ post w1 w2); [|by unfold outcome; rewrite Hr1|done].
  apply await_promise_settled. unfold outcome. rewrite Hr2. cbn [after_event].
  unfold r1 at 1. rewrite after_events_requestId, Hid, Nat.eqb_refl, Hm. cbn.
  unfold settle. cbn. by rewrite Hpend.
Qed.

Lemma asking_handler_answered (socket message : string)
    (pre post : list MessageBus.BusEvent) (msg : Delivery) (w : World) :
  truthy_str (roomCode (socket_of socket w)) = true ->
  message <> "" ->
  goes_through "check-guess" (check_guess socket message w) w = true ->
  listening w = true ->
  unanswered (length (rpcs w)) (next_requestId w) pre ->
  elapsed pre < 1000 ->
  matches (next_requestId w) msg = true ->
  exists w1 w2,
    MessageBus.askGameService "check-guess" (check_guess socket message w) w
      = (w1, Ok (MessageBus.Promised (length (rpcs w))))
    /\ MessageBus.await (MessageBus.Promised (length (rpcs w)))
         (pre ++ MessageBus.Deliver (length (rpcs w)) (Some msg) :: post) w1
       = (w2, Ok (Some (reply_data msg)))
    /\ now w2 = now w + elapsed pre.
Proof.
  intros Hroom Hmsg Hgo Hli Hun Hel Hm.
  destruct (asked_promise _ _ w Hgo Hli) as (w1 & Hask & Hc & Hn & Hr & Haw).
  destruct (await_promise_answered (length (rpcs w)) (next_requestId w) (now w + 1000)
              pre post msg w1 _ Hc Hr eq_refl eq_refl eq_refl Hun ltac:(lia) Hm)
    as (w2 & Hawait & Hn2).
  rewrite <- Haw in Hawait.
  exists w1, w2. repeat split; [done|done|lia].
Qed.

(** X10. When the game service answers in time (the request went out and
    the broker has accepted the consumer of the reply queue in a running
    process), its answer alone decides what the room sees, at the moment
    the answer arrives: a truthy
    [isCorrect] gives one celebration of type 'correct-guess' that quotes
    the trimmed text, and not the message itself; otherwise the message is
    relayed as typed, with type 'guess' when [isGameActive] is truthy and
    'message' when it is not.  Later replies and the timer change nothing. *)
Theorem the_answer_decides_what_is_relayed
    (socket message : string) (pre post : list MessageBus.BusEvent) (msg : Delivery)
    (w : World) :
  truthy_str (roomCode (socket_of socket w)) = true ->
  message <> "" ->
  goes_through "check-guess" (check_guess socket message w) w = true ->
  listening w = true ->
  unanswered (length (rpcs w)) (next_requestId w) pre ->
  elapsed pre < 1000 ->
  matches (next_requestId w) msg = true ->
  let during := pre ++ MessageBus.Deliver (length (rpcs w)) (Some msg) :: post in
  let w' := exec (ChatSocketHandler.handleChatMessage socket (says message) during) w in
  let t := now w + elapsed pre in
  match verdict (reply_data msg) with
  | Correct => relayed socket (praised socket message t w) w w'
  | Wrong true => relayed socket (posted socket message "guess" t w) w w'
  | Wrong false => relayed socket (posted socket message "message" t w) w w'
  | Unusable => True
  end.
Proof.
  intros Hroom Hmsg Hgo Hli Hun Hel Hm during w' t.
  destruct (asking_handler_answered socket message pre post msg w Hroom Hmsg Hgo Hli Hun Hel Hm)
    as (w1 & w2 & Hask & Hawait & Hn2).
  pose proof (asking_handler_run socket message during w w1 w2 _ _ Hroom Hmsg Hask Hawait) as H.
  cbv zeta in H. fold w' in H. rewrite Hn2 in H. fold t in H.
  destruct (verdict (reply_data msg)) as [| |[|]]; done.
Qed.

Lemma the_answer_decides_what_is_relayed_witness :
  let during := answered_with [("data", VObj [("isGameActive", VBool true);
                                              ("isCorrect", VBool false)])] in
  relayed "s2" (posted "s2" "  ApPle " "guess" (now bob_joined + 300) bob_joined) bob_joined
    (exec (ChatSocketHandler.handleChatMessage "s2" (says "  ApPle ") during) bob_joined).
Proof.
  apply (the_answer_decides_what_is_relayed "s2" "  ApPle "
           [MessageBus.Elapse 300; MessageBus.Deliver 0 (Some stray)]
           [MessageBus.Deliver 0 (Some says_correct); MessageBus.Elapse 2000]
           (reply_with [("data", VObj [("isGameActive", VBool true);
                                       ("isCorrect", VBool false)])])
           bob_joined).
  - vm_compute. reflexivity.
  - discriminate.
  - vm_compute. reflexivity.
  - vm_compute. reflexivity.
  - intros e He. rewrite !elem_of_cons in He.
    destruct He as [->|[->|He]]; [vm_compute; reflexivity ..|].
    by apply elem_of_nil in He.
  - vm_compute. reflexivity.
  - vm_compute. reflexivity.
Defined.

(** X11. A reply that carries the correlation id but no [data] (or a null
    [data]) resolves the promise with it; reading [isCorrect] then throws,
    and the message is lost: nothing is stored or broadcast, and the last
    thing logged is the handler's error.  (Where the broker has refused the
    consumer, or the process has ended, no reply is heard: the message is
    lost as well, and nothing is logged.) *)
Theorem answer_without_data_loses_the_message
    (socket message : string) (pre post : list MessageBus.BusEvent) (msg : Delivery)
    (w : World) :
  truthy_str (roomCode (socket_of socket w)) = true ->
  message <> "" ->
  goes_through "check-guess" (check_guess socket message w) w = true ->
  unanswered (length (rpcs w)) (next_requestId w) pre ->
  elapsed pre < 1000 ->
  matches (next_requestId w) msg = true ->
  reply_data msg = VUndefined \/ reply_data msg = VNull ->
  let during := pre ++ MessageBus.Deliver (length (rpcs w)) (Some msg) :: post in
  let w' := exec (ChatSocketHandler.handleChatMessage socket (says message) during) w in
  outbox w' = outbox w /\ redis w' = redis w
  /\ (if listening w
      then last (console_error w') = Some "Error handling chat message:"
      else console_error w' = console_error w).
Proof.
  intros Hroom Hmsg Hgo Hun Hel Hm Hdata during w'.
  destruct (listening w) eqn:Hli.
  - destruct (asking_handler_answered socket message pre post msg w
                Hroom Hmsg Hgo Hli Hun Hel Hm) as (w1 & w2 & Hask & Hawait & Hn2).
    pose proof (asking_handler_run socket message during w w1 w2 _ _ Hroom Hmsg Hask Hawait)
      as H.
    cbv beta zeta iota in H. fold w' in H.
    assert (Hsil : outbox w2 = outbox w /\ redis w2 = redis w).
    { pose proof (silent_askGameService "check-guess" (check_guess socket message w) w) as H1.
      pose proof (silent_await (MessageBus.Promised (length (rpcs w))) during w1) as H2.
      unfold exec in H1, H2. rewrite Hask in H1. fold during in Hawait. rewrite Hawait in H2.
      cbn in H1, H2. destruct H1 as (A1 & A2 & _), H2 as (B1 & B2 & _).
      by rewrite B1, B2. }
    assert (Hv : verdict (reply_data msg) = Unusable) by (by destruct Hdata as [->| ->]).
    rewrite Hv in H. unfold w', says. rewrite H. cbn. destruct Hsil as [-> ->].
    repeat split. apply last_snoc.
  - destruct (asked_in_vain _ _ w Hgo Hli) as (w1 & Hask & _ & Haw).
    pose proof (asking_handler_run socket message during w w1 w1 _ _ Hroom Hmsg Hask
                  (Haw during)) as H.
    cbv beta zeta iota in H. fold w' in H.
    pose proof (silent_askGameService "check-guess" (check_guess socket message w) w) as H1.
    destruct (request_trace_spec _ _ w Hgo) as (_ & Herr & _).
    unfold exec in H1, Herr. rewrite Hask in H1, Herr. cbn in H1, Herr.
    destruct H1 as (A1 & A2 & _).
    unfold w', says. rewrite H. done.
Qed.

Lemma answer_without_data_loses_the_message_witness :
  let w' := exec (ChatSocketHandler.handleChatMessage "s2" (says "apple")
                    (answered_with [])) bob_joined in
  outbox w' = outbox bob_joined /\ redis w' = redis bob_joined
  /\ last (console_error w') = Some "Error handling chat message:".
Proof.
  assert (L : listening bob_joined = true) by reflexivity.
  pose proof (answer_without_data_loses_the_message "s2" "apple"
           [MessageBus.Elapse 300; MessageBus.Deliver 0 (Some stray)]
           [MessageBus.Deliver 0 (Some says_correct); MessageBus.Elapse 2000]
           (reply_with []) bob_joined) as H.
  rewrite L in H. apply H.
  - vm_compute. reflexivity.
  - discriminate.
  - vm_compute. reflexivity.
  - intros e He. rewrite !elem_of_cons in He.
    destruct He as [->|[->|He]]; [vm_compute; reflexivity ..|].
    by apply elem_of_nil in He.
  - vm_compute. reflexivity.
  - vm_compute. reflexivity.
  - left. vm_compute. reflexivity.
Defined.

(** ** One message, at most one line *)

Lemma asking_frames (action : string) (data : jsval) (during : list MessageBus.BusEvent)
    (w w1 w2 : World) (asked : MessageBus.Asked) (awaited : option jsval) :
  MessageBus.askGameService action data w = (w1, Ok asked) ->
  MessageBus.await asked during w1 = (w2, Ok awaited) ->
  outbox w2 = outbox w /\ redis w2 = redis w /\ sockets w2 = sockets w.
Proof.
  intros Hask Hawait.
  pose proof (silent_askGameService action data w) as H1.
  pose proof (silent_await asked during w1) as H2.
  unfold exec in H1, H2. rewrite Hask in H1. rewrite Hawait in H2. cbn in H1, H2.
  destruct H1 as (A1 & A2 & A3), H2 as (B1 & B2 & B3).
  by rewrite B1, B2, B3.
Qed.

Lemma asking_handler_not_joined (socket : string) (d : MessageData)
    (during : list MessageBus.BusEvent) (w : World) :
  truthy_str (roomCode (socket_of socket w)) = false ->
  ChatSocketHandler.handleChatMessage socket (Some d) during w = (w, Ok tt).
Proof.
  intros H. unfold ChatSocketHandler.handleChatMessage, try_catch, bind, destructure, ret, gets.
  by rewrite H.
Qed.

Lemma caching_handler_not_joined client (socket : string) (d : MessageData) (w : World) :
  truthy_str (roomCode (socket_of socket w)) = false ->
  ChatSocketHandlerCache.handleChatMessage client socket (Some d) w = (w, Ok tt).
Proof.
  intros H.
  unfold ChatSocketHandlerCache.handleChatMessage, try_catch, bind, destructure, ret, gets.
  by rewrite H.
Qed.

(** X12. One chat message gives the room at most one line.  Either nothing
    is stored or broadcast and no connection changes, or exactly one line
    is put in the history of the sender's room and emitted to that room
    alone: a celebration, or the message as typed with type 'guess' or
    'message'; never both, and never with another type.  The line is
    stamped with a time at which the handler was running. *)
Theorem one_message_gives_at_most_one_line
    (socket : string) (data : option MessageData) (during : list MessageBus.BusEvent)
    (w : World) :
  let w' := exec (ChatSocketHandler.handleChatMessage socket data during) w in
  (outbox w' = outbox w /\ redis w' = redis w /\ sockets w' = sockets w)
  \/ exists message t,
       data = says message
       /\ now w <= t <= now w + elapsed during
       /\ (relayed socket (praised socket message t w) w w'
           \/ exists type, (type = "guess" \/ type = "message")
                /\ relayed socket (posted socket message type t w) w w').
Proof.
  intros w'.
  assert (Hpos : 0 <= elapsed during)
    by (clear; induction during as [|[? [?|]|?] es IH]; cbn [elapsed]; lia).
  destruct data as [[[message|]]|]; [| |by left].
  2:{ left. subst w'. unfold exec. by rewrite rpc_message_empty. }
  destruct (decide (message = "")) as [->|Hmsg].
  { left. subst w'. unfold exec. by rewrite rpc_message_empty. }
  destruct (truthy_str (roomCode (socket_of socket w))) eqn:Hroom.
  2:{ left. subst w'. unfold exec. by rewrite asking_handler_not_joined. }
  destruct (goes_through "check-guess" (check_guess socket message w) w) eqn:Hgo.
  - destruct (listening w) eqn:Hli.
    2:{ destruct (asked_in_vain _ _ w Hgo Hli) as (w1 & Hask & _ & Haw).
        destruct (asking_frames _ _ during w w1 w1 _ _ Hask (Haw during)) as (Ho & Hre & Hs).
        pose proof (asking_handler_run socket message during w w1 w1 _ _ Hroom Hmsg Hask
                      (Haw during)) as H.
        cbv beta zeta in H. fold w' in H. left. by rewrite H. }
    destruct (asked_promise _ _ w Hgo Hli) as (w1 & Hask & Hc & Hn & Hr & Haw).
    destruct (await_promise_ends (length (rpcs w)) during w1 _ Hc Hr)
      as (w2 & awaited & Hawait & Hn2).
    rewrite <- Haw in Hawait.
    destruct (asking_frames _ _ during w w1 w2 _ _ Hask Hawait) as (Ho & Hre & Hs).
    pose proof (asking_handler_run socket message during w w1 w2 _ _ Hroom Hmsg Hask Hawait)
      as H.
    cbv beta zeta in H. fold w' in H.
    destruct awaited as [resp|]; [|left; by rewrite H].
    destruct (verdict resp) as [| |active].
    + left. by rewrite H.
    + right. exists message, (now w2). split; [done|]. split; [lia|]. by left.
    + right. exists message, (now w2). split; [done|]. split; [lia|]. right.
      exists (if active then "guess" else "message"). split; [|done].
      destruct active; tauto.
  - destruct (asked_default _ _ w Hgo) as (w1 & Hask & Hn).
    pose proof (asking_handler_run socket message during w w1 w1 _ _ Hroom Hmsg Hask eq_refl)
      as H.
    cbn in H. fold w' in H. rewrite Hn in H.
    right. exists message, (now w). split; [done|]. split; [lia|]. right.
    exists "message". split; [by right|done].
Qed.

(** ** Connections that never joined *)

(** X13. On a connection that has no room code (it never joined, or its
    join was rejected), a chat message with a payload (in both variants of
    the handler), a leave request and a disconnect are no-ops: nothing is
    written, emitted or logged, and the game service is not asked.  A chat
    message without any payload throws on reading the payload, before the
    room code is looked at: the error is logged, and nothing else
    happens. *)
Theorem nothing_happens_before_joining
    (socket : string) (data : option MessageData) (during : list MessageBus.BusEvent)
    (w : World) :
  truthy_str (roomCode (socket_of socket w)) = false ->
  let logged := set_console_error (fun l => l ++ ["Error handling chat message:"]) w in
  let after := match data with Some _ => w | None => logged end in
  ChatSocketHandler.handleChatMessage socket data during w = (after, Ok tt)
  /\ ChatSocketHandlerCache.handleChatMessage RedisSingleton.redisClient socket data w
     = (after, Ok tt)
  /\ Common.handleLeaveChatRoom socket w = (w, Ok tt)
  /\ Common.handleDisconnect socket w = (w, Ok tt).
Proof.
  intros H logged after. subst logged after.
  split; [destruct data; [by apply asking_handler_not_joined|done]|].
  split; [destruct data; [by apply caching_handler_not_joined|done]|].
  unfold Common.handleLeaveChatRoom, Common.handleDisconnect, try_catch, bind, gets.
  by rewrite H.
Qed.

Lemma nothing_happens_before_joining_witness :
  ChatSocketHandler.handleChatMessage "s9" (Some guess) no_answer bob_joined
    = (bob_joined, Ok tt)
  /\ ChatSocketHandler.handleChatMessage "s9" None no_answer bob_joined
     = (set_console_error (fun l => l ++ ["Error handling chat message:"]) bob_joined, Ok tt)
  /\ Common.handleLeaveChatRoom "s9" bob_joined = (bob_joined, Ok tt)
  /\ Common.handleDisconnect "s9" bob_joined = (bob_joined, Ok tt).
Proof.
  assert (H : truthy_str (roomCode (socket_of "s9" bob_joined)) = false)
    by (vm_compute; reflexivity).
  destruct (nothing_happens_before_joining "s9" (Some guess) no_answer bob_joined H)
    as (E1 & _ & E3 & E4).
  destruct (nothing_happens_before_joining "s9" None no_answer bob_joined H)
    as (E2 & _).
  split; [exact E1|]. split; [exact E2|]. split; [exact E3|exact E4].
Defined.

(** ** Who a connection is *)

Lemma silent_keeps_identity {A} (id : string) x (c : M A) :
  silent c -> preserves (fun v => identity id v = x) c.
Proof.
  intros Hc w Hw. destruct (Hc w) as (_ & _ & Hs).
  unfold identity, socket_of in *. by rewrite Hs.
Qed.

Lemma identity_update_other (id socket : string) x (f : Socket -> Socket) :
  socket <> id -> preserves (fun v => identity id v = x) (update_socket socket f).
Proof.
  intros Hne w Hw. unfold identity, socket_of, exec, update_socket, modify in *. cbn.
  by rewrite lookup_insert_ne.
Qed.

Lemma identity_update_same (id socket : string) x (f : Socket -> Socket) :
  (forall s, roomCode (f s) = roomCode s /\ userId (f s) = userId s
             /\ username (f s) = username s) ->
  preserves (fun v => identity id v = x) (update_socket socket f).
Proof.
  intros Hf w Hw. unfold identity, exec, update_socket, modify in *. cbn [fst].
  destruct (decide (socket = id)) as [->|Hne].
  - assert (E : socket_of id (set_sockets (fun m => <[id := f (socket_of id w)]> m) w)
                = f (socket_of id w))
      by (unfold socket_of; cbn; by rewrite lookup_insert_eq).
    rewrite E. destruct (Hf (socket_of id w)) as (-> & -> & ->). exact Hw.
  - unfold socket_of in *. cbn. by rewrite lookup_insert_ne.
Qed.

Lemma identity_redis (id : string) x (f : Redis.db -> Redis.db) :
  preserves (fun v => identity id v = x) (modify (set_redis f)).
Proof. by intros w Hw. Qed.

Lemma identity_outbox (id : string) x (f : list Emit -> list Emit) :
  preserves (fun v => identity id v = x) (modify (set_outbox f)).
Proof. by intros w Hw. Qed.

Lemma identity_console (id : string) x (line : string) :
  preserves (fun v => identity id v = x) (console_error_ line).
Proof. by intros w Hw. Qed.

Lemma identity_store (id : string) x (room : string) (message : jsval) :
  preserves (fun v => identity id v = x) (RedisSingleton.storeChatMessage room message).
Proof.
  unfold RedisSingleton.storeChatMessage.
  apply preserves_bind; [apply identity_redis|]. intros _. apply identity_redis.
Qed.

Lemma identity_join_other (id socket : string) x (data : option JoinData) :
  socket <> id ->
  preserves (fun v => identity id v = x) (Common.handleJoinChatRoom socket data).
Proof.
  intros Hne. unfold Common.handleJoinChatRoom.
  apply preserves_try_catch.
  2:{ intros e. apply preserves_bind; [apply identity_console|]. intros _.
      apply identity_outbox. }
  apply preserves_bind; [destruct data; [apply preserves_ret|apply preserves_throw]|].
  intros d. destruct (_ || _); [apply identity_outbox|].
  apply preserves_bind; [by apply identity_update_other|]. intros _.
  apply preserves_bind; [by apply identity_update_other|]. intros _.
  apply preserves_bind; [apply preserves_gets|]. intros t.
  apply preserves_bind; [apply identity_redis|]. intros _.
  apply preserves_bind.
  { intros w Hw. unfold exec. by rewrite getChatHistory_eq. }
  intros messages.
  apply preserves_bind; [apply identity_outbox|]. intros _. apply identity_outbox.
Qed.

Lemma identity_leave (id socket : string) x :
  preserves (fun v => identity id v = x) (Common.handleLeaveChatRoom socket).
Proof.
  unfold Common.handleLeaveChatRoom.
  apply preserves_try_catch; [|intros e; apply identity_console].
  apply preserves_bind; [apply preserves_gets|]. intros s.
  destruct (negb _); [apply preserves_ret|].
  apply preserves_bind; [apply identity_redis|]. intros _.
  apply preserves_bind; [apply identity_outbox|]. intros _.
  by apply identity_update_same.
Qed.

Lemma identity_disconnect (id socket : string) x :
  preserves (fun v => identity id v = x) (Common.handleDisconnect socket).
Proof.
  unfold Common.handleDisconnect.
  apply preserves_try_catch; [|intros e; apply identity_console].
  apply preserves_bind; [apply preserves_gets|]. intros s.
  destruct (_ && _); [|apply preserves_ret].
  apply preserves_bind; [apply identity_redis|]. intros _. apply identity_outbox.
Qed.

Lemma identity_asking_message (id socket : string) x (data : option MessageData)
    (during : list MessageBus.BusEvent) :
  preserves (fun v => identity id v = x)
    (ChatSocketHandler.handleChatMessage socket data during).
Proof.
  unfold ChatSocketHandler.handleChatMessage.
  apply preserves_try_catch; [|intros e; apply identity_console].
  apply preserves_bind; [destruct data; [apply preserves_ret|apply preserves_throw]|].
  intros d. apply preserves_bind; [apply preserves_gets|]. intros s.
  destruct (_ || _); [apply preserves_ret|].
  apply preserves_bind; [apply silent_keeps_identity, silent_askGameService|]. intros asked.
  apply preserves_bind; [apply silent_keeps_identity, silent_await|]. intros [resp|];
    [|apply preserves_ret].
  apply preserves_bind; [apply preserves_lift|]. intros isCorrect.
  destruct (truthy isCorrect).
  - apply preserves_bind; [apply preserves_gets|]. intros t1.
    apply preserves_bind; [apply preserves_gets|]. intros t2.
    apply preserves_bind; [apply identity_store|]. intros _. apply identity_outbox.
  - apply preserves_bind; [apply preserves_gets|]. intros t1.
    apply preserves_bind; [apply preserves_gets|]. intros t2.
    apply preserves_bind; [apply preserves_lift|]. intros active.
    apply preserves_bind; [apply identity_store|]. intros _. apply identity_outbox.
Qed.

Lemma identity_caching_message (id socket : string) x (data : option MessageData) :
  preserves (fun v => identity id v = x)
    (ChatSocketHandlerCache.handleChatMessage RedisSingleton.redisClient socket data).
Proof.
  unfold ChatSocketHandlerCache.handleChatMessage.
  apply preserves_try_catch; [|intros e; apply identity_console].
  apply preserves_bind; [destruct data; [apply preserves_ret|apply preserves_throw]|].
  intros d. apply preserves_bind; [apply preserves_gets|]. intros s.
  destruct (_ || _); [apply preserves_ret|].
  apply preserves_bind.
  { intros w Hw. unfold exec. by rewrite check_game_state_redisClient. }
  intros locals. destruct (_ && _).
  - apply preserves_bind; [apply preserves_gets|]. intros t1.
    apply preserves_bind; [apply preserves_gets|]. intros t2.
    apply preserves_bind; [apply identity_store|]. intros _.
    apply preserves_bind; [apply identity_outbox|]. intros _.
    apply preserves_bind; [apply silent_keeps_identity, silent_askGameService|].
    intros _. apply preserves_ret.
  - apply preserves_bind; [apply preserves_gets|]. intros t1.
    apply preserves_bind; [apply preserves_gets|]. intros t2.
    apply preserves_bind; [apply identity_store|]. intros _. apply identity_outbox.
Qed.

Lemma identity_listeners (id socket : string) x (e : ClientEvent)
    (handleChatMessage : string -> option MessageData -> list MessageBus.BusEvent -> M unit) :
  (forall s d during, preserves (fun v => identity id v = x) (handleChatMessage s d during)) ->
  socket <> id \/ is_join e = false ->
  preserves (fun v => identity id v = x) (setupSocketEvents handleChatMessage socket e).
Proof.
  intros Hm Hno. destruct e; cbn [setupSocketEvents].
  - destruct Hno as [Hne|Hj]; [by apply identity_join_other|discriminate Hj].
  - apply Hm.
  - apply identity_leave.
  - apply identity_disconnect.
  - apply identity_console.
Qed.

Lemma identity_serve (id : string) (listeners : string -> ClientEvent -> M unit)
    (events : list (string * ClientEvent)) :
  (forall x socket e, socket <> id \/ is_join e = false ->
     preserves (fun v => identity id v = x) (listeners socket e)) ->
  no_join_of id events ->
  forall w, identity id (exec (serve listeners events) w) = identity id w.
Proof.
  intros Hl. induction events as [|[socket e] events IH]; intros Hno w; [done|].
  cbn [serve]. unfold exec, bind, gets. cbn [fst snd].
  destruct (exit_code w); [done|].
  assert (H1 : socket <> id \/ is_join e = false)
    by (apply Hno; apply elem_of_cons; by left).
  pose proof (Hl (identity id w) socket e H1 w eq_refl) as Hk. unfold exec in Hk.
  assert (Hno' : no_join_of id events)
    by (intros s' e' Hin; apply Hno; apply elem_of_cons; by right).
  specialize (IH Hno').
  destruct (listeners socket e w) as [w1 [[]|err]]; cbn in Hk |- *.
  - rewrite <- Hk. apply IH.
  - exact Hk.
Qed.

(** X14. Only its own join request changes who a connection is: whatever
    else the clients send, on this connection or on others, and whatever
    the broker does meanwhile, the room code, user id and username of the
    connection stay as they are.  In particular leaving and disconnecting
    do not clear them.  This holds for both variants of the message
    handler. *)
Theorem only_its_join_changes_who_a_connection_is
    (id : string) (events : list (string * ClientEvent)) (w : World) :
  no_join_of id events ->
  identity id (exec (serve asking_variant events) w) = identity id w
  /\ identity id (exec (serve caching_variant events) w) = identity id w.
Proof.
  intros Hno. split.
  - apply identity_serve; [|exact Hno]. intros x socket e He.
    apply identity_listeners; [|exact He]. intros s d during.
    apply identity_asking_message.
  - apply identity_serve; [|exact Hno]. intros x socket e He.
    apply identity_listeners; [|exact He]. intros s d during.
    apply identity_caching_message.
Qed.

Lemma only_its_join_changes_who_a_connection_is_witness :
  identity "s2" (exec (serve asking_variant after_joining) bob_joined)
    = (Some "ABCD", Some "u2", Some "bob")
  /\ identity "s2" (exec (serve caching_variant after_joining) bob_joined)
     = (Some "ABCD", Some "u2", Some "bob").
Proof.
  apply (only_its_join_changes_who_a_connection_is "s2" after_joining bob_joined).
  intros socket e He. unfold after_joining in He. rewrite !elem_of_cons in He.
  destruct He as [He|[He|[He|[He|[He|He]]]]];
    [injection He as -> ->; by right
    |injection He as -> ->; by right
    |injection He as -> ->; by left
    |injection He as -> ->; by right
    |injection He as -> ->; by right
    |by apply elem_of_nil in He].
Defined.

(** ** Game events *)

(** All [handleGameEvent] can do: nothing, log its error, or emit one event
    to the room of the envelope. *)
Lemma handleGameEvent_cases (msg : Delivery) (w : World) :
  exists w1,
    MessageBus.handleGameEvent msg w = (w1, Ok tt)
    /\ (w1 = w
        \/ w1 = game_event_error w
        \/ exists ev p,
             w1 = set_outbox (fun l => l ++ [{| target := ToRoom (envelope_room msg);
                                                event := ev; payload := p |}]) w).
Proof.
  unfold envelope_room, game_event_error.
  unfold MessageBus.handleGameEvent, try_catch, bind, lift, SocketSingleton.getIO,
    SocketSingleton.io_to_emit, modify, console_error_, Date_now, gets, ret.
  destruct (content msg) as [event|raw]; cbn [JSON_parse]; [|eauto].
  destruct (get event "type") as [type|] eqn:Et; [|eauto].
  destruct (get event "roomCode") as [room|] eqn:Er; [|eauto].
  destruct (get event "data") as [data|] eqn:Ed; [|eauto].
  destruct (io_ready w); [|eauto].
  destruct (is_str type "game-started"); [eauto 7|].
  destruct (is_str type "game-ended"); [eauto 7|].
  destruct (is_str type "correct-guess").
  { destruct (get data "message") as [m|]; [|eauto].
    destruct (truthy m); [|eauto].
    destruct (get data "userId") as [u|]; [eauto 7|eauto]. }
  destruct (is_str type "new-round").
  { destruct (get data "round") as [r|]; [eauto 7|eauto]. }
  destruct (is_str type "game-restarted"); eauto 7.
Qed.

(** X15. The consumer of the game events acknowledges every delivery
    exactly once, whatever it carries: an envelope that cannot be read or
    handled is acknowledged like any other, never rejected or requeued.
    Handling an envelope never touches the cache or a connection, and
    emits at most one event, to the room the envelope names. *)
Theorem every_game_event_is_acknowledged (msg : Delivery) (w : World) :
  channel w = ChOpen ->
  exists w',
    MessageBus.on_game_event (Some msg) w = (w', Ok tt)
    /\ chan_log w' = chan_log w ++ [Ack (deliveryTag msg)]
    /\ redis w' = redis w
    /\ sockets w' = sockets w
    /\ (outbox w' = outbox w
        \/ exists ev p,
             outbox w' = outbox w ++ [{| target := ToRoom (envelope_room msg);
                                         event := ev; payload := p |}]).
Proof.
  intros Hopen. destruct (handleGameEvent_cases msg w) as (w1 & E & Hw1).
  cbn [MessageBus.on_game_event]. unfold bind. rewrite E.
  unfold MessageBus.chan_send.
  destruct Hw1 as [->|[->|(ev & p & ->)]]; cbn [channel game_event_error set_console_error
    set_outbox]; rewrite Hopen; eexists; (split; [reflexivity|]); cbn; eauto 8.
Qed.

Lemma every_game_event_is_acknowledged_witness :
  exists w',
    MessageBus.on_game_event (Some garbled) started = (w', Ok tt)
    /\ chan_log w' = chan_log started ++ [Ack (deliveryTag garbled)]
    /\ redis w' = redis started
    /\ sockets w' = sockets started
    /\ (outbox w' = outbox started
        \/ exists ev p,
             outbox w' = outbox started ++ [{| target := ToRoom (envelope_room garbled);
                                               event := ev; payload := p |}]).
Proof.
  apply (every_game_event_is_acknowledged garbled started). reflexivity.
Defined.

(** X16. What needs the data of an envelope and what does not.  Without
    data (absent or null), 'game-started', 'game-ended' and
    'game-restarted' are announced to the room all the same; 'correct-guess'
    and 'new-round' fail on reading the data: nothing is emitted and the
    error is logged. *)
Theorem envelopes_without_data (tag : nat) (fields : list (string * jsval)) (w : World) :
  io_ready w = true ->
  assoc "data" fields = VUndefined \/ assoc "data" fields = VNull ->
  let w' := exec (MessageBus.handleGameEvent (envelope tag fields)) w in
  let type := assoc "type" fields in
  let room := assoc "roomCode" fields in
  (type = VStr "game-started" ->
     w' = set_outbox (fun l => l ++ [mode_notice room true]) w)
  /\ (type = VStr "game-ended" ->
     w' = set_outbox (fun l => l ++ [mode_notice room false]) w)
  /\ (type = VStr "game-restarted" ->
     w' = set_outbox (fun l => l ++ [restart_notice room]) w)
  /\ (type = VStr "correct-guess" \/ type = VStr "new-round" ->
     w' = game_event_error w).
Proof.
  intros Hio Hdata w' type room. subst w' type room.
  unfold exec, MessageBus.handleGameEvent, try_catch, bind, lift, SocketSingleton.getIO.
  cbn [envelope content JSON_parse get]. rewrite Hio.
  repeat split.
  - intros ->. reflexivity.
  - intros ->. reflexivity.
  - intros ->. reflexivity.
  - intros [-> | ->]; cbn [is_str String.eqb Ascii.eqb Bool.eqb];
      destruct Hdata as [-> | ->]; reflexivity.
Qed.

Lemma envelopes_without_data_witness :
  exec (MessageBus.handleGameEvent (bare "game-started")) started
    = set_outbox (fun l => l ++ [mode_notice (VStr "ABCD") true]) started
  /\ exec (MessageBus.handleGameEvent (bare "new-round")) started
     = game_event_error started.
Proof.
  split.
  - apply (envelopes_without_data 4 [("type", VStr "game-started"); ("roomCode", VStr "ABCD")]
             started eq_refl (or_introl eq_refl)).
    reflexivity.
  - apply (envelopes_without_data 4 [("type", VStr "new-round"); ("roomCode", VStr "ABCD")]
             started eq_refl (or_introl eq_refl)).
    right. reflexivity.
Defined.

(** X17. The points of a correct guess reach the room as one 'chat-message'
    of type 'system' that carries the message of the envelope as it is,
    stamped with the current time; unlike the lines of the chat handlers it
    is not put in the history.  When the envelope's message is empty or
    missing, nothing is emitted and nothing is logged.  The id of the line
    names the user; the user id is one that is written out in full ([plain]:
    any string, or a number that is held exactly). *)
Theorem points_are_announced_but_not_stored
    (tag : nat) (fields : list (string * jsval)) (data message userId : jsval) (w : World) :
  io_ready w = true ->
  assoc "type" fields = VStr "correct-guess" ->
  assoc "data" fields = data ->
  get data "message" = Ok message ->
  get data "userId" = Ok userId ->
  plain userId = true ->
  let w' := exec (MessageBus.handleGameEvent (envelope tag fields)) w in
  (if truthy message
   then outbox w' = outbox w ++ [points_notice (assoc "roomCode" fields) message userId (now w)]
   else outbox w' = outbox w)
  /\ redis w' = redis w
  /\ (forall room, stored room w' = stored room w)
  /\ console_error w' = console_error w.
Proof.
  intros Hio Hty Hda Hm Hu _ w'. subst w'.
  unfold exec, MessageBus.handleGameEvent, try_catch, bind, lift, SocketSingleton.getIO.
  cbn [envelope content JSON_parse get]. rewrite Hio, Hty, Hda.
  cbn [is_str String.eqb Ascii.eqb Bool.eqb]. rewrite Hm.
  destruct (truthy message); [|done].
  unfold Date_now, gets. rewrite Hu. done.
Qed.

Lemma points_are_announced_but_not_stored_witness :
  let w' := exec (MessageBus.handleGameEvent points_of_bob) bob_joined in
  outbox w' = outbox bob_joined
              ++ [points_notice (VStr "ABCD") (VStr "bob guessed the word! +80 points")
                    (VStr "u2") (now bob_joined)]
  /\ redis w' = redis bob_joined.
Proof.
  destruct (points_are_announced_but_not_stored 6
              [("type", VStr "correct-guess"); ("roomCode", VStr "ABCD");
               ("data", VObj [("userId", VStr "u2");
                              ("message", VStr "bob guessed the word! +80 points")])]
              _ (VStr "bob guessed the word! +80 points") (VStr "u2") bob_joined
              eq_refl eq_refl eq_refl eq_refl eq_refl eq_refl) as (E1 & E2 & _).
  split; [exact E1|exact E2].
Defined.

(** X18. Before [setup] has given the service its Socket.IO server, every
    game event is lost: whatever the delivery carries, nothing is emitted
    and the handler logs its error, once. *)
Theorem game_events_before_setup_are_lost (msg : Delivery) (w : World) :
  io_ready w = false ->
  exec (MessageBus.handleGameEvent msg) w = game_event_error w.
Proof.
  intros Hio.
  unfold exec, MessageBus.handleGameEvent, try_catch, bind, lift, SocketSingleton.getIO.
  destruct (content msg) as [event|raw]; cbn [JSON_parse]; [|reflexivity].
  destruct (get event "type") as [type|]; [|reflexivity].
  destruct (get event "roomCode") as [room|]; [|reflexivity].
  destruct (get event "data") as [data|]; [|reflexivity].
  by rewrite Hio.
Qed.

Lemma game_events_before_setup_are_lost_witness :
  exec (MessageBus.handleGameEvent round_three) before_setup = game_event_error before_setup.
Proof.
  apply (game_events_before_setup_are_lost round_three before_setup). reflexivity.
Defined.

(** ** Start-up of the message bus *)

Lemma time_slept_app (l : list Z) (n : nat) (d : Z) :
  foldr (fun ms total => Z.max 0 ms + total) 0 (l ++ replicate n d)
  = foldr (fun ms total => Z.max 0 ms + total) 0 l + Z.of_nat n * Z.max 0 d.
Proof.
  induction l as [|x l IH]; cbn [app foldr]; [|lia].
  induction n as [|n IHn]; cbn [replicate foldr]; lia.
Qed.

(** The clock moves only while [connectWithRetry] sleeps. *)
Lemma connect_loop_clock (maxRetries retryDelay : Z) (fuel : nat) :
  forall (attempt : Z) (w w' : World) (r : result unit),
  MessageBus.connect_loop fuel attempt maxRetries retryDelay w = (w', r) ->
  now w' - time_slept w' = now w - time_slept w.
Proof.
  induction fuel as [|fuel IH]; intros attempt w w' r Hrun.
  - cbn in Hrun. destruct (attempt <=? maxRetries); by injection Hrun as <- _.
  - rewrite connect_loop_unfold in Hrun.
    destruct (attempt <=? maxRetries); [|by injection Hrun as <- _].
    unfold bind at 1, try_catch in Hrun. unfold bind at 1 in Hrun.
    destruct (attempt_succeeds (broker w) (S (connects w))) eqn:Ha.
    + rewrite (connect_once_succeeds w Ha) in Hrun. by injection Hrun as <- _.
    + destruct (connect_once_fails w Ha) as (w1 & E1 & _ & _ & Hs1 & Hn1 & _).
      rewrite E1 in Hrun. unfold bind at 1, console_error_ at 1, modify at 1 in Hrun.
      destruct (attempt =? maxRetries).
      * injection Hrun as <- _. unfold time_slept. cbn. rewrite Hs1, Hn1. done.
      * unfold bind at 1, MessageBus.sleep, modify in Hrun. cbn [ret] in Hrun.
        apply IH in Hrun. rewrite Hrun. unfold time_slept. cbn. rewrite Hs1, Hn1.
        generalize (slept w). intros l. induction l as [|x l IHl]; cbn; lia.
Qed.

(** X19. [initialize] tries five times and sleeps five seconds between two
    attempts; nothing else moves the clock.  When the broker stays away it
    throws the error of the fifth attempt after 20 seconds of sleep; when
    the k-th attempt is the first to go through it returns after 5(k-1)
    seconds of sleep, with an open channel. *)
Theorem initialize_takes_its_sleeps (w : World) :
  let b := broker w in
  let c := connects w in
  let w' := exec MessageBus.initialize w in
  let r := eval MessageBus.initialize w in
  ((forall k, (1 <= k <= 5)%nat -> attempt_succeeds b (c + k) = false) ->
   r = Throw (attempt_error b (c + 5))
   /\ now w' = now w + 20000)
  /\ (forall k,
      (1 <= k <= 5)%nat ->
      (forall i, (1 <= i < k)%nat -> attempt_succeeds b (c + i) = false) ->
      attempt_succeeds b (c + k) = true ->
      r = Ok tt
      /\ now w' = now w + 5000 * (Z.of_nat k - 1)
      /\ channel w' = ChOpen).
Proof.
  intros b c w' r.
  assert (Hrun : MessageBus.connect_loop 5 1 5 5000 w = (w', r)).
  { unfold w', r, exec, eval, MessageBus.initialize, MessageBus.connectWithRetry.
    change (Z.to_nat 5) with 5%nat.
    by destruct (MessageBus.connect_loop 5 1 5 5000 w). }
  pose proof (connect_loop_clock 5 5000 5 1 w w' r Hrun) as Hclock.
  pose proof (connect_loop_spec 5 5000 5 1 w w' r) as H.
  change (Z.to_nat (5 - 1 + 1)) with 5%nat in H. cbv zeta in H.
  specialize (H ltac:(lia) Hrun) as [_ H]. fold b c in H.
  unfold time_slept in Hclock.
  split.
  - intros Hall. rewrite (failures_all b 5 c Hall), Nat.ltb_irrefl in H.
    destruct H as (_ & Hs & ->). rewrite Hs, time_slept_app in Hclock.
    split; [done|lia].
  - intros k Hk Hbefore Hat. rewrite (failures_first b 5 c k Hk Hbefore Hat) in H.
    assert (E : (k - 1 <? 5)%nat = true) by (apply Nat.ltb_lt; lia).
    rewrite E in H. destruct H as (-> & _ & Hs & _ & Hc & _).
    rewrite Hs, time_slept_app in Hclock. split; [done|]. split; [lia|done].
Qed.

Lemma initialize_takes_its_sleeps_witness :
  (eval MessageBus.initialize (booting down) = Throw (TransportError "connect ECONNREFUSED")
   /\ now (exec MessageBus.initialize (booting down)) = now (booting down) + 20000)
  /\ (eval MessageBus.initialize (booting down_twice) = Ok tt
      /\ now (exec MessageBus.initialize (booting down_twice))
         = now (booting down_twice) + 10000).
Proof.
  destruct (initialize_takes_its_sleeps (booting down)) as [Ha _].
  destruct (initialize_takes_its_sleeps (booting down_twice)) as [_ Hb].
  split.
  - destruct Ha as (E1 & E2); [by intros k Hk|]. split; [exact E1|exact E2].
  - destruct (Hb 3%nat) as (E1 & E2 & _); [lia| |reflexivity|].
    + intros i Hi. assert (i = 1 \/ i = 2)%nat as [-> | ->] by lia; reflexivity.
    + split; [exact E1|exact E2].
Defined.

(** X20. With no retries allowed ([maxRetries] zero or negative),
    [connectWithRetry] returns normally without a single attempt: nothing
    is connected, declared, slept or logged. *)
Theorem connectWithRetry_without_retries_does_nothing
    (maxRetries retryDelay : Z) (w : World) :
  maxRetries <= 0 ->
  MessageBus.connectWithRetry maxRetries retryDelay w = (w, Ok tt).
Proof.
  intros Hm. unfold MessageBus.connectWithRetry.
  replace (Z.to_nat maxRetries) with 0%nat by lia. cbn [MessageBus.connect_loop].
  by replace (1 <=? maxRetries) with false by lia.
Qed.

Lemma connectWithRetry_without_retries_does_nothing_witness :
  MessageBus.connectWithRetry 0 5000 (booting willing) = (booting willing, Ok tt).
Proof.
  apply (connectWithRetry_without_retries_does_nothing 0 5000 (booting willing)). lia.
Defined.

(** ** Start-up of the service *)

Lemma preserves_modify (P : World -> Prop) (f : World -> World) :
  (forall w, P w -> P (f w)) -> preserves P (modify f).
Proof. intros Hf w Hw. by apply Hf. Qed.

Lemma connect_once_io (x : bool) (c : option Z) :
  preserves (fun v => io_ready v = x /\ exit_code v = c) MessageBus.connect_once.
Proof.
  unfold MessageBus.connect_once.
  repeat first
    [ apply preserves_bind; [|intros ?]
    | apply preserves_ret
    | apply preserves_chan; by intros ? ? ? ].
  - intros w Hw. unfold exec, MessageBus.amqp_connect. cbn.
    by destruct (connect_ok _ _).
  - intros w Hw. unfold exec, MessageBus.createChannel.
    by destruct (createChannel_ok _ _).
Qed.

Lemma connect_loop_io (x : bool) (c : option Z) (maxRetries retryDelay : Z) (fuel : nat) :
  forall attempt,
  preserves (fun v => io_ready v = x /\ exit_code v = c)
    (MessageBus.connect_loop fuel attempt maxRetries retryDelay).
Proof.
  induction fuel as [|fuel IH]; intros attempt.
  - cbn. destruct (_ <=? _); [apply preserves_throw|apply preserves_ret].
  - rewrite connect_loop_unfold. destruct (_ <=? _); [|apply preserves_ret].
    apply preserves_bind.
    + apply preserves_try_catch.
      * apply preserves_bind; [apply connect_once_io|]. intros _. apply preserves_ret.
      * intros e. apply preserves_bind; [by intros w Hw|]. intros _.
        destruct (_ =? _).
        -- apply preserves_bind; [by intros w Hw|]. intros _. apply preserves_throw.
        -- apply preserves_bind; [by intros w Hw|]. intros _. apply preserves_ret.
    + intros [|]; [apply preserves_ret|apply IH].
Qed.

Lemma initialize_io (w : World) :
  io_ready (exec MessageBus.initialize w) = io_ready w
  /\ exit_code (exec MessageBus.initialize w) = exit_code w.
Proof. by apply (connect_loop_io (io_ready w) (exit_code w)). Qed.

(** What [initializeServices] does after the message bus is up. *)
Lemma initializeServices_run (attempt : Index.Connecting) (w : World) :
  Index.initializeServices attempt w
  = match attempt with
    | Index.StillConnecting => (w, Ok Index.Waiting)
    | Index.Rejected error => (failed_to_initialize w, Ok Index.Exited)
    | Index.Connected =>
        match MessageBus.initialize w with
        | (w1, Ok _) => (if io_ready w1 then w1 else set_io_ready true w1, Ok Index.Ready)
        | (w1, Throw _) => (failed_to_initialize w1, Ok Index.Exited)
        end
    end.
Proof.
  unfold Index.initializeServices, try_catch. unfold bind at 1.
  destruct attempt as [|error|]; cbn [Index.redisClient_connect throw ret];
    [|reflexivity|reflexivity].
  unfold bind at 1. destruct (MessageBus.initialize w) as [w1 [[]|e]]; [|reflexivity].
  unfold SocketServer.setup, Index.chatSocketHandler_initialize, SocketSingleton.getIO.
  unfold bind, gets, modify, ret.
  destruct (io_ready w1) eqn:E; cbn; rewrite ?E; reflexivity.
Qed.

(** X21. [initializeServices] never throws, and how it stands follows how
    the connection to Redis stands.  While that is pending the function
    waits, and has done nothing.  When it is rejected the function ends the
    process with exit code 1, without trying the broker or setting up
    Socket.IO.  When it is made the function initialises the message bus:
    if that fails it ends the process with exit code 1 and Socket.IO is not
    set up; otherwise it returns with Socket.IO set up, after which [getIO]
    succeeds, and the process goes on. *)
Theorem initializeServices_exits_or_is_ready (attempt : Index.Connecting) (w : World) :
  exit_code w = None ->
  let w' := exec (Index.initializeServices attempt) w in
  exists how,
    eval (Index.initializeServices attempt) w = Ok how
    /\ match attempt with
       | Index.StillConnecting => how = Index.Waiting /\ w' = w
       | Index.Rejected _ =>
           how = Index.Exited /\ exit_code w' = Some 1
           /\ connects w' = connects w /\ chan_log w' = chan_log w
           /\ io_ready w' = io_ready w
       | Index.Connected =>
           match eval MessageBus.initialize w with
           | Throw _ =>
               how = Index.Exited /\ exit_code w' = Some 1 /\ io_ready w' = io_ready w
           | Ok _ =>
               how = Index.Ready /\ exit_code w' = None
               /\ io_ready w' = true /\ eval SocketSingleton.getIO w' = Ok tt
               /\ channel w' = channel (exec MessageBus.initialize w)
           end
       end.
Proof.
  intros Hrun w'. subst w'. unfold exec, eval.
  rewrite initializeServices_run.
  destruct (initialize_io w) as [Hio Hex]. unfold exec in Hio, Hex.
  destruct attempt as [|error|].
  - destruct (MessageBus.initialize w) as [w1 [[]|e]]; cbn [fst snd] in *.
    + exists Index.Ready. split; [done|]. split; [done|].
      unfold SocketSingleton.getIO.
      destruct (io_ready w1) eqn:E; cbn; by rewrite ?E, ?Hex, ?Hrun.
    + exists Index.Exited. split; [done|]. split; [done|]. cbn. by rewrite Hex, Hrun.
  - exists Index.Exited. cbn. by rewrite Hrun.
  - by exists Index.Waiting.
Qed.

Lemma initializeServices_exits_or_is_ready_witness :
  (io_ready (exec (Index.initializeServices Index.Connected) (booting willing)) = true
   /\ exit_code (exec (Index.initializeServices Index.Connected) (booting willing)) = None)
  /\ exit_code (exec (Index.initializeServices Index.Connected) (booting down)) = Some 1
  /\ exec (Index.initializeServices Index.StillConnecting) (booting down) = booting down.
Proof.
  destruct (initializeServices_exits_or_is_ready Index.Connected (booting willing) eq_refl)
    as (how & _ & H).
  destruct (initializeServices_exits_or_is_ready Index.Connected (booting down) eq_refl)
    as (how' & _ & H').
  destruct (initializeServices_exits_or_is_ready Index.StillConnecting (booting down) eq_refl)
    as (how'' & _ & _ & H'').
  vm_compute (eval MessageBus.initialize (booting willing)) in H.
  vm_compute (eval MessageBus.initialize (booting down)) in H'.
  destruct H as (_ & H1 & H2 & _). destruct H' as (_ & H3 & _).
  done.
Defined.

(** ** Replies of the game service *)

(** X22. A reply that cannot be read (it is not JSON, or it is null) is
    negatively acknowledged without requeue and the error is logged; it
    settles no promise and stops no timer, whichever request is waiting. *)
Theorem unreadable_reply_is_dropped (h : nat) (msg : Delivery) (w : World) :
  channel w = ChOpen ->
  unreadable msg ->
  exists w',
    MessageBus.on_reply h (Some msg) w = (w', Ok tt)
    /\ chan_log w' = chan_log w ++ [Nack (deliveryTag msg) false false]
    /\ console_error w' = console_error w ++ ["Error parsing game response:"]
    /\ rpcs w' = rpcs w
    /\ outbox w' = outbox w /\ redis w' = redis w.
Proof.
  intros Hopen Hun. unfold unreadable in Hun.
  unfold MessageBus.on_reply, bind at 1, gets at 1.
  unfold try_catch, bind at 1, lift at 1.
  destruct (JSON_parse (content msg)) as [response|e].
  - destruct Hun as [e Hg]. unfold bind at 1, lift at 1. rewrite Hg.
    unfold bind, console_error_, modify, MessageBus.chan_send. cbn. rewrite Hopen.
    eexists. split; [reflexivity|]. done.
  - unfold bind, console_error_, modify, MessageBus.chan_send. cbn. rewrite Hopen.
    eexists. split; [reflexivity|]. done.
Qed.

Lemma unreadable_reply_is_dropped_witness :
  exists w',
    MessageBus.on_reply 0 (Some null_reply) asking = (w', Ok tt)
    /\ chan_log w' = chan_log asking ++ [Nack 9 false false]
    /\ console_error w' = console_error asking ++ ["Error parsing game response:"]
    /\ rpcs w' = rpcs asking
    /\ outbox w' = outbox asking /\ redis w' = redis asking.
Proof.
  apply (unreadable_reply_is_dropped 0 null_reply asking).
  - reflexivity.
  - unfold unreadable. cbn. eexists. reflexivity.
Defined.

(** X23. Every reply that carries the correlation id is acknowledged, once,
    also when it comes late or twice; only the first one that finds the
    promise pending decides the outcome, and a late one does not replace
    the default the timer has given. *)
Theorem matching_reply_is_always_acknowledged
    (h : nat) (msg : Delivery) (w : World) (r : Rpc) :
  channel w = ChOpen ->
  rpcs w !! h = Some r ->
  matches (requestId r) msg = true ->
  let w' := exec (MessageBus.on_reply h (Some msg)) w in
  eval (MessageBus.on_reply h (Some msg)) w = Ok tt
  /\ chan_log w' = chan_log w ++ [Ack (deliveryTag msg)]
  /\ outcome h w' = Some (default (reply_data msg) (settled r))
  /\ console_error w' = console_error w.
Proof.
  intros Hopen Hr Hm w'.
  assert (Hrid : matches (rid_of h w) msg = true) by (unfold rid_of; by rewrite Hr).
  subst w'. unfold exec, eval. rewrite (on_reply_matched h msg w Hopen Hrid).
  cbn [fst snd]. repeat split.
  unfold outcome. cbn.
  rewrite list_lookup_alter, decide_True by done. rewrite Hr. cbn.
  unfold settle. cbn. destruct (settled r) eqn:E; cbn; by rewrite ?E.
Qed.

Lemma matching_reply_is_always_acknowledged_witness :
  let late := exec (MessageBus.bus_run [MessageBus.Elapse 1500]) asking in
  let w' := exec (MessageBus.on_reply 0 (Some says_correct)) late in
  chan_log w' = chan_log late ++ [Ack 1]
  /\ outcome 0 w' = Some MessageBus.default_response.
Proof.
  intros late w'.
  destruct (matching_reply_is_always_acknowledged 0 says_correct late
              {| requestId := "1700000000000-0.25";
                 replyQueue := "chat.response.1700000000000-0.25";
                 timeout := None;
                 settled := Some MessageBus.default_response |})
    as (_ & E1 & E2 & _).
  - reflexivity.
  - vm_compute. reflexivity.
  - vm_compute. reflexivity.
  - split; [exact E1|exact E2].
Defined.

(** X24. A request whose set-up goes through declares its reply queue
    (exclusive, auto-delete, and durable, as nothing says otherwise),
    publishes the request persistently to 'game.requests' with the key
    'game.request', and only then starts to consume the reply queue; it
    logs nothing and hands its promise to the caller.  When the broker
    refuses the consumer nothing handles the rejection: the promise is
    handed out all the same, but the process ends with exit code 1 (if it
    was running), and a caller that awaits the promise never resumes.
    Otherwise the process goes on as it was. *)
Theorem request_is_declared_published_then_consumed
    (action : string) (data : jsval) (w : World) :
  goes_through action data w = true ->
  let w1 := exec (MessageBus.askGameService action data) w in
  let promise := MessageBus.Promised (length (rpcs w)) in
  eval (MessageBus.askGameService action data) w = Ok promise
  /\ chan_log w1 = chan_log w ++ request_trace action data w
  /\ console_error w1 = console_error w
  /\ random w1 = tail (random w)
  /\ (if refuses (broker w) (connects w) (next_consume w)
      then exit_code w1 = Some (default 1 (exit_code w))
           /\ forall during, MessageBus.await promise during w1 = (w1, Ok None)
      else exit_code w1 = exit_code w).
Proof.
  intros Hgo w1 promise.
  destruct (request_trace_spec action data w Hgo) as (Hlog & Herr & Hrand).
  fold w1 in Hlog, Herr, Hrand.
  destruct (askGameService_cases action data w) as [w1' H].
  cbv zeta in H. unfold goes_through in Hgo. rewrite Hgo in H.
  destruct H as (E & _ & _ & _ & Hexit).
  assert (Hw1 : w1 = w1') by (unfold w1, exec; by rewrite E).
  rewrite <- Hw1 in Hexit.
  split; [unfold eval; by rewrite E|].
  split; [exact Hlog|]. split; [exact Herr|]. split; [exact Hrand|].
  destruct (refuses (broker w) (connects w) (next_consume w)); [|exact Hexit].
  split; [exact Hexit|]. intros during.
  unfold promise. cbn [MessageBus.await]. unfold bind, gets. by rewrite Hexit.
Qed.

Lemma request_is_declared_published_then_consumed_witness :
  (chan_log asking
   = [AssertQueue "chat.response.1700000000000-0.25" true true true;
      Publish "game.requests" "game.request"
        (Json (next_request "check-guess" (VObj [("guess", VStr "apple")]) started)) true;
      Consume "chat.response.1700000000000-0.25" false]
   /\ exit_code asking = None)
  /\ exit_code (exec (MessageBus.askGameService "check-guess" (VObj [("guess", VStr "apple")]))
                  unheard) = Some 1.
Proof.
  destruct (request_is_declared_published_then_consumed "check-guess"
              (VObj [("guess", VStr "apple")]) started) as (_ & E & _ & _ & X).
  { vm_compute. reflexivity. }
  destruct (request_is_declared_published_then_consumed "check-guess"
              (VObj [("guess", VStr "apple")]) unheard) as (_ & _ & _ & _ & X').
  { vm_compute. reflexivity. }
  change (refuses (broker started) (connects started) (next_consume started))
    with false in X.
  change (refuses (broker unheard) (connects unheard) (next_consume unheard))
    with true in X'.
  destruct X' as [X' _].
  split; [split|].
  - unfold asking. rewrite E. vm_compute. reflexivity.
  - exact X.
  - exact X'.
Defined.

(** ** What the cache-reading handler takes for a correct guess *)

Lemma is_str_true (v : jsval) (s : string) : is_str v s = true -> v = VStr s.
Proof. destruct v; cbn; try discriminate. by intros ->%String.eqb_eq. Qed.

(** X25. The check of the cache-reading handler has no false positives: a
    message is taken for a correct guess only if the room data is an object
    of a started game in the drawing phase, the sender is not the drawer,
    and the message, lower-cased and trimmed, is the lower-cased word of
    the room, which is a non-empty string.  This is stated of messages and
    words of ASCII characters, whose lower case is that of [toLowerCase]. *)
Theorem correct_only_for_the_word_of_a_running_round
    (roomData : option text) (user : option string) (message : string) :
  is_ascii message = true ->
  is_ascii (room_word roomData) = true ->
  ChatSocketHandlerCache.isCorrect
    (exec (ChatSocketHandlerCache.inspect roomData user message)
          ChatSocketHandlerCache.initial) = true ->
  exists fields word,
    roomData = Some (Json (VObj fields))
    /\ truthy (assoc "gameStarted" fields) = true
    /\ assoc "gamePhase" fields = VStr "drawing"
    /\ strict_eq_str (assoc "currentDrawer" fields) user = false
    /\ assoc "currentWord" fields = VStr word
    /\ word <> ""
    /\ trim (toLowerCase message) = toLowerCase word.
Proof.
  intros _ _ H. unfold exec, ChatSocketHandlerCache.inspect in H.
  destruct roomData as [[v|raw]|]; cbn [ChatSocketHandlerCache.present] in H.
  - destruct v as [| |b|n|s|l|fields];
      try (cbn in H; discriminate H).
    exists fields.
    unfold bind, lift, modify, ret in H. cbn in H.
    destruct (truthy (assoc "gameStarted" fields)) eqn:Hgs; [|cbn in H; discriminate H].
    destruct (is_str (assoc "gamePhase" fields) "drawing") eqn:Hph;
      [|cbn in H; discriminate H].
    destruct (strict_eq_str (assoc "currentDrawer" fields) user) eqn:Hdr;
      [cbn in H; discriminate H|].
    destruct (assoc "currentWord" fields) as [| |b|n|word|l|fs] eqn:Hcw;
      try (cbn in H; discriminate H);
      try (destruct b; cbn in H; discriminate H);
      try (cbn in H; destruct (n =? 0); cbn in H; discriminate H).
    cbn [andb negb truthy] in H.
    destruct (String.eqb word "") eqn:Hw; [cbn in H; discriminate H|].
    cbn in H. exists word. apply is_str_true in Hph. apply String.eqb_neq in Hw.
    apply String.eqb_eq in H. done.
  - destruct (negb _); cbn in H; discriminate H.
  - cbn in H. discriminate H.
Qed.

Lemma correct_only_for_the_word_of_a_running_round_witness :
  exists fields word,
    Some (Json room_ABCD) = Some (Json (VObj fields))
    /\ truthy (assoc "gameStarted" fields) = true
    /\ assoc "gamePhase" fields = VStr "drawing"
    /\ strict_eq_str (assoc "currentDrawer" fields) (Some "u2") = false
    /\ assoc "currentWord" fields = VStr word
    /\ word <> ""
    /\ trim (toLowerCase "  ApPle ") = toLowerCase word.
Proof.
  apply (correct_only_for_the_word_of_a_running_round (Some (Json room_ABCD)) (Some "u2")
           "  ApPle ").
  - reflexivity.
  - reflexivity.
  - vm_compute. reflexivity.
Defined.

(** ** Two connections of one user *)

Lemma leave_runs (socket : string) (w : World) :
  truthy_str (roomCode (socket_of socket w)) = true ->
  let s := socket_of socket w in
  Common.handleLeaveChatRoom socket w
  = (exec (socket_leave socket (str (roomCode s)))
       (set_outbox (fun l => l ++ [departure socket w])
          (exec (RedisSingleton.removeUserFromRoom (str (roomCode s)) (str (userId s))) w)),
     Ok tt).
Proof.
  intros Hr s. subst s.
  unfold Common.handleLeaveChatRoom, try_catch, bind, gets. cbn. rewrite Hr. reflexivity.
Qed.

Lemma update_socket_other (socket other : string) (f : Socket -> Socket) (w : World) :
  other <> socket ->
  socket_of other (exec (update_socket socket f) w) = socket_of other w.
Proof.
  intros Hne. unfold socket_of, exec, update_socket, modify. cbn.
  by rewrite lookup_insert_ne.
Qed.

(** X26. The members of a room are kept per user id, not per connection.
    When a connection leaves or disconnects, its user is removed from the
    members of its room, and no other connection is touched: a second
    connection of the same user stays subscribed to the room and keeps its
    room code, while the user is no longer among the members. *)
Theorem leaving_on_one_connection_removes_the_user
    (leaving staying : string) (w : World) :
  in_room leaving w ->
  leaving <> staying ->
  let room := str (roomCode (socket_of leaving w)) in
  let user := str (userId (socket_of leaving w)) in
  let left := exec (Common.handleLeaveChatRoom leaving) w in
  let gone := exec (Common.handleDisconnect leaving) w in
  (members room left !! user = None /\ socket_of staying left = socket_of staying w)
  /\ (members room gone !! user = None /\ socket_of staying gone = socket_of staying w).
Proof.
  intros [Hr Hu] Hne room user left gone. split.
  - subst left. unfold exec at 1 2. rewrite (leave_runs leaving w Hr). cbn [fst].
    split.
    + unfold socket_leave.
      change (members room (exec (update_socket ?s ?f) ?v)) with (members room v).
      change (members room (set_outbox ?f ?v)) with (members room v).
      rewrite members_remove_same. apply lookup_delete_eq.
    + unfold socket_leave. rewrite update_socket_other by done. reflexivity.
  - subst gone. unfold exec at 1 2. rewrite (disconnect_in_room leaving w (conj Hr Hu)).
    cbn [fst]. split; [|reflexivity].
    change (members room (set_outbox ?f ?v)) with (members room v).
    change (set_redis ?f w)
      with (exec (RedisSingleton.removeUserFromRoom room user) w).
    rewrite members_remove_same. apply lookup_delete_eq.
Qed.

Lemma leaving_on_one_connection_removes_the_user_witness :
  members "ABCD" two_tabs !! "u2" = Some (Json (member_record (Some "bob") "s1" 1700000000000))
  /\ members "ABCD" (exec (Common.handleLeaveChatRoom "s2") two_tabs) !! "u2" = None
  /\ socket_of "s1" (exec (Common.handleLeaveChatRoom "s2") two_tabs) = socket_of "s1" two_tabs.
Proof.
  split; [vm_compute; reflexivity|].
  destruct (leaving_on_one_connection_removes_the_user "s2" "s1" two_tabs) as [[E1 E2] _].
  - split; vm_compute; reflexivity.
  - discriminate.
  - split; [exact E1|exact E2].
Defined.
